(** * Key-frame extraction: a model of [extract_keyframes.py]

    The script detects scenes with PySceneDetect, converts every scene
    boundary into three frame indices (start / mid / end) and saves the
    three frames as JPG files through an OpenCV capture.

    The development embeds the two functions of the script,
    [save_frame] and [extract_keyframes], as programs of a small
    state / event-log / exception monad.  The collaborators the script
    talks to are modelled at their interface:

    - the capture device ([cv2.VideoCapture]) is described by a [Video]:
      whether it opens, the frame count it reports, and what each call
      of [cap.read()] answers;
    - the file system is a finite map from paths to directories and
      files, with the behaviour of [os.mkdir], of
      [Path.mkdir(parents=True, exist_ok=True)] and of [cv2.imwrite];
    - the scene detector is represented by the scene list it returns. *)

From Stdlib Require Import ZArith Lia Ascii DecimalString DecimalNat.
From stdpp Require Import gmap strings list.

Local Open Scope Z_scope.

(** * The program *)

(** ** Paths and the file system *)

(** A path is the list of its components, outermost first; the empty
    list is the directory the relative paths start from.  A component
    stands for the entry of that name in its directory.  [pathlib] also
    keeps a component [..], which the system resolves to the directory
    above: it is no name of an entry, and the statements that relate a
    path to the entries of the file system are made for paths without it
    ([plain], below). *)
Abbreviation Path := (list string).

(** [Path.parent]: drop the last component; the parent of the base
    directory is the base directory itself, as in [pathlib]. *)
Definition parent (p : Path) : Path := removelast p.

(** [out_dir / name] *)
Definition path_join (d : Path) (name : string) : Path := d ++ [name].

(** A decoded frame; only its identity matters here. *)
Inductive Frame : Type := FrameData (id : Z).

(** An entry of the file system: a directory, in which the process may
    or may not create entries; a regular file the process may write to; a
    regular file it may only read. *)
Inductive Node : Type :=
| Dir (writable : bool)
| File (content : Frame)
| ReadOnlyFile (content : Frame).

Abbreviation FS := (gmap (list string) Node).

Inductive OSError : Type :=
| FileNotFoundError
| NotADirectoryError
| FileExistsError
| PermissionError.

Definition is_dir (fs : FS) (p : Path) : bool :=
  match fs !! p with
  | Some (Dir _) => true
  | _ => false
  end.

(** [os.mkdir(p)]: creates one directory.  An existing entry gives
    [FileExistsError]; a missing parent [FileNotFoundError]; a parent that
    is a regular file [NotADirectoryError]; a parent that is not writable
    [PermissionError].  (On a hierarchical file system an existing entry
    has a directory as its parent, so looking at the entry first agrees
    with the kernel's walk along the path.) *)
Definition os_mkdir (fs : FS) (p : Path) : OSError + FS :=
  match fs !! p with
  | Some _ => inl FileExistsError
  | None =>
      match fs !! parent p with
      | None => inl FileNotFoundError
      | Some (File _) | Some (ReadOnlyFile _) => inl NotADirectoryError
      | Some (Dir false) => inl PermissionError
      | Some (Dir true) => inr (<[p := Dir true]> fs)
      end
  end.

(** [Path.mkdir(parents=False, exist_ok=True)]: the second call that
    [pathlib] makes on itself once the parents are there. *)
Definition mkdir_exist_ok (fs : FS) (p : Path) : OSError + FS :=
  match os_mkdir fs p with
  | inr fs' => inr fs'
  | inl FileNotFoundError => inl FileNotFoundError
  | inl e => if is_dir fs p then inr fs else inl e
  end.

(** [Path.mkdir(parents=True, exist_ok=True)], following [pathlib]:
<<
    try: os.mkdir(self)
    except FileNotFoundError:
        if not parents or self.parent == self: raise
        self.parent.mkdir(parents=True, exist_ok=True)
        self.mkdir(mode, parents=False, exist_ok=exist_ok)
    except OSError:
        if not exist_ok or not self.is_dir(): raise
>>
    The recursion goes to the parent, so it is written over the reversed
    component list [rp] (innermost component first), whose tail is the
    parent. *)
Fixpoint mkdir_parents_rev (fs : FS) (rp : list string) : OSError + FS :=
  match os_mkdir fs (rev rp) with
  | inr fs' => inr fs'
  | inl FileNotFoundError =>
      match rp with
      | [] => inl FileNotFoundError
      | _ :: rparent =>
          match mkdir_parents_rev fs rparent with
          | inl e => inl e
          | inr fs1 => mkdir_exist_ok fs1 (rev rp)
          end
      end
  | inl e => if is_dir fs (rev rp) then inr fs else inl e
  end.

Definition mkdir_parents (fs : FS) (p : Path) : OSError + FS :=
  mkdir_parents_rev fs (rev p).

(** [cv2.imwrite(str(p), frame)] opens the file for writing and returns
    [False], without raising, when it cannot: [p] does not lie in a
    directory, [p] is a directory or a file that may not be written to, or
    [p] is missing from a directory in which nothing may be created.  An
    existing writable file is overwritten, whatever the permissions of its
    directory; a missing file is created, writable, in a writable
    directory. *)
Definition imwrite (fs : FS) (p : Path) (frame : Frame) : bool * FS :=
  match fs !! parent p with
  | Some (Dir writable) =>
      match fs !! p with
      | Some (Dir _) | Some (ReadOnlyFile _) => (false, fs)
      | Some (File _) => (true, <[p := File frame]> fs)
      | None => if writable then (true, <[p := File frame]> fs) else (false, fs)
      end
  | _ => (false, fs)
  end.

(** ** The video, as seen through the two libraries *)

(** [FrameTimecode]: only [get_frames()] is used. *)
Record FrameTimecode : Type := Timecode { get_frames : Z }.

Abbreviation Scene := (FrameTimecode * FrameTimecode)%type.

(** What [cap.read()] returns: the pair [(ret, frame)]. *)
Abbreviation ReadResult := (bool * option Frame)%type.

Record Video : Type := MkVideo {
  (** [scene_manager.get_scene_list()] *)
  v_scenes : list Scene;
  (** [cap.isOpened()] after [cv2.VideoCapture(path)] *)
  v_opens : bool;
  (** [int(cap.get(cv2.CAP_PROP_FRAME_COUNT))] *)
  v_frame_count : Z;
  (** the answer of the [n]-th call of [cap.read()] of the run (counted
      from 0), the capture having last been positioned at [pos] *)
  v_decode : nat -> Z -> ReadResult
}.

(** ** State, event log and exceptions *)

Record World : Type := MkWorld {
  w_pos : Z;        (** position set by the last [cap.set] *)
  w_nreads : nat;   (** number of [cap.read()] calls so far *)
  w_fs : FS
}.

Inductive Message : Type :=
| MsgNoScenes
| MsgTotals (nscenes : nat) (total_frames : Z)
| MsgScene (i : nat) (start_f mid_f end_f : Z) (ok1 ok2 ok3 : bool)
| MsgDone (out_dir : Path).

Inductive Event : Type :=
| EvOpen
| EvSeek (frame_idx : Z)
| EvRead
| EvMkdir (p : Path)
| EvImwrite (p : Path) (frame : Frame)
| EvRelease
| EvPrint (m : Message).

Inductive Exn : Type :=
| RuntimeError            (** "Không mở được video": the open error *)
| OSErr (e : OSError).

Inductive Result (A : Type) : Type :=
| Ok (a : A)
| Raised (x : Exn).
Arguments Ok {A} a.
Arguments Raised {A} x.

(** A computation reads and updates the world, appends to the event log
    and either returns or raises. *)
Definition M (A : Type) : Type := World -> Result A * World * list Event.

Definition ret {A} (a : A) : M A := fun w => (Ok a, w, []).

Definition bind {A B} (m : M A) (k : A -> M B) : M B :=
  fun w =>
    match m w with
    | (Ok a, w1, e1) =>
        match k a w1 with
        | (r, w2, e2) => (r, w2, e1 ++ e2)
        end
    | (Raised x, w1, e1) => (Raised x, w1, e1)
    end.

Definition raise {A} (x : Exn) : M A := fun w => (Raised x, w, []).

Definition emit (e : Event) : M unit := fun w => (Ok tt, w, [e]).

Notation "x <- c1 ;; c2" := (bind c1 (fun x => c2))
  (at level 100, c1 at next level, right associativity).
Notation "c1 ;; c2" := (bind c1 (fun _ => c2))
  (at level 100, right associativity).

(** ** Primitive operations *)

Definition print (m : Message) : M unit := emit (EvPrint m).

(** [cap.set(cv2.CAP_PROP_POS_FRAMES, frame_idx)] *)
Definition cap_set_pos (frame_idx : Z) : M unit :=
  fun w => (Ok tt, MkWorld frame_idx (w_nreads w) (w_fs w), [EvSeek frame_idx]).

(** [cap.read()] *)
Definition cap_read (cap : Video) : M ReadResult :=
  fun w =>
    (Ok (v_decode cap (w_nreads w) (w_pos w)),
     MkWorld (w_pos w) (S (w_nreads w)) (w_fs w),
     [EvRead]).

(** [cap.release()] *)
Definition cap_release : M unit := emit EvRelease.

(** [p.mkdir(parents=True, exist_ok=True)] *)
Definition path_mkdir (p : Path) : M unit :=
  fun w =>
    match mkdir_parents (w_fs w) p with
    | inr fs' => (Ok tt, MkWorld (w_pos w) (w_nreads w) fs', [EvMkdir p])
    | inl e => (Raised (OSErr e), w, [EvMkdir p])
    end.

(** [cv2.imwrite(str(p), frame)] *)
Definition cv2_imwrite (p : Path) (frame : Frame) : M bool :=
  fun w =>
    match imwrite (w_fs w) p frame with
    | (ok, fs') => (Ok ok, MkWorld (w_pos w) (w_nreads w) fs', [EvImwrite p frame])
    end.

(** The frame of a read, when the test [not ret or frame is None] is
    false. *)
Definition usable (r : ReadResult) : option Frame :=
  if fst r then snd r else None.

(** ** [save_frame] *)

(** Lines 27-28, reached from either successful read. *)
Definition write_frame (out_path : Path) (frame : Frame) : M bool :=
  path_mkdir (parent out_path) ;;
  cv2_imwrite out_path frame.

Definition save_frame (cap : Video) (frame_idx : Z) (out_path : Path) : M bool :=
  let total := v_frame_count cap in
  if total <=? 0 then ret false
  else
    let frame_idx := Z.max 0 (Z.min frame_idx (total - 1)) in
    cap_set_pos frame_idx ;;
    r1 <- cap_read cap ;;
    match usable r1 with
    | Some frame => write_frame out_path frame
    | None =>
        r2 <- cap_read cap ;;
        match usable r2 with
        | Some frame => write_frame out_path frame
        | None => ret false
        end
    end.

(** ** [extract_keyframes] *)

(** Python's [f"{i:03d}"] for a non-negative [i]: the decimal numeral,
    padded on the left with zeros to at least three characters. *)
Definition decimal (i : nat) : string := NilZero.string_of_uint (Nat.to_uint i).

Fixpoint zeros (n : nat) : string :=
  match n with
  | O => EmptyString
  | S n' => String "0"%char (zeros n')
  end.

Definition format_03d (i : nat) : string :=
  zeros (3 - String.length (decimal i)) +:+ decimal i.

(** Lines 58-67: the three frame indices of a scene. *)
Definition frame_range (scene : Scene) : Z * Z * Z :=
  let '(start_time, end_time) := scene in
  let start_f := get_frames start_time in
  let end_f := get_frames end_time - 1 in
  let end_f := if end_f <? start_f then start_f else end_f in
  let mid_f := (start_f + end_f) / 2 in
  (start_f, mid_f, end_f).

(** Lines 70-73: the three output paths of scene [i]. *)
Definition scene_paths (out_dir : Path) (i : nat) : Path * Path * Path :=
  let base := "scene_" +:+ format_03d i in
  (path_join out_dir (base +:+ "_start.jpg"),
   path_join out_dir (base +:+ "_mid.jpg"),
   path_join out_dir (base +:+ "_end.jpg")).

(** The body of the loop, for scene number [i]. *)
Definition scene_body (cap : Video) (out_dir : Path) (i : nat) (scene : Scene) : M unit :=
  let '(start_f, mid_f, end_f) := frame_range scene in
  let '(out_start, out_mid, out_end) := scene_paths out_dir i in
  ok1 <- save_frame cap start_f out_start ;;
  ok2 <- save_frame cap mid_f out_mid ;;
  ok3 <- save_frame cap end_f out_end ;;
  print (MsgScene i start_f mid_f end_f ok1 ok2 ok3).

(** [for i, (start_time, end_time) in enumerate(scenes, start=i): ...] *)
Fixpoint scene_loop (cap : Video) (out_dir : Path) (i : nat) (scenes : list Scene) : M unit :=
  match scenes with
  | [] => ret tt
  | scene :: rest =>
      scene_body cap out_dir i scene ;;
      scene_loop cap out_dir (S i) rest
  end.

(** [cv2.VideoCapture(str(video_path))] followed by the [isOpened]
    test. *)
Definition open_capture (video : Video) : M unit :=
  emit EvOpen ;;
  if v_opens video then ret tt else raise RuntimeError.

Definition extract_keyframes (video : Video) (out_dir : Path) : M unit :=
  let scenes := v_scenes video in
  match scenes with
  | [] => print MsgNoScenes
  | _ :: _ =>
      open_capture video ;;
      let total_frames := v_frame_count video in
      print (MsgTotals (length scenes) total_frames) ;;
      scene_loop video out_dir 1 scenes ;;
      cap_release ;;
      print (MsgDone out_dir)
  end.

(** * Vocabulary of the statements *)

(** ** Reading the outcome of a computation *)

Definition result_of {A} (x : Result A * World * list Event) : Result A := x.1.1.
Definition world_of {A} (x : Result A * World * list Event) : World := x.1.2.
Definition events_of {A} (x : Result A * World * list Event) : list Event := x.2.

(** The same outcome, with [evs] logged before it. *)
Definition after_events {A} (evs : list Event) (x : Result A * World * list Event)
  : Result A * World * list Event :=
  (x.1, evs ++ x.2).

Fixpoint count (p : Event -> bool) (evs : list Event) : nat :=
  match evs with
  | [] => 0%nat
  | e :: rest => ((if p e then 1 else 0) + count p rest)%nat
  end.

Definition is_seek (e : Event) : bool := match e with EvSeek _ => true | _ => false end.
Definition is_read (e : Event) : bool := match e with EvRead => true | _ => false end.
Definition is_open (e : Event) : bool := match e with EvOpen => true | _ => false end.
Definition is_release (e : Event) : bool := match e with EvRelease => true | _ => false end.
Definition is_fs_event (e : Event) : bool :=
  match e with EvMkdir _ | EvImwrite _ _ => true | _ => false end.

(** ** Calls of [save_frame] *)

(** The index [save_frame] seeks to: [max(0, min(frame_idx, total - 1))]. *)
Definition clamp_index (total frame_idx : Z) : Z :=
  Z.max 0 (Z.min frame_idx (total - 1)).

(** The world after a seek to [pos] and [k] reads. *)
Definition sought (w : World) (pos : Z) (k : nat) : World :=
  MkWorld pos (k + w_nreads w) (w_fs w).

(** What the first and the second [cap.read()] of a call of [save_frame]
    give. *)
Definition first_read (cap : Video) (frame_idx : Z) (w : World) : option Frame :=
  usable (v_decode cap (w_nreads w) (clamp_index (v_frame_count cap) frame_idx)).

Definition second_read (cap : Video) (frame_idx : Z) (w : World) : option Frame :=
  usable (v_decode cap (S (w_nreads w)) (clamp_index (v_frame_count cap) frame_idx)).

(** The frame a call of [save_frame] obtains, if any. *)
Definition frame_read (cap : Video) (frame_idx : Z) (w : World) : option Frame :=
  if v_frame_count cap <=? 0 then None
  else
    match first_read cap frame_idx w with
    | Some frame => Some frame
    | None => second_read cap frame_idx w
    end.

(** ** What [cap.read()] answered

    The same, told from the answers of the capture alone. *)

(** A read failed: [ret] is false, or there is no frame. *)
Definition read_failed (r : ReadResult) : Prop := r.1 = false \/ r.2 = None.

(** What the capture answers to the first and to the second [cap.read()]
    of a call of [save_frame] made in the world [w]. *)
Definition first_answer (cap : Video) (frame_idx : Z) (w : World) : ReadResult :=
  v_decode cap (w_nreads w) (clamp_index (v_frame_count cap) frame_idx).

Definition second_answer (cap : Video) (frame_idx : Z) (w : World) : ReadResult :=
  v_decode cap (S (w_nreads w)) (clamp_index (v_frame_count cap) frame_idx).

(** The call gets [frame] from the capture: the video has frames and the
    first read gives [frame], or the first read fails and the second
    gives [frame]. *)
Definition reads_frame (cap : Video) (frame_idx : Z) (w : World) (frame : Frame) : Prop :=
  0 < v_frame_count cap /\
  (first_answer cap frame_idx w = (true, Some frame) \/
   (read_failed (first_answer cap frame_idx w) /\
    second_answer cap frame_idx w = (true, Some frame))).

(** Somewhere in the run two reads in a row at [pos] fail. *)
Definition fails_twice (cap : Video) (pos : Z) : Prop :=
  exists n : nat, read_failed (v_decode cap n pos) /\ read_failed (v_decode cap (S n) pos).

(** Some read at [pos] gives a frame. *)
Definition gives_frame (cap : Video) (pos : Z) : Prop :=
  exists (n : nat) (frame : Frame), v_decode cap n pos = (true, Some frame).

(** The events one call of [save_frame] on [out_path] can log. *)
Definition save_event (out_path : Path) (e : Event) : Prop :=
  match e with
  | EvSeek _ | EvRead => True
  | EvMkdir p => p = parent out_path
  | EvImwrite p _ => p = out_path
  | _ => False
  end.

(** ** Frame ranges and the lines of the log *)

(** The ordering the three indices of a scene are expected to satisfy in a
    video of [total] frames. *)
Definition ordering_invariant (total : Z) (range : Z * Z * Z) : Prop :=
  match range with
  | (start_f, mid_f, end_f) =>
      0 <= start_f /\ start_f <= mid_f /\ mid_f <= end_f /\ end_f <= total - 1
  end.

(** The scene lines of a log: ordinal and the three indices printed. *)
Fixpoint scene_keys (evs : list Event) : list (nat * (Z * Z * Z)) :=
  match evs with
  | [] => []
  | EvPrint (MsgScene i s m e _ _ _) :: rest => (i, (s, m, e)) :: scene_keys rest
  | _ :: rest => scene_keys rest
  end.

(** The three success flags of every scene line. *)
Fixpoint scene_flags (evs : list Event) : list (bool * bool * bool) :=
  match evs with
  | [] => []
  | EvPrint (MsgScene _ _ _ _ ok1 ok2 ok3) :: rest => (ok1, ok2, ok3) :: scene_flags rest
  | _ :: rest => scene_flags rest
  end.

(** The scene lines a complete pass over [scenes] prints, numbering from
    [i]. *)
Fixpoint expected_keys (i : nat) (scenes : list Scene) : list (nat * (Z * Z * Z)) :=
  match scenes with
  | [] => []
  | scene :: rest => (i, frame_range scene) :: expected_keys (S i) rest
  end.

(** The events a pass over the scenes numbered [lo], ..., [hi - 1] can
    log. *)
Definition loop_event (d : Path) (lo hi : nat) (e : Event) : Prop :=
  match e with
  | EvSeek _ | EvRead => True
  | EvMkdir p => p = d
  | EvImwrite p _ =>
      exists j, (lo <= j < hi)%nat /\
        (p = (scene_paths d j).1.1 \/ p = (scene_paths d j).1.2 \/ p = (scene_paths d j).2)
  | EvPrint (MsgScene j _ _ _ _ _ _) => (lo <= j < hi)%nat
  | _ => False
  end.

Definition all_reads_fail (cap : Video) : Prop :=
  forall (n : nat) (pos : Z), usable (v_decode cap n pos) = None.

(** ** The file system and the file names *)

(** A hierarchical file system: whatever exists lies in a directory. *)
Definition fs_wf (fs : FS) : Prop :=
  forall p : Path, is_Some (fs !! p) -> is_dir fs (parent p) = true.

(** A path all of whose components are names of entries. *)
Definition is_name (c : string) : bool := negb (String.eqb c "..").

Definition plain (p : Path) : bool := forallb is_name p.

(** The directory [d] is there or can be made: the base directory
    exists; on the way to [d], [d] included, whatever exists is a
    directory, and what is missing lies in a directory that is missing as
    well or is writable. *)
Definition creatable (fs : FS) (d : Path) : Prop :=
  is_dir fs [] = true /\
  forall q k : Path,
    d = q ++ k ->
    match fs !! q with
    | Some (Dir _) => True
    | Some _ => False
    | None => fs !! parent q = None \/ fs !! parent q = Some (Dir true)
    end.

(** What is at a path after [imwrite] has been called on it with [frame],
    in a writable directory, when [old] was there and was no directory. *)
Definition overwritten (old : option Node) (frame : Frame) : option Node :=
  match old with
  | Some (ReadOnlyFile content) => Some (ReadOnlyFile content)
  | _ => Some (File frame)
  end.

(** A file can be written at [p]: [p] lies in a directory, and is a
    writable file already, or is missing from a writable directory. *)
Definition can_write (fs : FS) (p : Path) : bool :=
  match fs !! parent p, fs !! p with
  | Some (Dir _), Some (File _) => true
  | Some (Dir true), None => true
  | _, _ => false
  end.

(** The output directory exists, or can be created. *)
Definition dir_ready (fs : FS) (d : Path) : Prop :=
  exists fs1, mkdir_parents fs d = inr fs1.

(** The number a zero-padded decimal numeral stands for. *)
Definition ordinal_of (s : string) : option nat :=
  option_map Nat.of_uint (NilZero.uint_of_string s).

(** ** Roles, and the path of each role *)

Inductive Role : Type := RStart | RMid | REnd.

(** The path [extract_keyframes] passes to [save_frame] for role [r] of
    scene [i]. *)
Definition role_path (d : Path) (i : nat) (r : Role) : Path :=
  match r with
  | RStart => (scene_paths d i).1.1
  | RMid => (scene_paths d i).1.2
  | REnd => (scene_paths d i).2
  end.

(** The index [extract_keyframes] passes to [save_frame] for role [r]. *)
Definition role_index (range : Z * Z * Z) (r : Role) : Z :=
  match r with
  | RStart => range.1.1
  | RMid => range.1.2
  | REnd => range.2
  end.

(** The flag of role [r] in a scene line. *)
Definition role_flag (flags : bool * bool * bool) (r : Role) : bool :=
  match r with
  | RStart => flags.1.1
  | RMid => flags.1.2
  | REnd => flags.2
  end.

(** The line the loop prints for scene [i]. *)
Definition scene_line (i : nat) (range : Z * Z * Z) (flags : bool * bool * bool) : Event :=
  EvPrint (MsgScene i range.1.1 range.1.2 range.2 flags.1.1 flags.1.2 flags.2).

(** ** More ways of reading a log *)

Definition is_mkdir (e : Event) : bool := match e with EvMkdir _ => true | _ => false end.
Definition is_imwrite (e : Event) : bool := match e with EvImwrite _ _ => true | _ => false end.

(** A seek stays inside a video of [total] frames. *)
Definition seek_in_range (total : Z) (e : Event) : Prop :=
  match e with
  | EvSeek frame_idx => 0 <= frame_idx <= total - 1
  | _ => True
  end.

(** Each kind of event is bounded by the one that has to come before it
    in a call of [save_frame]. *)
Definition within_budget (evs : list Event) : Prop :=
  (count is_read evs <= 2 * count is_seek evs)%nat /\
  (count is_seek evs <= count is_read evs)%nat /\
  (count is_mkdir evs <= count is_seek evs)%nat /\
  (count is_imwrite evs <= count is_mkdir evs)%nat.

(** The lines printed for the scenes of a video in which no frame can be
    extracted. *)
Fixpoint no_frame_lines (i : nat) (scenes : list Scene) : list Event :=
  match scenes with
  | [] => []
  | scene :: rest =>
      scene_line i (frame_range scene) (false, false, false) :: no_frame_lines (S i) rest
  end.

(** The place of a role among the three calls made for a scene. *)
Definition role_number (r : Role) : nat :=
  match r with
  | RStart => 0
  | RMid => 1
  | REnd => 2
  end.

(** The calls of [imwrite] of a log, in order: each with the number of
    seeks logged before it, the index of the last of these seeks, and the
    path written to.  [nseeks] and [last] stand for the seeks made before
    the log starts. *)
Fixpoint writes_of (nseeks : nat) (last : Z) (evs : list Event) : list (nat * Z * Path) :=
  match evs with
  | [] => []
  | EvSeek frame_idx :: rest => writes_of (S nseeks) frame_idx rest
  | EvImwrite p _ :: rest => (nseeks, last, p) :: writes_of nseeks last rest
  | _ :: rest => writes_of nseeks last rest
  end.

(** The index of the last seek of a log, [last] when it has none. *)
Fixpoint last_seek (last : Z) (evs : list Event) : Z :=
  match evs with
  | [] => last
  | EvSeek frame_idx :: rest => last_seek frame_idx rest
  | _ :: rest => last_seek last rest
  end.

(** ** Changes of the file system *)

(** What may differ between [fs] and [fs']: at each path the entry is the
    same, or a directory has appeared where there was nothing, on the way
    to [D], or a file stands at a path of [W] where there was no
    directory. *)
Definition fs_change (W : Path -> Prop) (D : Path) (fs fs' : FS) : Prop :=
  forall q : Path,
    fs' !! q = fs !! q \/
    (fs !! q = None /\ fs' !! q = Some (Dir true) /\ exists k, D = q ++ k) \/
    (W q /\ is_dir fs q = false /\ exists frame, fs' !! q = Some (File frame)).

(** The paths a run on [n] scenes may write to. *)
Definition run_path (d : Path) (n : nat) (q : Path) : Prop :=
  exists (j : nat) (r : Role), (1 <= j <= n)%nat /\ q = role_path d j r.

(** ** Characters of a file name *)

Definition is_digit (a : ascii) : bool :=
  match a with
  | "0" | "1" | "2" | "3" | "4" | "5" | "6" | "7" | "8" | "9" => true
  | _ => false
  end%char.

Fixpoint all_digits (s : string) : bool :=
  match s with
  | EmptyString => true
  | String a s' => is_digit a && all_digits s'
  end.

(** What follows the number in the file name of a role. *)
Definition role_suffix (r : Role) : string :=
  match r with
  | RStart => "_start.jpg"
  | RMid => "_mid.jpg"
  | REnd => "_end.jpg"
  end.

(** Every flag of the log [evs] that says saved has its file in [fs]. *)
Definition flags_have_files (d : Path) (evs : list Event) (fs : FS) : Prop :=
  forall (j : nat) (range : Z * Z * Z) (flags : bool * bool * bool) (r : Role),
    In (scene_line j range flags) evs ->
    role_flag flags r = true ->
    exists frame, fs !! role_path d j r = Some (File frame).

(** ** A run in which nothing goes wrong *)

(** At every position a read gives the frame [g pos], at the latest on
    the second try. *)
Definition reads_frame_at (cap : Video) (g : Z -> Frame) : Prop :=
  forall (n : nat) (pos : Z),
    usable (v_decode cap n pos) = Some (g pos) \/
    (usable (v_decode cap n pos) = None /\
     usable (v_decode cap (S n) pos) = Some (g pos)).

(** Creating the output directory [d] in [fs] gives [fs1], where [d] is
    writable and no scene file name is taken by a directory. *)
Definition out_dir_ready (d : Path) (fs fs1 : FS) : Prop :=
  mkdir_parents fs d = inr fs1 /\
  fs1 !! d = Some (Dir true) /\
  forall (j : nat) (r : Role), is_dir fs1 (role_path d j r) = false.

(** The frame that belongs in the file of role [r] of [scene]. *)
Definition role_frame (cap : Video) (g : Z -> Frame) (scene : Scene) (r : Role) : Frame :=
  g (clamp_index (v_frame_count cap) (role_index (frame_range scene) r)).

(** The three flags of scene [i] when each of its frames has been read:
    what [imwrite] answers for each of its files. *)
Definition write_flags (fs : FS) (d : Path) (i : nat) : bool * bool * bool :=
  (can_write fs (role_path d i RStart),
   can_write fs (role_path d i RMid),
   can_write fs (role_path d i REnd)).

(** Nothing is at [p], or a file that may be written to. *)
Definition free_or_writable (fs : FS) (p : Path) : bool :=
  match fs !! p with
  | None | Some (File _) => true
  | _ => false
  end.

(** The file system after the three calls of a turn of the loop in which
    each call gets the frame of its role, [fs1] being the file system in
    which the output directory has been created. *)
Definition after_scene (cap : Video) (d : Path) (g : Z -> Frame)
    (fs1 : FS) (i : nat) (scene : Scene) : FS :=
  (imwrite
     (imwrite
        (imwrite fs1 (role_path d i RStart) (role_frame cap g scene RStart)).2
        (role_path d i RMid) (role_frame cap g scene RMid)).2
     (role_path d i REnd) (role_frame cap g scene REnd)).2.

(** ** The outcome of each call of a run *)

(** What the flag of a call that seeks to [pos] and writes to [p] says,
    [fs1] being the file system in which the output directory has been
    created: [True] needs a video with frames, a read at [pos] that gives
    a frame, and a file that can be written; [False] needs a video
    without frames, two failed reads in a row at [pos], or a file that
    cannot be written. *)
Definition flag_explained (cap : Video) (fs1 : FS) (pos : Z) (p : Path) (flag : bool) : Prop :=
  if flag
  then 0 < v_frame_count cap /\ gives_frame cap pos /\ can_write fs1 p = true
  else v_frame_count cap <= 0 \/ fails_twice cap pos \/ can_write fs1 p = false.

(** The file system [fs] of a run under way, seen from [fs1]: creating
    the output directory [d] in [fs] succeeds, and what it gives differs
    from [fs1] at the paths in [written] only. *)
Definition follows (d : Path) (fs1 : FS) (written : Path -> Prop) (fs : FS) : Prop :=
  exists fs2, mkdir_parents fs d = inr fs2 /\ forall q, ~ written q -> fs2 !! q = fs1 !! q.

(** ** Scene lists as the detector returns them *)

(** Every scene has at least one frame, and each scene ends where the next
    one starts. *)
Definition chained (scenes : list Scene) : Prop :=
  (forall (k : nat) (s : Scene),
     scenes !! k = Some s -> get_frames s.1 < get_frames s.2) /\
  (forall (k : nat) (s1 s2 : Scene),
     scenes !! k = Some s1 -> scenes !! S k = Some s2 ->
     get_frames s1.2 = get_frames s2.1).

(** The indices a log seeks to, in order. *)
Fixpoint seeks_of (evs : list Event) : list Z :=
  match evs with
  | [] => []
  | EvSeek frame_idx :: rest => frame_idx :: seeks_of rest
  | _ :: rest => seeks_of rest
  end.

(** The three indices [save_frame] seeks to for a scene, in the order of
    the calls. *)
Definition scene_seeks (total : Z) (scene : Scene) : list Z :=
  [clamp_index total (role_index (frame_range scene) RStart);
   clamp_index total (role_index (frame_range scene) RMid);
   clamp_index total (role_index (frame_range scene) REnd)].

(** * Concrete videos and file systems *)

Definition tc (n : Z) : FrameTimecode := Timecode n.

(** Every read succeeds and gives the frame at the position sought. *)
Definition decode_ok : nat -> Z -> ReadResult :=
  fun _ pos => (true, Some (FrameData pos)).

(** Every read fails. *)
Definition decode_fail : nat -> Z -> ReadResult :=
  fun _ _ => (false, None).

(** The first read after each seek fails, the second succeeds (three
    extractions a scene, two reads each). *)
Definition decode_transient : nat -> Z -> ReadResult :=
  fun n pos => if Nat.even n then (false, None) else (true, Some (FrameData pos)).

(** Only the base directory exists, and it is writable. *)
Definition fs_base : FS := {[ [] := Dir true ]}.

(** The name [out] is taken by a regular file. *)
Definition fs_out_is_file : FS :=
  <[ ["out"%string] := File (FrameData 0) ]> fs_base.

(** The output directory exists but is read-only: every write fails. *)
Definition fs_out_readonly : FS :=
  <[ ["out"%string] := Dir false ]> fs_base.

(** Nothing can be created: the base directory is read-only. *)
Definition fs_base_readonly : FS := {[ [] := Dir false ]}.

Definition world0 (fs : FS) : World := MkWorld 0 0%nat fs.

(** Ten seconds at 30 frames a second with one cut at five seconds: two
    scenes, 300 frames, every frame readable. *)
Definition video_two_scenes : Video :=
  MkVideo [(tc 0, tc 150); (tc 150, tc 300)] true 300 decode_ok.

(** The same video behind a capture whose first read after a seek fails
    and whose second read succeeds. *)
Definition video_transient : Video :=
  MkVideo [(tc 0, tc 150); (tc 150, tc 300)] true 300 decode_transient.

(** The same video behind a capture whose reads all fail. *)
Definition video_unreadable : Video :=
  MkVideo [(tc 0, tc 150); (tc 150, tc 300)] true 300 decode_fail.

(** The detector saw ten frames, the capture reports five. *)
Definition video_short_count : Video :=
  MkVideo [(tc 0, tc 10)] true 5 decode_ok.

(** A uniform clip: the detector returns no scene. *)
Definition video_no_scenes : Video := MkVideo [] true 300 decode_ok.

(** The capture reports no frame. *)
Definition video_no_frames : Video :=
  MkVideo [(tc 0, tc 150); (tc 150, tc 300)] true 0 decode_ok.

(** The base directory with a writable directory [out] in it. *)
Definition fs_with_out : FS := <[ ["out"%string] := Dir true ]> fs_base.

(** A video whose frame 74 cannot be decoded: the read succeeds and
    gives no frame. *)
Definition decode_bad_middle : nat -> Z -> ReadResult :=
  fun _ pos => if pos =? 74 then (true, None) else (true, Some (FrameData pos)).

Definition video_bad_middle : Video :=
  MkVideo [(tc 0, tc 150); (tc 150, tc 300)] true 300 decode_bad_middle.

(** The directory [out] with a file in it that may not be written to. *)
Definition fs_locked_file : FS :=
  <[ ["out"; "scene_002_end.jpg"]%string := ReadOnlyFile (FrameData 0) ]> fs_with_out.

(** * Lemmas *)

(** ** Facts about the file system *)

Lemma parent_join (d : Path) (name : string) : parent (path_join d name) = d.
Proof. unfold parent, path_join. apply removelast_last. Qed.

Lemma join_not_dir (d : Path) (name : string) : path_join d name <> d.
Proof.
  unfold path_join. intros H.
  apply (f_equal (@length string)) in H.
  rewrite length_app in H. simpl in H. lia.
Qed.

Lemma os_mkdir_inr (fs fs' : FS) (p : Path) :
  os_mkdir fs p = inr fs' ->
  fs !! p = None /\ fs !! parent p = Some (Dir true) /\ fs' = <[p := Dir true]> fs.
Proof.
  unfold os_mkdir.
  destruct (fs !! p) eqn:Hp; [discriminate|].
  destruct (fs !! parent p) as [[[|]| |]|] eqn:Hq; try discriminate.
  intros [= <-]. auto.
Qed.

Lemma os_mkdir_existing (fs : FS) (p : Path) :
  is_dir fs p = true -> os_mkdir fs p = inl FileExistsError.
Proof.
  unfold is_dir, os_mkdir. destruct (fs !! p) as [[| |]|]; try discriminate; auto.
Qed.

Lemma is_dir_insert_dir (fs : FS) (p : Path) (b : bool) :
  is_dir (<[p := Dir b]> fs) p = true.
Proof. unfold is_dir. by rewrite lookup_insert_eq. Qed.

Lemma is_dir_mono (fs fs' : FS) (p : Path) :
  fs ⊆ fs' -> is_dir fs p = true -> is_dir fs' p = true.
Proof.
  unfold is_dir. intros Hsub.
  destruct (fs !! p) as [[w| |]|] eqn:Hp; try discriminate.
  intros _. by rewrite (lookup_weaken _ _ _ _ Hp Hsub).
Qed.

(** The ways [mkdir] can succeed: the directory is created, or it was
    there already, or (with [parents=True]) the parents are created first
    and the call is made again. *)
Ltac exist_ok_case :=
  match goal with
  | |- context [is_dir ?fs ?p] =>
      let Hd := fresh "Hd" in
      destruct (is_dir fs p) eqn:Hd; [intros [= <-]; auto | discriminate]
  end.

Lemma mkdir_exist_ok_cases (fs fs' : FS) (p : Path) :
  mkdir_exist_ok fs p = inr fs' ->
  os_mkdir fs p = inr fs' \/ (fs' = fs /\ is_dir fs p = true).
Proof.
  unfold mkdir_exist_ok.
  destruct (os_mkdir fs p) as [e|fs1]; [|intros [= <-]; auto].
  destruct e; try discriminate; exist_ok_case.
Qed.

Lemma mkdir_parents_rev_cases (rp : list string) (fs fs' : FS) :
  mkdir_parents_rev fs rp = inr fs' ->
  os_mkdir fs (rev rp) = inr fs' \/
  (fs' = fs /\ is_dir fs (rev rp) = true) \/
  (exists c rparent fs1,
     rp = c :: rparent /\
     mkdir_parents_rev fs rparent = inr fs1 /\
     mkdir_exist_ok fs1 (rev rp) = inr fs').
Proof.
  destruct rp as [|c rparent]; cbn [mkdir_parents_rev];
    (destruct (os_mkdir fs _) as [e|fs1]; [|intros [= <-]; auto]);
    destruct e; try discriminate; try exist_ok_case.
  destruct (mkdir_parents_rev fs rparent) as [e1|fs1] eqn:Hrec; [discriminate|].
  intros Hself. right. right. eauto 6.
Qed.

Lemma os_mkdir_creates (fs fs' : FS) (p : Path) :
  os_mkdir fs p = inr fs' -> is_dir fs' p = true /\ fs ⊆ fs'.
Proof.
  intros Hmk. apply os_mkdir_inr in Hmk as (Hnone & _ & ->).
  split; [apply is_dir_insert_dir | by apply insert_subseteq].
Qed.

Lemma mkdir_exist_ok_inr (fs fs' : FS) (p : Path) :
  mkdir_exist_ok fs p = inr fs' -> is_dir fs' p = true /\ fs ⊆ fs'.
Proof.
  intros H. apply mkdir_exist_ok_cases in H as [H|[-> Hd]];
    [by apply os_mkdir_creates | auto].
Qed.

(** A successful [mkdir] leaves the directory in place and removes or
    changes no existing entry. *)
Lemma mkdir_parents_rev_inr (rp : list string) :
  forall fs fs' : FS,
    mkdir_parents_rev fs rp = inr fs' ->
    is_dir fs' (rev rp) = true /\ fs ⊆ fs'.
Proof.
  induction rp as [|c rparent IH]; intros fs fs' H;
    apply mkdir_parents_rev_cases in H
      as [H|[[-> Hd]|(c' & rparent' & fs1 & Heq & Hrec & Hself)]];
    try (by apply os_mkdir_creates); try (split; [exact Hd | reflexivity]).
  injection Heq as <- <-.
  apply IH in Hrec as [_ Hsub1].
  apply mkdir_exist_ok_inr in Hself as [Hd Hsub2].
  split; [exact Hd | etrans; [exact Hsub1 | exact Hsub2]].
Qed.

Lemma mkdir_parents_inr (fs fs' : FS) (p : Path) :
  mkdir_parents fs p = inr fs' -> is_dir fs' p = true /\ fs ⊆ fs'.
Proof.
  unfold mkdir_parents. intros H. apply mkdir_parents_rev_inr in H.
  by rewrite rev_involutive in H.
Qed.

(** [exist_ok=True]: on an existing directory [mkdir] neither raises nor
    changes anything. *)
Lemma mkdir_parents_existing (fs : FS) (p : Path) :
  is_dir fs p = true -> mkdir_parents fs p = inr fs.
Proof.
  intros Hd. unfold mkdir_parents.
  destruct (rev p) as [|c rparent] eqn:Hrev; cbn [mkdir_parents_rev];
    rewrite <- Hrev, rev_involutive, (os_mkdir_existing _ _ Hd), Hd; reflexivity.
Qed.

Lemma mkdir_parents_idempotent (fs fs' : FS) (p : Path) :
  mkdir_parents fs p = inr fs' -> mkdir_parents fs' p = inr fs'.
Proof.
  intros H. apply mkdir_parents_existing.
  by apply mkdir_parents_inr in H as [H _].
Qed.

Lemma imwrite_other (fs : FS) (p q : Path) (f : Frame) :
  q <> p -> (imwrite fs p f).2 !! q = fs !! q.
Proof.
  intros Hne. unfold imwrite.
  destruct (fs !! parent p) as [[[|]| |]|]; try reflexivity;
    destruct (fs !! p) as [[| |]|]; cbn; try reflexivity;
    by rewrite lookup_insert_ne.
Qed.

Lemma imwrite_keeps_dir (fs : FS) (d : Path) (name : string) (f : Frame) :
  is_dir fs d = true -> is_dir (imwrite fs (path_join d name) f).2 d = true.
Proof.
  unfold is_dir. rewrite imwrite_other; [auto|].
  intros H. symmetry in H. by apply join_not_dir in H.
Qed.

(** A failed write changes nothing. *)
Lemma imwrite_false (fs : FS) (p : Path) (f : Frame) :
  (imwrite fs p f).1 = false -> (imwrite fs p f).2 = fs.
Proof.
  unfold imwrite.
  destruct (fs !! parent p) as [[[|]| |]|]; try reflexivity;
    destruct (fs !! p) as [[| |]|]; cbn; try reflexivity; discriminate.
Qed.

(** [imwrite] answers [True] exactly when the file can be written, and
    then the file holds the frame; its answer does not depend on the
    frame. *)
Lemma imwrite_answer (fs : FS) (p : Path) (f : Frame) :
  (imwrite fs p f).1 = can_write fs p.
Proof.
  unfold imwrite, can_write.
  destruct (fs !! parent p) as [[[|]| |]|]; try reflexivity;
    destruct (fs !! p) as [[| |]|]; reflexivity.
Qed.

Lemma imwrite_written (fs : FS) (p : Path) (f : Frame) :
  can_write fs p = true -> (imwrite fs p f).2 = <[p := File f]> fs.
Proof.
  unfold imwrite, can_write.
  destruct (fs !! parent p) as [[[|]| |]|]; try discriminate;
    destruct (fs !! p) as [[| |]|]; try discriminate; reflexivity.
Qed.

Lemma imwrite_refused (fs : FS) (p : Path) (f : Frame) :
  can_write fs p = false -> (imwrite fs p f).2 = fs.
Proof. rewrite <- (imwrite_answer fs p f). apply imwrite_false. Qed.

(** What can be written lies in a directory and is no directory. *)
Lemma can_write_inv (fs : FS) (p : Path) :
  can_write fs p = true -> is_dir fs (parent p) = true /\ is_dir fs p = false.
Proof.
  unfold can_write, is_dir.
  destruct (fs !! parent p) as [[[|]| |]|]; try discriminate;
    destruct (fs !! p) as [[| |]|]; try discriminate; auto.
Qed.

(** The answer depends on two entries only. *)
Lemma can_write_agree (fs fs' : FS) (p : Path) :
  fs' !! parent p = fs !! parent p -> fs' !! p = fs !! p ->
  can_write fs' p = can_write fs p.
Proof. unfold can_write. by intros -> ->. Qed.

(** ** Event logs *)

Lemma count_app (p : Event -> bool) (e1 e2 : list Event) :
  count p (e1 ++ e2) = (count p e1 + count p e2)%nat.
Proof. induction e1 as [|e e1 IH]; cbn; [reflexivity | rewrite IH; lia]. Qed.

(** ** What [save_frame] does, case by case *)

Lemma bind_eq {A B} (m : M A) (k : A -> M B) (w : World) :
  (x <- m ;; k x) w =
  match m w with
  | (Ok a, w1, e1) => after_events e1 (k a w1)
  | (Raised x, w1, e1) => (Raised x, w1, e1)
  end.
Proof.
  unfold bind, after_events. destruct (m w) as [[[a|x] w1] e1]; [|reflexivity].
  destruct (k a w1) as [[r w2] e2]. reflexivity.
Qed.

Lemma write_frame_eq (out_path : Path) (frame : Frame) (w : World) :
  write_frame out_path frame w =
  match mkdir_parents (w_fs w) (parent out_path) with
  | inl e => (Raised (OSErr e), w, [EvMkdir (parent out_path)])
  | inr fs1 =>
      (Ok (imwrite fs1 out_path frame).1,
       MkWorld (w_pos w) (w_nreads w) (imwrite fs1 out_path frame).2,
       [EvMkdir (parent out_path); EvImwrite out_path frame])
  end.
Proof.
  unfold write_frame, bind, path_mkdir, cv2_imwrite.
  destruct (mkdir_parents (w_fs w) (parent out_path)) as [e|fs1]; [reflexivity|].
  cbn. destruct (imwrite fs1 out_path frame) as [ok fs2]. reflexivity.
Qed.

Lemma save_frame_no_frames (cap : Video) (frame_idx : Z) (out_path : Path) (w : World) :
  v_frame_count cap <= 0 ->
  save_frame cap frame_idx out_path w = (Ok false, w, []).
Proof.
  intros H. unfold save_frame.
  destruct (Z.leb_spec (v_frame_count cap) 0); [reflexivity | lia].
Qed.

Lemma save_frame_eq (cap : Video) (frame_idx : Z) (out_path : Path) (w : World) :
  0 < v_frame_count cap ->
  save_frame cap frame_idx out_path w =
  let pos := clamp_index (v_frame_count cap) frame_idx in
  match usable (v_decode cap (w_nreads w) pos) with
  | Some frame =>
      after_events [EvSeek pos; EvRead] (write_frame out_path frame (sought w pos 1))
  | None =>
      match usable (v_decode cap (S (w_nreads w)) pos) with
      | Some frame =>
          after_events [EvSeek pos; EvRead; EvRead]
            (write_frame out_path frame (sought w pos 2))
      | None => (Ok false, sought w pos 2, [EvSeek pos; EvRead; EvRead])
      end
  end.
Proof.
  intros H. unfold save_frame.
  destruct (Z.leb_spec (v_frame_count cap) 0); [lia|].
  fold (clamp_index (v_frame_count cap) frame_idx).
  set (pos := clamp_index (v_frame_count cap) frame_idx).
  unfold bind at 1. cbn [cap_set_pos].
  unfold bind at 1. cbn [cap_read w_nreads w_pos w_fs].
  destruct (usable (v_decode cap (w_nreads w) pos)) as [frame|].
  - unfold after_events, sought. cbn.
    destruct (write_frame out_path frame _) as [[r w2] e2]. reflexivity.
  - unfold bind at 1. cbn [cap_read w_nreads w_pos w_fs].
    destruct (usable (v_decode cap (S (w_nreads w)) pos)) as [frame|].
    + unfold after_events, sought. cbn.
      destruct (write_frame out_path frame _) as [[r w2] e2]. reflexivity.
    + reflexivity.
Qed.

Lemma clamp_index_range (total frame_idx : Z) :
  0 < total -> 0 <= clamp_index total frame_idx <= total - 1.
Proof. unfold clamp_index. lia. Qed.

Lemma clamp_index_mono (total a b : Z) :
  a <= b -> clamp_index total a <= clamp_index total b.
Proof. unfold clamp_index. lia. Qed.

Lemma write_frame_events (out_path : Path) (frame : Frame) (w : World) :
  count is_seek (events_of (write_frame out_path frame w)) = 0%nat /\
  count is_read (events_of (write_frame out_path frame w)) = 0%nat /\
  w_nreads (world_of (write_frame out_path frame w)) = w_nreads w.
Proof.
  rewrite write_frame_eq.
  destruct (mkdir_parents (w_fs w) (parent out_path)); cbn; auto.
Qed.

(** In a directory that is there, the outcome is the one of [imwrite]. *)
Lemma write_frame_in_dir (out_path : Path) (frame : Frame) (w : World) :
  is_dir (w_fs w) (parent out_path) = true ->
  write_frame out_path frame w
  = (Ok (can_write (w_fs w) out_path),
     MkWorld (w_pos w) (w_nreads w) (imwrite (w_fs w) out_path frame).2,
     [EvMkdir (parent out_path); EvImwrite out_path frame]).
Proof.
  intros Hparent. rewrite write_frame_eq.
  rewrite (mkdir_parents_existing _ _ Hparent). by rewrite imwrite_answer.
Qed.

(** The test of the source, [not ret or frame is None], on the answers
    of the capture. *)
Lemma usable_some (r : ReadResult) (frame : Frame) :
  usable r = Some frame <-> r = (true, Some frame).
Proof.
  unfold usable. destruct r as [[|] [f|]]; cbn; split; intros H;
    try discriminate; by injection H as ->.
Qed.

Lemma usable_none (r : ReadResult) : usable r = None <-> read_failed r.
Proof.
  unfold usable, read_failed. destruct r as [[|] [f|]]; cbn; split; auto;
    intros [H|H]; discriminate.
Qed.

Lemma usable_cases (r : ReadResult) :
  (exists frame, r = (true, Some frame)) \/ read_failed r.
Proof.
  unfold read_failed. destruct r as [[|] [f|]]; cbn; eauto.
Qed.

Lemma frame_read_answers (cap : Video) (frame_idx : Z) (w : World) (frame : Frame) :
  frame_read cap frame_idx w = Some frame <-> reads_frame cap frame_idx w frame.
Proof.
  unfold frame_read, reads_frame, first_read, second_read, first_answer, second_answer.
  destruct (Z.leb_spec (v_frame_count cap) 0) as [Hle|Hlt].
  { split; [discriminate | intros [H _]; lia]. }
  set (r1 := v_decode cap (w_nreads w) _). set (r2 := v_decode cap (S (w_nreads w)) _).
  destruct (usable r1) as [f1|] eqn:H1.
  - apply usable_some in H1. split.
    + intros [= <-]. auto.
    + intros (_ & [H|[H _]]).
      * rewrite H1 in H. by injection H as ->.
      * apply usable_none in H. apply usable_some in H1. congruence.
  - apply usable_none in H1. rewrite usable_some. split.
    + auto.
    + intros (_ & [H|[_ H]]); [|exact H].
      apply usable_some in H. apply usable_none in H1. congruence.
Qed.

Lemma save_frame_by_read (cap : Video) (frame_idx : Z) (out_path : Path) (w : World) :
  Forall (save_event out_path) (events_of (save_frame cap frame_idx out_path w)) /\
  match frame_read cap frame_idx w with
  | None =>
      result_of (save_frame cap frame_idx out_path w) = Ok false /\
      w_fs (world_of (save_frame cap frame_idx out_path w)) = w_fs w /\
      count is_fs_event (events_of (save_frame cap frame_idx out_path w)) = 0%nat
  | Some frame =>
      match mkdir_parents (w_fs w) (parent out_path) with
      | inr fs1 =>
          result_of (save_frame cap frame_idx out_path w)
          = Ok (imwrite fs1 out_path frame).1 /\
          w_fs (world_of (save_frame cap frame_idx out_path w))
          = (imwrite fs1 out_path frame).2 /\
          exists reads,
            events_of (save_frame cap frame_idx out_path w)
            = reads ++ [EvMkdir (parent out_path); EvImwrite out_path frame] /\
            count is_fs_event reads = 0%nat
      | inl e =>
          result_of (save_frame cap frame_idx out_path w) = Raised (OSErr e) /\
          w_fs (world_of (save_frame cap frame_idx out_path w)) = w_fs w /\
          exists reads,
            events_of (save_frame cap frame_idx out_path w)
            = reads ++ [EvMkdir (parent out_path)] /\
            count is_fs_event reads = 0%nat
      end
  end.
Proof.
  unfold frame_read.
  destruct (Z.leb_spec (v_frame_count cap) 0) as [Hle|Hlt].
  - rewrite (save_frame_no_frames _ _ _ _ Hle). cbn. auto.
  - rewrite (save_frame_eq _ _ _ _ Hlt). cbv zeta.
    unfold first_read, second_read.
    set (pos := clamp_index (v_frame_count cap) frame_idx).
    destruct (usable (v_decode cap (w_nreads w) pos)) as [f1|];
      [|destruct (usable (v_decode cap (S (w_nreads w)) pos)) as [f2|]].
    + rewrite write_frame_eq. cbn [sought w_fs w_pos w_nreads].
      destruct (mkdir_parents (w_fs w) (parent out_path)) as [e|fs1]; cbn.
      * split; [repeat constructor|].
        split; [reflexivity|]. split; [reflexivity|].
        exists [EvSeek pos; EvRead]. auto.
      * split; [repeat constructor|].
        split; [reflexivity|]. split; [reflexivity|].
        exists [EvSeek pos; EvRead]. auto.
    + rewrite write_frame_eq. cbn [sought w_fs w_pos w_nreads].
      destruct (mkdir_parents (w_fs w) (parent out_path)) as [e|fs1]; cbn.
      * split; [repeat constructor|].
        split; [reflexivity|]. split; [reflexivity|].
        exists [EvSeek pos; EvRead; EvRead]. auto.
      * split; [repeat constructor|].
        split; [reflexivity|]. split; [reflexivity|].
        exists [EvSeek pos; EvRead; EvRead]. auto.
    + cbn. split; [repeat constructor|]. auto.
Qed.

Lemma os_mkdir_wf (fs fs' : FS) (p : Path) :
  fs_wf fs -> os_mkdir fs p = inr fs' -> fs_wf fs'.
Proof.
  intros Hwf Hmk. apply os_mkdir_inr in Hmk as (Hnone & Hparent & ->).
  assert (Hsub : fs ⊆ <[p := Dir true]> fs) by (by apply insert_subseteq).
  intros q Hq. destruct (decide (q = p)) as [->|Hne].
  - apply (is_dir_mono fs); [exact Hsub|]. unfold is_dir. by rewrite Hparent.
  - rewrite lookup_insert_ne in Hq by congruence.
    apply (is_dir_mono fs); [exact Hsub | by apply Hwf].
Qed.

Lemma mkdir_exist_ok_wf (fs fs' : FS) (p : Path) :
  fs_wf fs -> mkdir_exist_ok fs p = inr fs' -> fs_wf fs'.
Proof.
  intros Hwf H. apply mkdir_exist_ok_cases in H as [H|[-> Hd]];
    [by apply (os_mkdir_wf fs fs' p) | exact Hwf].
Qed.

Lemma mkdir_parents_rev_wf (rp : list string) :
  forall fs fs' : FS, fs_wf fs -> mkdir_parents_rev fs rp = inr fs' -> fs_wf fs'.
Proof.
  induction rp as [|c rparent IH]; intros fs fs' Hwf H;
    apply mkdir_parents_rev_cases in H
      as [H|[[-> Hd]|(c' & rparent' & fs1 & Heq & Hrec & Hself)]];
    try (by apply (os_mkdir_wf fs fs' _ Hwf H)); try exact Hwf;
    [discriminate|].
  injection Heq as <- <-.
  exact (mkdir_exist_ok_wf fs1 fs' _ (IH _ _ Hwf Hrec) Hself).
Qed.

Lemma mkdir_parents_wf (fs fs' : FS) (p : Path) :
  fs_wf fs -> mkdir_parents fs p = inr fs' -> fs_wf fs'.
Proof. unfold mkdir_parents. apply mkdir_parents_rev_wf. Qed.

(** In a hierarchical file system every ancestor of a directory is a
    directory. *)
Lemma wf_ancestors (fs : FS) (p : Path) :
  fs_wf fs -> is_dir fs p = true ->
  forall q k : Path, p = q ++ k -> is_dir fs q = true.
Proof.
  intros Hwf. induction p as [|c p' IH] using rev_ind; intros Hd q k Heq.
  - symmetry in Heq. apply app_eq_nil in Heq as [-> _]. exact Hd.
  - destruct k as [|c' k'] using rev_ind.
    + rewrite app_nil_r in Heq. by subst q.
    + rewrite app_assoc in Heq. apply app_inj_tail in Heq as [Heq _].
      assert (Hp' : is_dir fs p' = true).
      { specialize (Hwf (p' ++ [c])). unfold parent in Hwf.
        rewrite removelast_last in Hwf. apply Hwf.
        unfold is_dir in Hd. destruct (fs !! (p' ++ [c])); [eauto | discriminate]. }
      exact (IH Hp' q k' Heq).
Qed.

(** ** The loop over the scenes *)

Section Loop.

(** The capture and the output directory are the same all along the
    loop. *)
Variables (cap : Video) (d : Path).

Lemma loop_event_weaken (lo hi lo' hi' : nat) (e : Event) :
  (lo' <= lo)%nat -> (hi <= hi')%nat -> loop_event d lo hi e -> loop_event d lo' hi' e.
Proof.
  intros Hlo Hhi. destruct e as [| | |p|p f| |m]; cbn; auto.
  - intros (j & Hj & Hp). exists j. split; [lia | exact Hp].
  - destruct m; auto. lia.
Qed.

Lemma scene_keys_app (e1 e2 : list Event) :
  scene_keys (e1 ++ e2) = scene_keys e1 ++ scene_keys e2.
Proof.
  induction e1 as [|e e1 IH]; [reflexivity|].
  destruct e as [| | | | | |m]; cbn; auto. destruct m; cbn; auto. by rewrite IH.
Qed.

Lemma scene_flags_app (e1 e2 : list Event) :
  scene_flags (e1 ++ e2) = scene_flags e1 ++ scene_flags e2.
Proof.
  induction e1 as [|e e1 IH]; [reflexivity|].
  destruct e as [| | | | | |m]; cbn; auto. destruct m; cbn; auto. by rewrite IH.
Qed.

Lemma save_events_no_lines (out_path : Path) (evs : list Event) :
  Forall (save_event out_path) evs -> scene_keys evs = [] /\ scene_flags evs = [].
Proof.
  induction 1 as [|e evs He _ IH]; [auto|].
  destruct e; cbn in *; try contradiction; exact IH.
Qed.

Lemma save_event_in_loop (i : nat) (name : string) (e : Event) :
  path_join d name = (scene_paths d i).1.1 \/
  path_join d name = (scene_paths d i).1.2 \/
  path_join d name = (scene_paths d i).2 ->
  save_event (path_join d name) e -> loop_event d i (S i) e.
Proof.
  intros Hname. destruct e; cbn; try tauto.
  - rewrite parent_join. auto.
  - intros ->. exists i. split; [lia | exact Hname].
Qed.

Lemma loop_events_count (lo hi : nat) (evs : list Event) :
  Forall (loop_event d lo hi) evs ->
  count is_release evs = 0%nat /\ count is_open evs = 0%nat.
Proof.
  induction 1 as [|e evs He _ IH]; [auto|].
  destruct e; cbn in *; try contradiction; exact IH.
Qed.

Lemma frame_read_none (frame_idx : Z) (w : World) :
  all_reads_fail cap -> frame_read cap frame_idx w = None.
Proof.
  intros Hfail. unfold frame_read, first_read, second_read.
  destruct (v_frame_count cap <=? 0); [reflexivity|].
  rewrite !Hfail. reflexivity.
Qed.

(** One call of [save_frame] inside the loop. *)
Lemma save_frame_in_loop
    (frame_idx : Z) (name : string) (w : World)
    (r : Result bool) (w' : World) (evs : list Event) :
  save_frame cap frame_idx (path_join d name) w = (r, w', evs) ->
  Forall (save_event (path_join d name)) evs /\
  (forall x, r = Raised x ->
     exists e, x = OSErr e /\ mkdir_parents (w_fs w) d = inl e) /\
  (dir_ready (w_fs w) d -> (exists b, r = Ok b) /\ dir_ready (w_fs w') d) /\
  (all_reads_fail cap ->
   r = Ok false /\ w_fs w' = w_fs w /\ count is_fs_event evs = 0%nat).
Proof.
  intros Heq.
  destruct (save_frame_by_read cap frame_idx (path_join d name) w) as [Hev Hcase].
  rewrite Heq in Hev, Hcase. unfold result_of, world_of, events_of in *.
  cbn [fst snd] in *. rewrite parent_join in Hcase.
  split; [exact Hev|].
  destruct (frame_read cap frame_idx w) as [frame|] eqn:Hread.
  - destruct (mkdir_parents (w_fs w) d) as [e|fs1] eqn:Hmk.
    + destruct Hcase as (-> & Hfs & _).
      split; [intros x [= <-]; eauto|].
      split; [intros [fs1 Hfs1]; congruence|].
      intros Hfail. by rewrite (frame_read_none _ _ Hfail) in Hread.
    + destruct Hcase as (-> & Hfs & _).
      split; [discriminate|].
      split.
      * intros _. split; [eauto|]. exists w'.(w_fs).
        apply mkdir_parents_existing. rewrite Hfs.
        apply imwrite_keeps_dir. by apply mkdir_parents_inr in Hmk as [Hd _].
      * intros Hfail. by rewrite (frame_read_none _ _ Hfail) in Hread.
  - destruct Hcase as (-> & Hfs & Hcount).
    split; [discriminate|].
    split; [intros Hready; split; [eauto | by rewrite Hfs]|].
    auto.
Qed.

Lemma Forall_save_in_loop (i : nat) (name : string) (evs : list Event) :
  path_join d name = (scene_paths d i).1.1 \/
  path_join d name = (scene_paths d i).1.2 \/
  path_join d name = (scene_paths d i).2 ->
  Forall (save_event (path_join d name)) evs -> Forall (loop_event d i (S i)) evs.
Proof.
  intros Hname Hall. eapply Forall_impl; [exact Hall|].
  intros e. by apply save_event_in_loop.
Qed.

(** One turn of the loop. *)
Lemma scene_body_spec
    (i : nat) (scene : Scene) (w : World)
    (r : Result unit) (w' : World) (evs : list Event) :
  scene_body cap d i scene w = (r, w', evs) ->
  Forall (loop_event d i (S i)) evs /\
  match r with
  | Ok _ => scene_keys evs = [(i, frame_range scene)]
  | Raised x => (exists e, x = OSErr e) /\ scene_keys evs = []
  end /\
  (dir_ready (w_fs w) d -> r = Ok tt /\ dir_ready (w_fs w') d) /\
  (all_reads_fail cap ->
   r = Ok tt /\ w_fs w' = w_fs w /\ count is_fs_event evs = 0%nat /\
   scene_flags evs = [(false, false, false)]).
Proof.
  unfold scene_body.
  destruct (frame_range scene) as [[start_f mid_f] end_f].
  unfold scene_paths. cbv beta iota zeta.
  set (n1 := ("scene_" +:+ format_03d i) +:+ "_start.jpg").
  set (n2 := ("scene_" +:+ format_03d i) +:+ "_mid.jpg").
  set (n3 := ("scene_" +:+ format_03d i) +:+ "_end.jpg").
  assert (Hn1 : path_join d n1 = (scene_paths d i).1.1 \/
                path_join d n1 = (scene_paths d i).1.2 \/
                path_join d n1 = (scene_paths d i).2) by (left; reflexivity).
  assert (Hn2 : path_join d n2 = (scene_paths d i).1.1 \/
                path_join d n2 = (scene_paths d i).1.2 \/
                path_join d n2 = (scene_paths d i).2) by (right; left; reflexivity).
  assert (Hn3 : path_join d n3 = (scene_paths d i).1.1 \/
                path_join d n3 = (scene_paths d i).1.2 \/
                path_join d n3 = (scene_paths d i).2) by (right; right; reflexivity).
  rewrite bind_eq.
  destruct (save_frame cap start_f (path_join d n1) w) as [[r1 w1] e1] eqn:H1.
  apply save_frame_in_loop in H1 as (Hev1 & Hraise1 & Hready1 & Hfail1).
  pose proof (Forall_save_in_loop i n1 e1 Hn1 Hev1) as Hloop1.
  apply save_events_no_lines in Hev1 as [Hk1 Hf1].
  destruct r1 as [ok1|x1].
  2:{ intros [= <- <- <-]. destruct (Hraise1 x1 eq_refl) as (e & -> & Hmk).
      split; [exact Hloop1|]. split; [split; [eauto | exact Hk1]|].
      split; [intros Hr; by destruct (Hready1 Hr) as [[b Hb] _]|].
      intros Hf. by destruct (Hfail1 Hf) as [Hb _]. }
  rewrite bind_eq.
  destruct (save_frame cap mid_f (path_join d n2) w1) as [[r2 w2] e2] eqn:H2.
  apply save_frame_in_loop in H2 as (Hev2 & Hraise2 & Hready2 & Hfail2).
  pose proof (Forall_save_in_loop i n2 e2 Hn2 Hev2) as Hloop2.
  apply save_events_no_lines in Hev2 as [Hk2 Hf2].
  destruct r2 as [ok2|x2].
  2:{ unfold after_events. cbn [fst snd].
      intros [= <- <- <-]. destruct (Hraise2 x2 eq_refl) as (e & -> & Hmk).
      split; [rewrite !Forall_app; repeat split; assumption|].
      split; [split; [eauto | by rewrite scene_keys_app, Hk1, Hk2]|].
      split.
      - intros Hr. destruct (Hready1 Hr) as [_ Hr1].
        by destruct (Hready2 Hr1) as [[b Hb] _].
      - intros Hf. by destruct (Hfail2 Hf) as [Hb _]. }
  rewrite bind_eq.
  destruct (save_frame cap end_f (path_join d n3) w2) as [[r3 w3] e3] eqn:H3.
  apply save_frame_in_loop in H3 as (Hev3 & Hraise3 & Hready3 & Hfail3).
  pose proof (Forall_save_in_loop i n3 e3 Hn3 Hev3) as Hloop3.
  apply save_events_no_lines in Hev3 as [Hk3 Hf3].
  destruct r3 as [ok3|x3].
  2:{ unfold after_events. cbn [fst snd].
      intros [= <- <- <-]. destruct (Hraise3 x3 eq_refl) as (e & -> & Hmk).
      split; [rewrite !Forall_app; repeat split; assumption|].
      split; [split; [eauto | by rewrite !scene_keys_app, Hk1, Hk2, Hk3]|].
      split.
      - intros Hr. destruct (Hready1 Hr) as [_ Hr1]. destruct (Hready2 Hr1) as [_ Hr2].
        by destruct (Hready3 Hr2) as [[b Hb] _].
      - intros Hf. by destruct (Hfail3 Hf) as [Hb _]. }
  unfold after_events, print, emit. cbn [fst snd].
  intros [= <- <- <-].
  split.
  { rewrite !Forall_app. repeat split; try assumption.
    repeat constructor; lia. }
  split; [by rewrite !scene_keys_app, Hk1, Hk2, Hk3|].
  split.
  - intros Hr. destruct (Hready1 Hr) as [_ Hr1]. destruct (Hready2 Hr1) as [_ Hr2].
    destruct (Hready3 Hr2) as [_ Hr3]. auto.
  - intros Hf.
    destruct (Hfail1 Hf) as ([= ->] & Hfs1 & Hc1).
    destruct (Hfail2 Hf) as ([= ->] & Hfs2 & Hc2).
    destruct (Hfail3 Hf) as ([= ->] & Hfs3 & Hc3).
    split; [reflexivity|]. split; [congruence|].
    split; [rewrite !count_app, Hc1, Hc2, Hc3; reflexivity|].
    by rewrite !scene_flags_app, Hf1, Hf2, Hf3.
Qed.

(** The whole loop, by induction on the scenes left. *)
Lemma scene_loop_spec (scenes : list Scene) :
  forall (i : nat) (w : World) (r : Result unit) (w' : World) (evs : list Event),
    scene_loop cap d i scenes w = (r, w', evs) ->
    Forall (loop_event d i (i + length scenes)) evs /\
    match r with
    | Ok _ => scene_keys evs = expected_keys i scenes
    | Raised x =>
        (exists e, x = OSErr e) /\
        exists k, (k < length scenes)%nat /\
          scene_keys evs = expected_keys i (take k scenes)
    end /\
    (dir_ready (w_fs w) d -> r = Ok tt /\ dir_ready (w_fs w') d) /\
    (all_reads_fail cap ->
     r = Ok tt /\ w_fs w' = w_fs w /\ count is_fs_event evs = 0%nat /\
     scene_flags evs = replicate (length scenes) (false, false, false)).
Proof.
  induction scenes as [|scene rest IH]; intros i w r w' evs; cbn [scene_loop].
  - intros [= <- <- <-].
    split; [constructor|]. split; [reflexivity|]. split; [auto|].
    intros _. repeat split.
  - rewrite bind_eq.
    destruct (scene_body cap d i scene w) as [[r1 w1] e1] eqn:Hbody.
    apply scene_body_spec in Hbody as (Hev1 & Hkeys1 & Hready1 & Hfail1).
    assert (Hloop1 : Forall (loop_event d i (i + length (scene :: rest))) e1).
    { eapply Forall_impl; [exact Hev1|]. intros e.
      apply loop_event_weaken; cbn; lia. }
    destruct r1 as [[]|x1].
    2:{ intros [= <- <- <-]. destruct Hkeys1 as [Hx Hk].
        split; [exact Hloop1|].
        split; [split; [exact Hx|]; exists 0%nat; split; [cbn; lia | exact Hk]|].
        split; [intros Hr; by destruct (Hready1 Hr)|].
        intros Hf. by destruct (Hfail1 Hf). }
    destruct (scene_loop cap d (S i) rest w1) as [[r2 w2] e2] eqn:Hrest.
    apply IH in Hrest as (Hev2 & Hkeys2 & Hready2 & Hfail2).
    unfold after_events. cbn [fst snd]. intros [= <- <- <-].
    split.
    { rewrite Forall_app. split; [exact Hloop1|].
      eapply Forall_impl; [exact Hev2|]. intros e.
      apply loop_event_weaken; cbn; lia. }
    split.
    { rewrite scene_keys_app, Hkeys1. destruct r2 as [[]|x2].
      - cbn. by rewrite Hkeys2.
      - destruct Hkeys2 as (Hx & k & Hk & Hpre). split; [exact Hx|].
        exists (S k). split; [cbn; lia|]. cbn. by rewrite Hpre. }
    split.
    + intros Hr. destruct (Hready1 Hr) as [_ Hr1]. exact (Hready2 Hr1).
    + intros Hf. destruct (Hfail1 Hf) as (_ & Hfs1 & Hc1 & Hfl1).
      destruct (Hfail2 Hf) as (-> & Hfs2 & Hc2 & Hfl2).
      split; [reflexivity|]. split; [congruence|].
      split; [rewrite count_app; lia|].
      rewrite scene_flags_app, Hfl1, Hfl2. reflexivity.
Qed.

End Loop.

(** ** The whole run *)

Lemma extract_keyframes_no_scenes (video : Video) (out_dir : Path) (w : World) :
  v_scenes video = [] ->
  extract_keyframes video out_dir w = (Ok tt, w, [EvPrint MsgNoScenes]).
Proof. unfold extract_keyframes. intros ->. reflexivity. Qed.

Lemma extract_keyframes_not_opened (video : Video) (out_dir : Path) (w : World) :
  v_scenes video <> [] ->
  v_opens video = false ->
  extract_keyframes video out_dir w = (Raised RuntimeError, w, [EvOpen]).
Proof.
  unfold extract_keyframes, open_capture. intros Hne Hopen.
  destruct (v_scenes video); [congruence|]. rewrite Hopen. reflexivity.
Qed.

Lemma extract_keyframes_opened (video : Video) (out_dir : Path) (w : World) :
  v_scenes video <> [] ->
  v_opens video = true ->
  extract_keyframes video out_dir w =
  match scene_loop video out_dir 1 (v_scenes video) w with
  | (Ok _, w1, e1) =>
      (Ok tt, w1,
       [EvOpen; EvPrint (MsgTotals (length (v_scenes video)) (v_frame_count video))]
       ++ e1 ++ [EvRelease; EvPrint (MsgDone out_dir)])
  | (Raised x, w1, e1) =>
      (Raised x, w1,
       [EvOpen; EvPrint (MsgTotals (length (v_scenes video)) (v_frame_count video))]
       ++ e1)
  end.
Proof.
  unfold extract_keyframes, open_capture. intros Hne Hopen.
  destruct (v_scenes video) as [|scene rest] eqn:Hscenes; [congruence|].
  rewrite Hopen. clear Hne.
  remember (scene_loop video out_dir 1 (scene :: rest)) as loop eqn:Hloop.
  clear Hloop.
  unfold bind, emit, print, ret, cap_release. cbn.
  destruct (loop w) as [[[[]|x] w1] e1]; reflexivity.
Qed.

Lemma scene_flags_length (evs : list Event) :
  length (scene_flags evs) = length (scene_keys evs).
Proof.
  induction evs as [|e evs IH]; [reflexivity|].
  destruct e as [| | | | | |m]; cbn; auto. destruct m; cbn; auto.
Qed.

Lemma expected_keys_length (scenes : list Scene) :
  forall i, length (expected_keys i scenes) = length scenes.
Proof. induction scenes as [|s rest IH]; intros i; cbn; auto. Qed.

(** ** Zero-padded numerals *)

Lemma append_cons (a : ascii) (s t : string) :
  String a s +:+ t = String a (s +:+ t).
Proof. reflexivity. Qed.

Lemma zeros_append_length (k : nat) (s : string) :
  String.length (zeros k +:+ s) = (k + String.length s)%nat.
Proof.
  induction k as [|k IH]; [reflexivity|].
  cbn [zeros]. rewrite append_cons. cbn [String.length]. rewrite IH. reflexivity.
Qed.

Lemma decimal_not_empty (i : nat) : decimal i <> EmptyString.
Proof. unfold decimal. destruct (Nat.to_uint i); discriminate. Qed.

Lemma ordinal_of_decimal (i : nat) : ordinal_of (decimal i) = Some i.
Proof.
  unfold ordinal_of, decimal.
  pose proof (DecimalNat.Unsigned.of_to i) as Hi.
  destruct (Nat.to_uint i) eqn:Hu;
    [cbn in Hi; subst i; reflexivity | ..];
    (rewrite NilZero.usu by discriminate); cbn [option_map]; f_equal; exact Hi.
Qed.

Lemma ordinal_of_zero (s : string) :
  s <> EmptyString -> ordinal_of (String "0"%char s) = ordinal_of s.
Proof.
  intros Hs. unfold ordinal_of, NilZero.uint_of_string.
  destruct s as [|a s]; [congruence|].
  cbn [NilEmpty.uint_of_string].
  destruct (uint_of_char a (NilEmpty.uint_of_string s)) as [d|]; reflexivity.
Qed.

Lemma ordinal_of_zeros (k : nat) (s : string) :
  s <> EmptyString -> ordinal_of (zeros k +:+ s) = ordinal_of s.
Proof.
  intros Hs. induction k as [|k IH]; [reflexivity|].
  cbn [zeros]. rewrite append_cons, ordinal_of_zero; [exact IH|].
  destruct k; [exact Hs | discriminate].
Qed.

Lemma ordinal_of_format (i : nat) : ordinal_of (format_03d i) = Some i.
Proof.
  unfold format_03d. rewrite ordinal_of_zeros by apply decimal_not_empty.
  apply ordinal_of_decimal.
Qed.

Lemma format_03d_length (i : nat) :
  String.length (format_03d i) = Nat.max 3 (String.length (decimal i)).
Proof. unfold format_03d. rewrite zeros_append_length. lia. Qed.

Lemma decimal_short (i : nat) :
  (i < 1000)%nat -> (String.length (decimal i) <= 3)%nat.
Proof.
  intros Hi.
  assert (Hall : forallb (fun j => Nat.leb (String.length (decimal j)) 3) (seq 0 1000) = true)
    by (vm_compute; reflexivity).
  rewrite forallb_forall in Hall.
  apply Nat.leb_le, Hall, in_seq. lia.
Qed.

Lemma extract_keyframes_writes (video : Video) (out_dir : Path) (w : World)
    (p : Path) (f : Frame) :
  In (EvImwrite p f) (events_of (extract_keyframes video out_dir w)) ->
  exists j, (1 <= j <= length (v_scenes video))%nat /\
    (p = (scene_paths out_dir j).1.1 \/
     p = (scene_paths out_dir j).1.2 \/
     p = (scene_paths out_dir j).2).
Proof.
  destruct (v_scenes video) as [|scene rest] eqn:Hscenes.
  { rewrite (extract_keyframes_no_scenes _ _ _ Hscenes). cbn. intros [|[]]; discriminate. }
  assert (Hne : v_scenes video <> []) by congruence.
  destruct (v_opens video) eqn:Hopen.
  2:{ rewrite (extract_keyframes_not_opened _ _ _ Hne Hopen). cbn.
      intros [|[]]; discriminate. }
  rewrite (extract_keyframes_opened _ _ _ Hne Hopen), Hscenes.
  destruct (scene_loop video out_dir 1 (scene :: rest) w) as [[r1 w1] e1] eqn:Hloop.
  apply scene_loop_spec in Hloop as (Hev & _).
  rewrite Forall_forall in Hev.
  assert (Hin : In (EvImwrite p f) e1 ->
                exists j, (1 <= j <= length (scene :: rest))%nat /\
                  (p = (scene_paths out_dir j).1.1 \/
                   p = (scene_paths out_dir j).1.2 \/
                   p = (scene_paths out_dir j).2)).
  { intros Hin. apply list_elem_of_In, Hev in Hin. cbn [loop_event] in Hin.
    destruct Hin as (j & Hj & Hp). exists j. split; [lia | exact Hp]. }
  destruct r1 as [[]|x]; unfold events_of; cbn [fst snd].
  - intros H. apply in_app_or in H as [H|H].
    + cbn in H. destruct H as [|[|[]]]; discriminate.
    + apply in_app_or in H as [H|H]; [by apply Hin|].
      cbn in H. destruct H as [|[|[]]]; discriminate.
  - intros H. apply in_app_or in H as [H|H]; [|by apply Hin].
    cbn in H. destruct H as [|[|[]]]; discriminate.
Qed.

(** ** The frame a call obtains *)

Lemma frame_read_failed (cap : Video) (frame_idx : Z) (w : World) :
  v_frame_count cap <= 0 \/
  (first_read cap frame_idx w = None /\ second_read cap frame_idx w = None) ->
  frame_read cap frame_idx w = None.
Proof.
  unfold frame_read. intros [Hle|[H1 H2]].
  - destruct (Z.leb_spec (v_frame_count cap) 0); [reflexivity | lia].
  - rewrite H1, H2. by destruct (v_frame_count cap <=? 0).
Qed.

Lemma frame_read_some (cap : Video) (frame_idx : Z) (w : World) (frame : Frame) :
  frame_read cap frame_idx w = Some frame ->
  0 < v_frame_count cap /\
  (first_read cap frame_idx w = Some frame \/
   (first_read cap frame_idx w = None /\ second_read cap frame_idx w = Some frame)).
Proof.
  unfold frame_read.
  destruct (Z.leb_spec (v_frame_count cap) 0) as [Hle|Hlt]; [discriminate|].
  destruct (first_read cap frame_idx w); intros Hread; auto.
Qed.

(** ** The loop body, call by call *)

Section Calls.

Variables (cap : Video) (d : Path).

(** The three calls of one turn of the loop, and what is logged. *)
Lemma scene_body_eq (i : nat) (scene : Scene) (w : World) :
  scene_body cap d i scene w =
  match save_frame cap (role_index (frame_range scene) RStart) (role_path d i RStart) w with
  | (Raised x, w1, e1) => (Raised x, w1, e1)
  | (Ok ok1, w1, e1) =>
      match save_frame cap (role_index (frame_range scene) RMid) (role_path d i RMid) w1 with
      | (Raised x, w2, e2) => (Raised x, w2, e1 ++ e2)
      | (Ok ok2, w2, e2) =>
          match save_frame cap (role_index (frame_range scene) REnd) (role_path d i REnd) w2 with
          | (Raised x, w3, e3) => (Raised x, w3, e1 ++ e2 ++ e3)
          | (Ok ok3, w3, e3) =>
              (Ok tt, w3,
               e1 ++ e2 ++ e3 ++ [scene_line i (frame_range scene) (ok1, ok2, ok3)])
          end
      end
  end.
Proof.
  unfold scene_body, role_path, role_index, scene_line.
  destruct (frame_range scene) as [[start_f mid_f] end_f].
  unfold scene_paths. cbv beta iota zeta. cbn [fst snd].
  rewrite bind_eq.
  destruct (save_frame cap start_f _ w) as [[[ok1|x1] w1] e1]; [|reflexivity].
  rewrite bind_eq.
  destruct (save_frame cap mid_f _ w1) as [[[ok2|x2] w2] e2]; [|reflexivity].
  rewrite bind_eq.
  destruct (save_frame cap end_f _ w2) as [[[ok3|x3] w3] e3]; reflexivity.
Qed.

Lemma scene_loop_cons (i : nat) (scene : Scene) (rest : list Scene) (w : World) :
  scene_loop cap d i (scene :: rest) w =
  match scene_body cap d i scene w with
  | (Ok _, w1, e1) => after_events e1 (scene_loop cap d (S i) rest w1)
  | (Raised x, w1, e1) => (Raised x, w1, e1)
  end.
Proof. cbn [scene_loop]. apply bind_eq. Qed.

(** *** A rule for invariants of the world and of the log

    [Inv] is kept by every call of [save_frame] on a path of a scene
    numbered from [lo] to [hi - 1]; [Log] holds of what each such call
    logs, of a printed line, of the empty log, and of the concatenation of
    two logs it holds of.  Then both hold after the loop. *)
Section Rule.

Variables (Inv : World -> Prop) (Log : list Event -> Prop) (lo hi : nat).

Hypothesis Log_nil : Log [].
Hypothesis Log_app : forall a b, Log a -> Log b -> Log (a ++ b).
Hypothesis Log_print : forall m, Log [EvPrint m].
Hypothesis save_keeps :
  forall (frame_idx : Z) (j : nat) (r : Role) (w : World),
    (lo <= j < hi)%nat -> Inv w ->
    Inv (world_of (save_frame cap frame_idx (role_path d j r) w)) /\
    Log (events_of (save_frame cap frame_idx (role_path d j r) w)).

Lemma scene_body_rule (i : nat) (scene : Scene) (w : World) :
  (lo <= i < hi)%nat -> Inv w ->
  Inv (world_of (scene_body cap d i scene w)) /\
  Log (events_of (scene_body cap d i scene w)).
Proof.
  intros Hi Hw. rewrite scene_body_eq. unfold scene_line, world_of, events_of.
  pose proof (save_keeps (role_index (frame_range scene) RStart) i RStart w Hi Hw) as H1.
  destruct (save_frame cap _ (role_path d i RStart) w) as [[[ok1|x1] w1] e1];
    destruct H1 as [Hw1 He1]; cbn [fst snd] in *; [|auto].
  pose proof (save_keeps (role_index (frame_range scene) RMid) i RMid w1 Hi Hw1) as H2.
  destruct (save_frame cap _ (role_path d i RMid) w1) as [[[ok2|x2] w2] e2];
    destruct H2 as [Hw2 He2]; cbn [fst snd] in *; [|split; [exact Hw2 | by apply Log_app]].
  pose proof (save_keeps (role_index (frame_range scene) REnd) i REnd w2 Hi Hw2) as H3.
  destruct (save_frame cap _ (role_path d i REnd) w2) as [[[ok3|x3] w3] e3];
    destruct H3 as [Hw3 He3]; cbn [fst snd] in *; (split; [exact Hw3|]);
    repeat apply Log_app; auto.
Qed.

Lemma scene_loop_rule (scenes : list Scene) :
  forall (i : nat) (w : World),
    (lo <= i)%nat -> (i + length scenes <= hi)%nat -> Inv w ->
    Inv (world_of (scene_loop cap d i scenes w)) /\
    Log (events_of (scene_loop cap d i scenes w)).
Proof.
  induction scenes as [|scene rest IH]; intros i w Hlo Hhi Hw.
  - cbn. auto.
  - rewrite scene_loop_cons. cbn [length] in Hhi.
    destruct (scene_body_rule i scene w ltac:(lia) Hw) as [Hw1 He1].
    destruct (scene_body cap d i scene w) as [[[[]|x] w1] e1]; [|auto].
    destruct (IH (S i) w1 ltac:(lia) ltac:(lia) Hw1) as [Hw2 He2].
    destruct (scene_loop cap d (S i) rest w1) as [[r2 w2] e2].
    split; [exact Hw2 | by apply Log_app].
Qed.

End Rule.

End Calls.

(** The rule, for a whole run. *)
Lemma extract_keyframes_rule
    (Inv : World -> Prop) (Log : list Event -> Prop) (video : Video) (d : Path) :
  Log [] ->
  (forall a b, Log a -> Log b -> Log (a ++ b)) ->
  (forall e, is_seek e = false -> is_read e = false -> is_fs_event e = false -> Log [e]) ->
  (forall (frame_idx : Z) (j : nat) (r : Role) (w : World),
     (1 <= j <= length (v_scenes video))%nat -> Inv w ->
     Inv (world_of (save_frame video frame_idx (role_path d j r) w)) /\
     Log (events_of (save_frame video frame_idx (role_path d j r) w))) ->
  forall w : World,
    Inv w ->
    Inv (world_of (extract_keyframes video d w)) /\
    Log (events_of (extract_keyframes video d w)).
Proof.
  intros Hnil Happ Hother Hsave w Hw.
  destruct (v_scenes video) as [|scene rest] eqn:Hscenes.
  { rewrite (extract_keyframes_no_scenes _ _ _ Hscenes). split; [exact Hw|]. by apply Hother. }
  assert (Hne : v_scenes video <> []) by congruence.
  destruct (v_opens video) eqn:Hopen.
  2:{ rewrite (extract_keyframes_not_opened _ _ _ Hne Hopen).
      split; [exact Hw|]. by apply Hother. }
  rewrite (extract_keyframes_opened _ _ _ Hne Hopen).
  assert (Hsave' :
    forall (frame_idx : Z) (j : nat) (r : Role) (w0 : World),
      (1 <= j < S (length (v_scenes video)))%nat -> Inv w0 ->
      Inv (world_of (save_frame video frame_idx (role_path d j r) w0)) /\
      Log (events_of (save_frame video frame_idx (role_path d j r) w0)))
    by (intros; apply Hsave; [rewrite Hscenes in *; cbn [length] in *; lia | assumption]).
  assert (Hprint : forall m, Log [EvPrint m]) by (intros; by apply Hother).
  destruct (scene_loop_rule video d Inv Log 1 (S (length (v_scenes video)))
              Hnil Happ Hprint Hsave' (v_scenes video) 1%nat w
              (Nat.le_refl 1) (Nat.le_refl _) Hw) as [Hw1 He1].
  destruct (scene_loop video d 1 (v_scenes video) w) as [[[[]|x] w1] e1];
    (split; [exact Hw1|]).
  - change (Log ([EvOpen] ++ [EvPrint (MsgTotals (length (v_scenes video))
                                          (v_frame_count video))]
                 ++ e1 ++ [EvRelease] ++ [EvPrint (MsgDone d)])).
    repeat apply Happ; auto; by apply Hother.
  - change (Log ([EvOpen] ++ [EvPrint (MsgTotals (length (v_scenes video))
                                          (v_frame_count video))] ++ e1)).
    repeat apply Happ; auto; by apply Hother.
Qed.

(** ** The log of a call, and the seeks of the loop *)

Lemma save_frame_log_cases (cap : Video) (frame_idx : Z) (out_path : Path) (w : World) :
  let pos := clamp_index (v_frame_count cap) frame_idx in
  (v_frame_count cap <= 0 /\ events_of (save_frame cap frame_idx out_path w) = []) \/
  (0 < v_frame_count cap /\
   exists reads tail,
     events_of (save_frame cap frame_idx out_path w) = EvSeek pos :: reads ++ tail /\
     (reads = [EvRead] \/ reads = [EvRead; EvRead]) /\
     (tail = [] \/ tail = [EvMkdir (parent out_path)] \/
      exists frame, tail = [EvMkdir (parent out_path); EvImwrite out_path frame])).
Proof.
  intros pos. destruct (Z.leb_spec (v_frame_count cap) 0) as [Hle|Hlt].
  { left. by rewrite (save_frame_no_frames _ _ _ _ Hle). }
  right. split; [exact Hlt|].
  rewrite (save_frame_eq _ _ _ _ Hlt). cbv zeta. fold pos.
  destruct (usable (v_decode cap (w_nreads w) pos)) as [f1|];
    [|destruct (usable (v_decode cap (S (w_nreads w)) pos)) as [f2|]].
  1,2: rewrite write_frame_eq; cbn [sought w_fs];
       destruct (mkdir_parents (w_fs w) (parent out_path)) as [e|fs1].
  all: unfold events_of, after_events; cbn [fst snd app].
  - exists [EvRead], [EvMkdir (parent out_path)]. split; [reflexivity | split; [auto | eauto 6]].
  - exists [EvRead], [EvMkdir (parent out_path); EvImwrite out_path f1].
    split; [reflexivity | split; [auto | eauto 6]].
  - exists [EvRead; EvRead], [EvMkdir (parent out_path)].
    split; [reflexivity | split; [auto | eauto 6]].
  - exists [EvRead; EvRead], [EvMkdir (parent out_path); EvImwrite out_path f2].
    split; [reflexivity | split; [auto | eauto 6]].
  - exists [EvRead; EvRead], []. split; [reflexivity | split; [auto | eauto 6]].
Qed.

Lemma save_frame_counts (cap : Video) (frame_idx : Z) (out_path : Path) (w : World) :
  Forall (seek_in_range (v_frame_count cap)) (events_of (save_frame cap frame_idx out_path w)) /\
  within_budget (events_of (save_frame cap frame_idx out_path w)) /\
  (count is_seek (events_of (save_frame cap frame_idx out_path w)) <= 1)%nat /\
  (0 < v_frame_count cap ->
   count is_seek (events_of (save_frame cap frame_idx out_path w)) = 1%nat).
Proof.
  destruct (save_frame_log_cases cap frame_idx out_path w)
    as [[Hle ->]|(Hlt & reads & tail & -> & Hreads & Htail)].
  { unfold within_budget. cbn. repeat split; try constructor; lia. }
  pose proof (clamp_index_range (v_frame_count cap) frame_idx Hlt) as Hpos.
  destruct Hreads as [-> | ->]; destruct Htail as [-> | [-> | [frame ->]]];
    unfold within_budget; cbn; repeat split; repeat constructor; lia.
Qed.

Lemma scene_body_seeks (cap : Video) (d : Path) (i : nat) (scene : Scene) (w : World) :
  (count is_seek (events_of (scene_body cap d i scene w)) <= 3)%nat /\
  (0 < v_frame_count cap ->
   (exists u, result_of (scene_body cap d i scene w) = Ok u) ->
   count is_seek (events_of (scene_body cap d i scene w)) = 3%nat).
Proof.
  rewrite scene_body_eq. unfold scene_line.
  set (i1 := role_index (frame_range scene) RStart).
  set (i2 := role_index (frame_range scene) RMid).
  set (i3 := role_index (frame_range scene) REnd).
  destruct (save_frame_counts cap i1 (role_path d i RStart) w) as (_ & _ & Hle1 & Heq1).
  destruct (save_frame cap i1 (role_path d i RStart) w) as [[[ok1|x1] w1] e1];
    unfold events_of, result_of in *; cbn [fst snd] in *;
    [|split; [lia | intros _ [u Hu]; discriminate]].
  destruct (save_frame_counts cap i2 (role_path d i RMid) w1) as (_ & _ & Hle2 & Heq2).
  destruct (save_frame cap i2 (role_path d i RMid) w1) as [[[ok2|x2] w2] e2];
    unfold events_of, result_of in *; cbn [fst snd] in *; rewrite ?count_app;
    [|split; [lia | intros _ [u Hu]; discriminate]].
  destruct (save_frame_counts cap i3 (role_path d i REnd) w2) as (_ & _ & Hle3 & Heq3).
  destruct (save_frame cap i3 (role_path d i REnd) w2) as [[[ok3|x3] w3] e3];
    unfold events_of, result_of in *; cbn [fst snd] in *; rewrite ?count_app;
    [|split; [lia | intros _ [u Hu]; discriminate]].
  cbn [count is_seek]. split; [lia|].
  intros Htotal _. rewrite (Heq1 Htotal), (Heq2 Htotal), (Heq3 Htotal). reflexivity.
Qed.

Lemma scene_loop_seeks (cap : Video) (d : Path) (scenes : list Scene) :
  forall (i : nat) (w : World),
    (count is_seek (events_of (scene_loop cap d i scenes w)) <= 3 * length scenes)%nat /\
    (0 < v_frame_count cap ->
     (exists u, result_of (scene_loop cap d i scenes w) = Ok u) ->
     count is_seek (events_of (scene_loop cap d i scenes w)) = (3 * length scenes)%nat).
Proof.
  induction scenes as [|scene rest IH]; intros i w.
  - cbn. auto.
  - rewrite scene_loop_cons. cbn [length].
    destruct (scene_body_seeks cap d i scene w) as [Hle1 Heq1].
    destruct (scene_body cap d i scene w) as [[[[]|x] w1] e1];
      unfold events_of, result_of in *; cbn [fst snd] in *;
      [|split; [lia | intros _ [u Hu]; discriminate]].
    destruct (IH (S i) w1) as [Hle2 Heq2].
    destruct (scene_loop cap d (S i) rest w1) as [[r2 w2] e2].
    unfold after_events, events_of, result_of in *; cbn [fst snd] in *.
    rewrite count_app. split; [lia|].
    intros Htotal Hok. rewrite (Heq1 Htotal) by eauto. rewrite (Heq2 Htotal Hok). lia.
Qed.

Lemma scene_loop_no_frames (cap : Video) (d : Path) (scenes : list Scene) :
  v_frame_count cap <= 0 ->
  forall (i : nat) (w : World),
    scene_loop cap d i scenes w = (Ok tt, w, no_frame_lines i scenes).
Proof.
  intros Hle. induction scenes as [|scene rest IH]; intros i w; [reflexivity|].
  rewrite scene_loop_cons, scene_body_eq.
  rewrite !(save_frame_no_frames _ _ _ _ Hle). rewrite IH. reflexivity.
Qed.

(** ** Which call writes which file *)

Lemma writes_of_app (e1 e2 : list Event) :
  forall (m : nat) (l : Z),
    writes_of m l (e1 ++ e2)
    = writes_of m l e1 ++ writes_of (count is_seek e1 + m) (last_seek l e1) e2.
Proof.
  induction e1 as [|e e1 IH]; intros m l; [reflexivity|].
  destruct e; cbn [app writes_of count is_seek last_seek]; rewrite IH;
    try reflexivity.
  by replace (count is_seek e1 + S m)%nat with (1 + count is_seek e1 + m)%nat by lia.
Qed.

Lemma save_frame_writes
    (cap : Video) (frame_idx : Z) (out_path : Path) (w : World) (m : nat) (l : Z) :
  0 < v_frame_count cap ->
  count is_seek (events_of (save_frame cap frame_idx out_path w)) = 1%nat /\
  (writes_of m l (events_of (save_frame cap frame_idx out_path w)) = [] \/
   writes_of m l (events_of (save_frame cap frame_idx out_path w))
   = [(S m, clamp_index (v_frame_count cap) frame_idx, out_path)]).
Proof.
  intros Htotal.
  destruct (save_frame_log_cases cap frame_idx out_path w)
    as [[Hle _]|(_ & reads & tail & -> & Hreads & Htail)]; [lia|].
  destruct Hreads as [-> | ->]; destruct Htail as [-> | [-> | [frame ->]]]; cbn; auto.
Qed.

Section Names.

Variables (cap : Video) (d : Path).

Hypothesis has_frames : 0 < v_frame_count cap.

(** The writes of one turn of the loop. *)
Lemma scene_body_writes (i : nat) (scene : Scene) (w : World) (m : nat) (l : Z) :
  ((exists u, result_of (scene_body cap d i scene w) = Ok u) ->
   count is_seek (events_of (scene_body cap d i scene w)) = 3%nat) /\
  forall x, In x (writes_of m l (events_of (scene_body cap d i scene w))) ->
    exists r : Role,
      x = ((m + role_number r + 1)%nat,
           clamp_index (v_frame_count cap) (role_index (frame_range scene) r),
           role_path d i r).
Proof.
  rewrite scene_body_eq. unfold scene_line.
  set (P := fun x : nat * Z * Path =>
              exists r : Role,
                x = ((m + role_number r + 1)%nat,
                     clamp_index (v_frame_count cap) (role_index (frame_range scene) r),
                     role_path d i r)).
  assert (Hcall : forall (r : Role) (w0 : World) (n : nat) (l0 : Z),
            n = (m + role_number r)%nat ->
            count is_seek (events_of (save_frame cap (role_index (frame_range scene) r)
                                        (role_path d i r) w0)) = 1%nat /\
            forall x,
              In x (writes_of n l0
                      (events_of (save_frame cap (role_index (frame_range scene) r)
                                    (role_path d i r) w0))) -> P x).
  { intros r w0 n l0 Hn.
    destruct (save_frame_writes cap (role_index (frame_range scene) r) (role_path d i r)
                w0 n l0 has_frames) as [Hs [Hw|Hw]]; (split; [exact Hs|]);
      rewrite Hw; intros x Hx; [destruct Hx|].
    destruct Hx as [<-|[]]. exists r. do 2 f_equal. lia. }
  destruct (Hcall RStart w m l) as [Hs1 Hw1]; [cbn; lia|].
  destruct (save_frame cap _ (role_path d i RStart) w) as [[[ok1|x1] w1] e1];
    unfold events_of, result_of in *; cbn [fst snd] in *.
  2:{ split; [intros [u Hu]; discriminate | exact Hw1]. }
  destruct (Hcall RMid w1 (1 + m)%nat (last_seek l e1)) as [Hs2 Hw2]; [cbn; lia|].
  destruct (save_frame cap _ (role_path d i RMid) w1) as [[[ok2|x2] w2] e2];
    unfold events_of, result_of in *; cbn [fst snd] in *.
  2:{ split; [intros [u Hu]; discriminate|].
      intros x Hx. rewrite writes_of_app, Hs1 in Hx.
      apply in_app_or in Hx as [Hx|Hx]; [exact (Hw1 x Hx) | exact (Hw2 x Hx)]. }
  destruct (Hcall REnd w2 (1 + (1 + m))%nat (last_seek (last_seek l e1) e2))
    as [Hs3 Hw3]; [cbn; lia|].
  destruct (save_frame cap _ (role_path d i REnd) w2) as [[[ok3|x3] w3] e3];
    unfold events_of, result_of in *; cbn [fst snd] in *.
  - split; [intros _; rewrite !count_app, Hs1, Hs2, Hs3; reflexivity|].
    intros x Hx. rewrite writes_of_app, Hs1 in Hx.
    apply in_app_or in Hx as [Hx|Hx]; [exact (Hw1 x Hx)|].
    rewrite writes_of_app, Hs2 in Hx.
    apply in_app_or in Hx as [Hx|Hx]; [exact (Hw2 x Hx)|].
    rewrite writes_of_app, Hs3 in Hx.
    apply in_app_or in Hx as [Hx|Hx]; [exact (Hw3 x Hx) | destruct Hx].
  - split; [intros [u Hu]; discriminate|].
    intros x Hx. rewrite writes_of_app, Hs1 in Hx.
    apply in_app_or in Hx as [Hx|Hx]; [exact (Hw1 x Hx)|].
    rewrite writes_of_app, Hs2 in Hx.
    apply in_app_or in Hx as [Hx|Hx]; [exact (Hw2 x Hx) | exact (Hw3 x Hx)].
Qed.

(** The writes of the loop: the call for role [r] of the [k]-th scene
    left writes to the file of role [r] of the scene of ordinal [i + k]. *)
Lemma scene_loop_writes (scenes : list Scene) :
  forall (i : nat) (w : World) (m : nat) (l : Z) (x : nat * Z * Path),
    In x (writes_of m l (events_of (scene_loop cap d i scenes w))) ->
    exists (k : nat) (scene : Scene) (r : Role),
      scenes !! k = Some scene /\
      x = ((m + 3 * k + role_number r + 1)%nat,
           clamp_index (v_frame_count cap) (role_index (frame_range scene) r),
           role_path d (i + k) r).
Proof.
  induction scenes as [|scene rest IH]; intros i w m l x.
  - intros [].
  - rewrite scene_loop_cons.
    destruct (scene_body_writes i scene w m l) as [Hs1 Hw1].
    destruct (scene_body cap d i scene w) as [[[[]|x1] w1] e1];
      unfold events_of, result_of in *; cbn [fst snd] in *.
    2:{ intros Hx. destruct (Hw1 x Hx) as [r ->].
        exists 0%nat, scene, r. split; [reflexivity|].
        rewrite Nat.add_0_r. do 2 f_equal. lia. }
    pose proof (IH (S i) w1 (3 + m)%nat (last_seek l e1)) as Hrest.
    destruct (scene_loop cap d (S i) rest w1) as [[r2 w2] e2].
    unfold after_events in *. cbn [fst snd] in *.
    rewrite writes_of_app, Hs1 by eauto. intros Hx.
    apply in_app_or in Hx as [Hx|Hx].
    + destruct (Hw1 x Hx) as [r ->].
      exists 0%nat, scene, r. split; [reflexivity|].
      rewrite Nat.add_0_r. do 2 f_equal. lia.
    + destruct (Hrest x Hx) as (k & scene' & r & Hk & ->).
      exists (S k), scene', r. split; [exact Hk|].
      replace (i + S k)%nat with (S i + k)%nat by lia. do 2 f_equal. lia.
Qed.

End Names.

Lemma writes_of_no_frame_lines (scenes : list Scene) :
  forall (i m : nat) (l : Z), writes_of m l (no_frame_lines i scenes) = [].
Proof. induction scenes as [|scene rest IH]; intros i m l; [reflexivity | apply IH]. Qed.

Lemma extract_keyframes_names (video : Video) (out_dir : Path) (w : World)
    (x : nat * Z * Path) :
  In x (writes_of 0 0 (events_of (extract_keyframes video out_dir w))) ->
  exists (k : nat) (scene : Scene) (r : Role),
    v_scenes video !! k = Some scene /\
    x = ((3 * k + role_number r + 1)%nat,
         clamp_index (v_frame_count video) (role_index (frame_range scene) r),
         role_path out_dir (S k) r).
Proof.
  destruct (v_scenes video) as [|scene rest] eqn:Hscenes.
  { rewrite (extract_keyframes_no_scenes _ _ _ Hscenes). intros []. }
  assert (Hne : v_scenes video <> []) by congruence.
  destruct (v_opens video) eqn:Hopen.
  2:{ rewrite (extract_keyframes_not_opened _ _ _ Hne Hopen). intros []. }
  destruct (Z.leb_spec (v_frame_count video) 0) as [Hle|Htotal].
  { rewrite (extract_keyframes_opened _ _ _ Hne Hopen), (scene_loop_no_frames _ _ _ Hle).
    unfold events_of. cbn [fst snd app writes_of].
    rewrite writes_of_app, writes_of_no_frame_lines. intros []. }
  rewrite (extract_keyframes_opened _ _ _ Hne Hopen), Hscenes.
  pose proof (scene_loop_writes video out_dir Htotal (scene :: rest) 1 w 0 0 x) as Hloop.
  destruct (scene_loop video out_dir 1 (scene :: rest) w) as [[[[]|x1] w1] e1];
    unfold events_of in *; cbn [fst snd app writes_of] in *.
  - rewrite writes_of_app. cbn [writes_of]. rewrite app_nil_r. exact Hloop.
  - exact Hloop.
Qed.

(** * The specification, statement by statement *)

(** ** The frame selector *)

(** C1, as stated, fails: the selector never looks at the frame count.
    For the scene [0, 10) of a video whose capture reports 5 frames the
    selected range is (0, 4, 9), and 9 exceeds the last index 4; the run
    prints exactly this range. *)
Lemma frame_range_exceeds_total :
  In (tc 0, tc 10) (v_scenes video_short_count) /\
  frame_range (tc 0, tc 10) = (0, 4, 9) /\
  ~ ordering_invariant (v_frame_count video_short_count) (frame_range (tc 0, tc 10)) /\
  scene_keys (events_of (extract_keyframes video_short_count ["out"%string] (world0 fs_base)))
  = [(1%nat, (0, 4, 9))].
Proof.
  split; [left; reflexivity|].
  split; [reflexivity|].
  split; [|vm_compute; reflexivity].
  intros H. change (0 <= 0 /\ 0 <= 4 /\ 4 <= 9 /\ 9 <= 5 - 1) in H. lia.
Qed.

(** C1, amended: for a scene whose start index is not negative the
    selector gives 0 <= start_frame <= mid_frame <= end_frame.  It does not
    compare with the frame count: end_frame <= total - 1 holds exactly when
    both the start index and the index before the end boundary are at most
    total - 1.  The bound is restored at extraction, where each index is
    clamped into [0, total - 1], which keeps the order. *)
Theorem frame_range_ordering (scene : Scene) (total : Z) :
  0 <= get_frames scene.1 ->
  match frame_range scene with
  | (start_f, mid_f, end_f) =>
      0 <= start_f /\ start_f <= mid_f /\ mid_f <= end_f /\
      (end_f <= total - 1 <->
       get_frames scene.1 <= total - 1 /\ get_frames scene.2 - 1 <= total - 1) /\
      (0 < total ->
       0 <= clamp_index total start_f /\
       clamp_index total start_f <= clamp_index total mid_f /\
       clamp_index total mid_f <= clamp_index total end_f /\
       clamp_index total end_f <= total - 1)
  end.
Proof.
  destruct scene as [start_time end_time]. cbn [fst snd frame_range].
  intros Hstart.
  set (s := get_frames start_time) in *.
  set (e := get_frames end_time - 1).
  assert (Hend : s <= (if e <? s then s else e))
    by (destruct (Z.ltb_spec e s); lia).
  assert (Hmid : s <= (s + (if e <? s then s else e)) / 2 <= (if e <? s then s else e)).
  { split.
    - apply Z.div_le_lower_bound; lia.
    - apply Z.div_le_upper_bound; lia. }
  split; [exact Hstart|].
  split; [apply Hmid|].
  split; [apply Hmid|].
  split.
  - destruct (Z.ltb_spec e s); lia.
  - intros Htotal.
    split; [apply clamp_index_range; exact Htotal|].
    split; [apply clamp_index_mono, Hmid|].
    split; [apply clamp_index_mono, Hmid|].
    apply clamp_index_range; exact Htotal.
Qed.

Lemma frame_range_ordering_witness :
  0 <= get_frames (tc 150, tc 300).1 /\
  match frame_range (tc 150, tc 300) with
  | (start_f, mid_f, end_f) =>
      0 <= start_f /\ start_f <= mid_f /\ mid_f <= end_f /\
      (end_f <= 300 - 1 <->
       get_frames (tc 150, tc 300).1 <= 300 - 1 /\
       get_frames (tc 150, tc 300).2 - 1 <= 300 - 1) /\
      (0 < 300 ->
       0 <= clamp_index 300 start_f /\
       clamp_index 300 start_f <= clamp_index 300 mid_f /\
       clamp_index 300 mid_f <= clamp_index 300 end_f /\
       clamp_index 300 end_f <= 300 - 1)
  end.
Proof.
  split; [cbn; lia|].
  apply (frame_range_ordering (tc 150, tc 300) 300). cbn. lia.
Defined.

(** C2: start_frame is the index of the start boundary; end_frame is the
    index of the end boundary minus one, unless that is below start_frame,
    in which case end_frame = start_frame (and then mid_frame =
    start_frame); mid_frame is the floor of the mean of the two. *)
Theorem frame_range_rule (start_time end_time : FrameTimecode) :
  match frame_range (start_time, end_time) with
  | (start_f, mid_f, end_f) =>
      start_f = get_frames start_time /\
      (get_frames start_time <= get_frames end_time - 1 ->
       end_f = get_frames end_time - 1) /\
      (get_frames end_time - 1 < get_frames start_time ->
       end_f = start_f /\ mid_f = start_f) /\
      mid_f = (start_f + end_f) / 2 /\
      2 * mid_f <= start_f + end_f < 2 * mid_f + 2
  end.
Proof.
  cbn [frame_range].
  set (s := get_frames start_time).
  set (e := get_frames end_time - 1).
  pose proof (Z.div_mod (s + (if e <? s then s else e)) 2 ltac:(lia)) as Hdm.
  pose proof (Z.mod_pos_bound (s + (if e <? s then s else e)) 2 ltac:(lia)) as Hmod.
  destruct (Z.ltb_spec e s) as [Hlt|Hge]; repeat split; lia.
Qed.

Example frame_range_first : frame_range (tc 0, tc 150) = (0, 74, 149).
Proof. reflexivity. Qed.

Example frame_range_second : frame_range (tc 150, tc 300) = (150, 224, 299).
Proof. reflexivity. Qed.

(** ** Seek, read and the single retry *)

(** C3: a call of [save_frame] on a video with frames seeks once.  When
    the capture answers the first read with a frame, that read is the only
    one and its frame goes on to be written.  When the first read fails
    ([ret] false, or no frame), the call reads once more, without seeking
    again: if the capture answers the second read with a frame the call
    carries on exactly as after a first-time success, and in a directory
    where the file can be written it returns [True] with that frame in the
    file; if the second read fails too the call returns [False] after one
    seek and two reads, without a third read. *)
Theorem save_frame_retries_once
    (cap : Video) (frame_idx : Z) (out_path : Path) (w : World) :
  0 < v_frame_count cap ->
  count is_seek (events_of (save_frame cap frame_idx out_path w)) = 1%nat /\
  w_nreads (world_of (save_frame cap frame_idx out_path w))
  = (count is_read (events_of (save_frame cap frame_idx out_path w)) + w_nreads w)%nat /\
  (forall frame : Frame,
     first_answer cap frame_idx w = (true, Some frame) ->
     count is_read (events_of (save_frame cap frame_idx out_path w)) = 1%nat /\
     save_frame cap frame_idx out_path w
     = after_events [EvSeek (clamp_index (v_frame_count cap) frame_idx); EvRead]
         (write_frame out_path frame
            (sought w (clamp_index (v_frame_count cap) frame_idx) 1))) /\
  (read_failed (first_answer cap frame_idx w) ->
   count is_read (events_of (save_frame cap frame_idx out_path w)) = 2%nat /\
   (forall frame : Frame,
      second_answer cap frame_idx w = (true, Some frame) ->
      save_frame cap frame_idx out_path w
      = after_events [EvSeek (clamp_index (v_frame_count cap) frame_idx); EvRead; EvRead]
          (write_frame out_path frame
             (sought w (clamp_index (v_frame_count cap) frame_idx) 2)) /\
      (plain out_path = true ->
       is_dir (w_fs w) (parent out_path) = true ->
       can_write (w_fs w) out_path = true ->
       result_of (save_frame cap frame_idx out_path w) = Ok true /\
       w_fs (world_of (save_frame cap frame_idx out_path w))
       = <[out_path := File frame]> (w_fs w))) /\
   (read_failed (second_answer cap frame_idx w) ->
    save_frame cap frame_idx out_path w
    = (Ok false, sought w (clamp_index (v_frame_count cap) frame_idx) 2,
       [EvSeek (clamp_index (v_frame_count cap) frame_idx); EvRead; EvRead]))).
Proof.
  intros Htotal. rewrite (save_frame_eq _ _ _ _ Htotal). cbv zeta.
  unfold first_answer, second_answer.
  set (pos := clamp_index (v_frame_count cap) frame_idx).
  set (r1 := v_decode cap (w_nreads w) pos).
  set (r2 := v_decode cap (S (w_nreads w)) pos).
  destruct (usable r1) as [f1|] eqn:H1.
  - apply usable_some in H1.
    destruct (write_frame_events out_path f1 (sought w pos 1)) as (Hs & Hr & Hn).
    destruct (write_frame out_path f1 (sought w pos 1)) as [[r w2] e2] eqn:Hwrite.
    unfold events_of, world_of, after_events in *. cbn [fst snd] in *.
    cbn [app count is_seek is_read]. rewrite Hs, Hr, Hn.
    split; [reflexivity|]. split; [reflexivity|]. split.
    + intros frame Hframe. rewrite H1 in Hframe. injection Hframe as <-.
      rewrite Hwrite. auto.
    + intros Hfail. apply usable_none in Hfail. apply usable_some in H1. congruence.
  - apply usable_none in H1.
    destruct (usable r2) as [f2|] eqn:H2.
    + apply usable_some in H2.
      destruct (write_frame_events out_path f2 (sought w pos 2)) as (Hs & Hr & Hn).
      pose proof (write_frame_in_dir out_path f2 (sought w pos 2)) as Hw.
      destruct (write_frame out_path f2 (sought w pos 2)) as [[r w2] e2] eqn:Hwrite.
      unfold events_of, world_of, result_of, after_events in *. cbn [fst snd] in *.
      cbn [app count is_seek is_read]. rewrite Hs, Hr, Hn.
      split; [reflexivity|]. split; [reflexivity|]. split.
      * intros frame Hframe. apply usable_none in H1.
        assert (Hu : usable r1 = Some frame) by (by apply usable_some). congruence.
      * intros _. split; [reflexivity|]. split.
        -- intros frame Hframe. rewrite H2 in Hframe. injection Hframe as <-.
           rewrite Hwrite. split; [reflexivity|].
           intros _ Hdir Hcan. cbn [sought w_fs] in Hw.
           specialize (Hw Hdir). injection Hw as -> -> _.
           rewrite Hcan. cbn [w_fs]. split; [reflexivity|].
           by apply imwrite_written.
        -- intros Hfail. apply usable_none in Hfail. apply usable_some in H2. congruence.
    + apply usable_none in H2. cbn.
      split; [reflexivity|]. split; [reflexivity|]. split.
      * intros frame Hframe. apply usable_none in H1.
        assert (Hu : usable r1 = Some frame) by (by apply usable_some). congruence.
      * intros _. split; [reflexivity|]. split; [|reflexivity].
        intros frame Hframe. apply usable_none in H2.
        assert (Hu : usable r2 = Some frame) by (by apply usable_some). congruence.
Qed.

Lemma save_frame_retries_once_witness :
  0 < v_frame_count video_transient /\
  read_failed (first_answer video_transient 74 (world0 fs_with_out)) /\
  second_answer video_transient 74 (world0 fs_with_out) = (true, Some (FrameData 74)) /\
  plain ["out"; "scene_001_mid.jpg"]%string = true /\
  is_dir (w_fs (world0 fs_with_out)) (parent ["out"; "scene_001_mid.jpg"]%string) = true /\
  can_write (w_fs (world0 fs_with_out)) ["out"; "scene_001_mid.jpg"]%string = true /\
  result_of (save_frame video_transient 74 ["out"; "scene_001_mid.jpg"]%string
               (world0 fs_with_out)) = Ok true /\
  w_fs (world_of (save_frame video_transient 74 ["out"; "scene_001_mid.jpg"]%string
                    (world0 fs_with_out)))
  = <[ ["out"; "scene_001_mid.jpg"]%string := File (FrameData 74) ]>
      (w_fs (world0 fs_with_out)).
Proof.
  assert (Htotal : 0 < v_frame_count video_transient) by reflexivity.
  assert (Hfirst : read_failed (first_answer video_transient 74 (world0 fs_with_out)))
    by (left; reflexivity).
  assert (Hsecond : second_answer video_transient 74 (world0 fs_with_out)
                    = (true, Some (FrameData 74))) by reflexivity.
  assert (Hplain : plain ["out"; "scene_001_mid.jpg"]%string = true) by reflexivity.
  assert (Hdir : is_dir (w_fs (world0 fs_with_out))
                   (parent ["out"; "scene_001_mid.jpg"]%string) = true) by reflexivity.
  assert (Hcan : can_write (w_fs (world0 fs_with_out))
                   ["out"; "scene_001_mid.jpg"]%string = true) by reflexivity.
  split; [exact Htotal|]. split; [exact Hfirst|]. split; [exact Hsecond|].
  split; [exact Hplain|]. split; [exact Hdir|]. split; [exact Hcan|].
  exact (proj2 (proj1 (proj2 (proj2 (proj2 (proj2
           (save_frame_retries_once video_transient 74 ["out"; "scene_001_mid.jpg"]%string
              (world0 fs_with_out) Htotal))) Hfirst)) (FrameData 74) Hsecond)
           Hplain Hdir Hcan).
Defined.

Example transient_read_is_saved :
  save_frame video_transient 74 ["scene_001_mid.jpg"%string] (world0 fs_base)
  = (Ok true,
     MkWorld 74 2 (<[ ["scene_001_mid.jpg"%string] := File (FrameData 74) ]> fs_base),
     [EvSeek 74; EvRead; EvRead; EvMkdir [];
      EvImwrite ["scene_001_mid.jpg"%string] (FrameData 74)]).
Proof. reflexivity. Qed.

Example two_failures_give_false :
  save_frame video_unreadable 74 ["scene_001_mid.jpg"%string] (world0 fs_base)
  = (Ok false, MkWorld 74 2 fs_base, [EvSeek 74; EvRead; EvRead]).
Proof. reflexivity. Qed.

(** ** Clamping *)

(** C4: the index is clamped, and the call raises all the same.  The
    video has 300 frames and the index asked for is 1000: the call seeks to
    299, the last frame, and reads it.  The name of the output directory is
    taken by a regular file, so [mkdir] raises [FileExistsError], which
    nothing in [save_frame] catches: the call, which its docstring says
    returns [True] or [False], ends with the exception.  Where the
    directory is there and only the write is refused, the same call
    returns [False]. *)
Theorem clamped_call_raises :
  v_frame_count video_two_scenes <= 1000 /\
  clamp_index (v_frame_count video_two_scenes) 1000 = 299 /\
  save_frame video_two_scenes 1000 ["out"; "scene_002_end.jpg"]%string (world0 fs_out_is_file)
  = (Raised (OSErr FileExistsError), MkWorld 299 1 fs_out_is_file,
     [EvSeek 299; EvRead; EvMkdir ["out"%string]]) /\
  save_frame video_two_scenes 1000 ["out"; "scene_002_end.jpg"]%string (world0 fs_out_readonly)
  = (Ok false, MkWorld 299 1 fs_out_readonly,
     [EvSeek 299; EvRead; EvMkdir ["out"%string];
      EvImwrite ["out"; "scene_002_end.jpg"]%string (FrameData 299)]).
Proof.
  split; [cbn; lia|]. split; [reflexivity|]. split; vm_compute; reflexivity.
Qed.

(** ** Outcomes of a run *)

(** C5: a run that records no outcome.  The name of the output
    directory is taken by a regular file.  The capture opens and the first
    frame is read; [mkdir] raises [FileExistsError], which neither
    [save_frame] nor the loop catches, and the run stops there: the
    exception is not the open error, and no line, hence no outcome, is
    printed for either of the two scenes.  The failures [save_frame] does
    handle, a failed read and a refused write, it reports by returning
    [False]. *)
Theorem mkdir_fault_aborts_run :
  v_opens video_two_scenes = true /\
  length (v_scenes video_two_scenes) = 2%nat /\
  extract_keyframes video_two_scenes ["out"%string] (world0 fs_out_is_file)
  = (Raised (OSErr FileExistsError),
     MkWorld 0 1 fs_out_is_file,
     [EvOpen; EvPrint (MsgTotals 2 300); EvSeek 0; EvRead; EvMkdir ["out"%string]]) /\
  result_of (extract_keyframes video_two_scenes ["out"%string] (world0 fs_out_is_file))
  <> Raised RuntimeError /\
  scene_flags
    (events_of (extract_keyframes video_two_scenes ["out"%string] (world0 fs_out_is_file)))
  = [].
Proof.
  split; [reflexivity|]. split; [reflexivity|].
  assert (Hrun :
    extract_keyframes video_two_scenes ["out"%string] (world0 fs_out_is_file)
    = (Raised (OSErr FileExistsError),
       MkWorld 0 1 fs_out_is_file,
       [EvOpen; EvPrint (MsgTotals 2 300); EvSeek 0; EvRead; EvMkdir ["out"%string]]))
    by (vm_compute; reflexivity).
  split; [exact Hrun|]. rewrite Hrun. split; [discriminate | reflexivity].
Qed.

(** ** Releasing the capture *)

(** C6, as stated, fails: [cap.release()] is the statement after the loop,
    with no [try]/[finally] around it.  Here the capture opens, the first
    frame is read, [mkdir] raises [PermissionError], and the run ends with
    the capture opened once and released not at all. *)
Lemma release_skipped_on_fault :
  v_opens video_two_scenes = true /\
  extract_keyframes video_two_scenes ["out"%string] (world0 fs_base_readonly)
  = (Raised (OSErr PermissionError),
     MkWorld 0 1 fs_base_readonly,
     [EvOpen; EvPrint (MsgTotals 2 300); EvSeek 0; EvRead; EvMkdir ["out"%string]]) /\
  count is_open
    (events_of (extract_keyframes video_two_scenes ["out"%string] (world0 fs_base_readonly)))
  = 1%nat /\
  count is_release
    (events_of (extract_keyframes video_two_scenes ["out"%string] (world0 fs_base_readonly)))
  = 0%nat.
Proof.
  split; [reflexivity|].
  assert (Hrun :
    extract_keyframes video_two_scenes ["out"%string] (world0 fs_base_readonly)
    = (Raised (OSErr PermissionError),
       MkWorld 0 1 fs_base_readonly,
       [EvOpen; EvPrint (MsgTotals 2 300); EvSeek 0; EvRead; EvMkdir ["out"%string]]))
    by (vm_compute; reflexivity).
  split; [exact Hrun|]. rewrite Hrun. split; reflexivity.
Qed.

(** C6, amended: in a run that opened the capture, it is opened once, and
    released exactly once, as the last action before the closing line, when
    the loop over the scenes ends without an exception (which is the case
    whenever the output directory exists or can be created); when an
    extraction raises, the exception is the one of the directory creation,
    it leaves the run, and the capture is not released. *)
Theorem release_once_after_loop (video : Video) (out_dir : Path) (w : World) :
  v_scenes video <> [] ->
  v_opens video = true ->
  count is_open (events_of (extract_keyframes video out_dir w)) = 1%nat /\
  match result_of (extract_keyframes video out_dir w) with
  | Ok _ =>
      count is_release (events_of (extract_keyframes video out_dir w)) = 1%nat /\
      exists before,
        events_of (extract_keyframes video out_dir w)
        = before ++ [EvRelease; EvPrint (MsgDone out_dir)]
  | Raised x =>
      (exists e, x = OSErr e) /\
      ~ dir_ready (w_fs w) out_dir /\
      count is_release (events_of (extract_keyframes video out_dir w)) = 0%nat
  end /\
  (dir_ready (w_fs w) out_dir ->
   result_of (extract_keyframes video out_dir w) = Ok tt).
Proof.
  intros Hne Hopen.
  rewrite (extract_keyframes_opened _ _ _ Hne Hopen).
  destruct (scene_loop video out_dir 1 (v_scenes video) w) as [[r1 w1] e1] eqn:Hloop.
  apply scene_loop_spec in Hloop as (Hev & Hkeys & Hok & _).
  apply loop_events_count in Hev as [Hrel Hop].
  destruct r1 as [[]|x]; unfold result_of, events_of; cbn [fst snd].
  - split; [rewrite !count_app, Hop; reflexivity|].
    split; [|auto].
    split; [rewrite !count_app, Hrel; reflexivity|].
    eexists. rewrite app_assoc. reflexivity.
  - split; [rewrite !count_app, Hop; reflexivity|].
    split.
    + split; [apply Hkeys|].
      split; [intros Hr; by destruct (Hok Hr)|].
      rewrite !count_app, Hrel. reflexivity.
    + intros Hr. by destruct (Hok Hr).
Qed.

Lemma release_once_after_loop_witness :
  v_scenes video_two_scenes <> [] /\
  v_opens video_two_scenes = true /\
  count is_open
    (events_of (extract_keyframes video_two_scenes ["out"%string] (world0 fs_base)))
  = 1%nat.
Proof.
  assert (Hne : v_scenes video_two_scenes <> []) by discriminate.
  split; [exact Hne|]. split; [reflexivity|].
  exact (proj1 (release_once_after_loop video_two_scenes ["out"%string]
                  (world0 fs_base) Hne eq_refl)).
Defined.

Example release_in_a_normal_run :
  count is_release
    (events_of (extract_keyframes video_two_scenes ["out"%string] (world0 fs_base)))
  = 1%nat.
Proof. vm_compute. reflexivity. Qed.

(** ** No scenes *)

(** C7: when the detector returns no scene the run prints the "no scene"
    line and returns normally; that line is its only event, so the capture
    is never opened, and the world, file system included, is as before. *)
Theorem no_scenes_stops_early (video : Video) (out_dir : Path) (w : World) :
  v_scenes video = [] ->
  result_of (extract_keyframes video out_dir w) = Ok tt /\
  events_of (extract_keyframes video out_dir w) = [EvPrint MsgNoScenes] /\
  count is_open (events_of (extract_keyframes video out_dir w)) = 0%nat /\
  count is_fs_event (events_of (extract_keyframes video out_dir w)) = 0%nat /\
  world_of (extract_keyframes video out_dir w) = w.
Proof.
  intros Hnone. rewrite (extract_keyframes_no_scenes _ _ _ Hnone). cbn. auto.
Qed.

Lemma no_scenes_stops_early_witness :
  v_scenes video_no_scenes = [] /\
  events_of (extract_keyframes video_no_scenes ["out"%string] (world0 fs_base))
  = [EvPrint MsgNoScenes].
Proof.
  split; [reflexivity|].
  exact (proj1 (proj2 (no_scenes_stops_early video_no_scenes ["out"%string]
                         (world0 fs_base) eq_refl))).
Defined.

(** ** Directory creation and write failures *)

(** C8: a frame is read and the directory cannot be made.  The base
    directory is read-only, so [mkdir] raises [PermissionError] on [out].
    Nothing catches it: the call ends with the exception instead of
    [False], the directory is not there afterwards, and the run that makes
    this call ends with it, without a line for any scene.  A write that
    [imwrite] refuses, in a directory that is there, is reported as
    [False] and the run goes on. *)
Theorem unwritable_base_is_fatal :
  reads_frame video_two_scenes 0 (world0 fs_base_readonly) (FrameData 0) /\
  save_frame video_two_scenes 0 ["out"; "scene_001_start.jpg"]%string
    (world0 fs_base_readonly)
  = (Raised (OSErr PermissionError), MkWorld 0 1 fs_base_readonly,
     [EvSeek 0; EvRead; EvMkdir ["out"%string]]) /\
  is_dir fs_base_readonly ["out"%string] = false /\
  result_of (extract_keyframes video_two_scenes ["out"%string] (world0 fs_base_readonly))
  = Raised (OSErr PermissionError) /\
  scene_flags
    (events_of (extract_keyframes video_two_scenes ["out"%string] (world0 fs_base_readonly)))
  = [] /\
  save_frame video_two_scenes 0 ["out"; "scene_001_start.jpg"]%string
    (world0 fs_out_readonly)
  = (Ok false, MkWorld 0 1 fs_out_readonly,
     [EvSeek 0; EvRead; EvMkdir ["out"%string];
      EvImwrite ["out"; "scene_001_start.jpg"]%string (FrameData 0)]).
Proof.
  split; [split; [reflexivity | left; reflexivity]|].
  split; [vm_compute; reflexivity|]. split; [reflexivity|].
  split; [vm_compute; reflexivity|]. split; vm_compute; reflexivity.
Qed.

(** The whole chain of missing directories is created, and creating it
    again changes nothing. *)
Example mkdir_creates_the_chain :
  exists fs1,
    mkdir_parents fs_base ["a"; "b"; "c"]%string = inr fs1 /\
    map_to_list fs1
    = [(["a"; "b"; "c"]%string, Dir true); (["a"; "b"]%string, Dir true);
       (["a"]%string, Dir true); ([], Dir true)] /\
    mkdir_parents fs1 ["a"; "b"; "c"]%string = inr fs1.
Proof.
  destruct (mkdir_parents fs_base ["a"; "b"; "c"]%string) as [e|fs1] eqn:Hmk;
    [vm_compute in Hmk; discriminate|].
  exists fs1. split; [reflexivity|]. split.
  - injection Hmk as <-. vm_compute. reflexivity.
  - by apply mkdir_parents_idempotent in Hmk.
Qed.

Example write_failures_are_like_read_failures :
  result_of (extract_keyframes video_two_scenes ["out"%string] (world0 fs_out_readonly))
  = Ok tt /\
  scene_flags
    (events_of (extract_keyframes video_two_scenes ["out"%string] (world0 fs_out_readonly)))
  = [(false, false, false); (false, false, false)] /\
  scene_flags
    (events_of (extract_keyframes video_unreadable ["out"%string] (world0 fs_out_readonly)))
  = [(false, false, false); (false, false, false)] /\
  w_fs (world_of (extract_keyframes video_two_scenes ["out"%string] (world0 fs_out_readonly)))
  = fs_out_readonly.
Proof. vm_compute. auto. Qed.

(** ** Names of the output files *)

(** C9: the three paths of scene [i] are [out_dir / scene_NNN_start.jpg],
    [.._mid.jpg] and [.._end.jpg], where NNN is the decimal numeral of [i]
    padded with zeros to three characters (exactly three for [i] below
    1000, the numeral itself beyond); NNN reads back as [i], so two scenes
    never share a name.  In a run the scenes are numbered from 1 in the
    order of the list: the call of [imwrite] that comes after [m] seeks is
    the one made for role [r] of the [k]-th scene of the list (counted from
    0), where [m = 3 k + r + 1]; the last seek before it went to the
    clamped index of that role of that scene; and it writes to
    [out_dir / scene_NNN_<role>.jpg] with NNN the numeral of [k + 1].  The
    path depends on nothing but the directory, the ordinal and the role. *)
Theorem scene_paths_naming (out_dir : Path) :
  (forall i : nat,
     scene_paths out_dir i
     = (out_dir ++ ["scene_" +:+ format_03d i +:+ "_start.jpg"],
        out_dir ++ ["scene_" +:+ format_03d i +:+ "_mid.jpg"],
        out_dir ++ ["scene_" +:+ format_03d i +:+ "_end.jpg"]) /\
     String.length (format_03d i) = Nat.max 3 (String.length (decimal i)) /\
     ((i < 1000)%nat -> String.length (format_03d i) = 3%nat) /\
     ordinal_of (format_03d i) = Some i) /\
  (forall i j : nat, format_03d i = format_03d j -> i = j) /\
  (forall (video : Video) (w : World) (m : nat) (pos : Z) (p : Path),
     In (m, pos, p) (writes_of 0 0 (events_of (extract_keyframes video out_dir w))) ->
     exists (k : nat) (scene : Scene) (r : Role),
       v_scenes video !! k = Some scene /\
       m = (3 * k + role_number r + 1)%nat /\
       pos = clamp_index (v_frame_count video) (role_index (frame_range scene) r) /\
       p = out_dir ++ ["scene_" +:+ format_03d (S k) +:+ role_suffix r]).
Proof.
  split; [|split].
  - intros i. split; [reflexivity|].
    split; [apply format_03d_length|].
    split; [|apply ordinal_of_format].
    intros Hi. rewrite format_03d_length.
    pose proof (decimal_short i Hi). lia.
  - intros i j Heq.
    pose proof (ordinal_of_format i) as Hi. rewrite Heq, ordinal_of_format in Hi.
    congruence.
  - intros video w m pos p Hin.
    apply extract_keyframes_names in Hin as (k & scene & r & Hk & Heq).
    injection Heq as -> -> ->.
    exists k, scene, r. split; [exact Hk|]. split; [reflexivity|]. split; [reflexivity|].
    by destruct r.
Qed.

(** The calls of [imwrite] of the run on the two-scene video. *)
Example two_scenes_writes :
  writes_of 0 0
    (events_of (extract_keyframes video_two_scenes ["images"%string] (world0 fs_base)))
  = [(1%nat, 0, ["images"; "scene_001_start.jpg"]%string);
     (2%nat, 74, ["images"; "scene_001_mid.jpg"]%string);
     (3%nat, 149, ["images"; "scene_001_end.jpg"]%string);
     (4%nat, 150, ["images"; "scene_002_start.jpg"]%string);
     (5%nat, 224, ["images"; "scene_002_mid.jpg"]%string);
     (6%nat, 299, ["images"; "scene_002_end.jpg"]%string)].
Proof. vm_compute. reflexivity. Qed.

(** Where the middle frame of the first scene cannot be read, the later
    files keep their names. *)
Example bad_middle_writes :
  writes_of 0 0
    (events_of (extract_keyframes video_bad_middle ["out"%string] (world0 fs_locked_file)))
  = [(1%nat, 0, ["out"; "scene_001_start.jpg"]%string);
     (3%nat, 149, ["out"; "scene_001_end.jpg"]%string);
     (4%nat, 150, ["out"; "scene_002_start.jpg"]%string);
     (5%nat, 224, ["out"; "scene_002_mid.jpg"]%string);
     (6%nat, 299, ["out"; "scene_002_end.jpg"]%string)].
Proof. vm_compute. reflexivity. Qed.

Example format_03d_7 : format_03d 7 = "007"%string.
Proof. reflexivity. Qed.

Example format_03d_1234 : format_03d 1234 = "1234"%string.
Proof. reflexivity. Qed.

Example scene_paths_7 :
  scene_paths ["images"%string] 7
  = (["images"; "scene_007_start.jpg"]%string,
     ["images"; "scene_007_mid.jpg"]%string,
     ["images"; "scene_007_end.jpg"]%string).
Proof. reflexivity. Qed.

(** The run on the two-scene video: which frame goes to which file. *)
Example two_scenes_end_to_end :
  events_of (extract_keyframes video_two_scenes ["images"%string] (world0 fs_base))
  = [EvOpen; EvPrint (MsgTotals 2 300);
     EvSeek 0; EvRead; EvMkdir ["images"%string];
     EvImwrite ["images"; "scene_001_start.jpg"]%string (FrameData 0);
     EvSeek 74; EvRead; EvMkdir ["images"%string];
     EvImwrite ["images"; "scene_001_mid.jpg"]%string (FrameData 74);
     EvSeek 149; EvRead; EvMkdir ["images"%string];
     EvImwrite ["images"; "scene_001_end.jpg"]%string (FrameData 149);
     EvPrint (MsgScene 1 0 74 149 true true true);
     EvSeek 150; EvRead; EvMkdir ["images"%string];
     EvImwrite ["images"; "scene_002_start.jpg"]%string (FrameData 150);
     EvSeek 224; EvRead; EvMkdir ["images"%string];
     EvImwrite ["images"; "scene_002_mid.jpg"]%string (FrameData 224);
     EvSeek 299; EvRead; EvMkdir ["images"%string];
     EvImwrite ["images"; "scene_002_end.jpg"]%string (FrameData 299);
     EvPrint (MsgScene 2 150 224 299 true true true);
     EvRelease; EvPrint (MsgDone ["images"%string])].
Proof. vm_compute. reflexivity. Qed.

Example scene_paths_1000 :
  (scene_paths ["images"%string] 1000).1.1 = ["images"; "scene_1000_start.jpg"]%string.
Proof. reflexivity. Qed.

(** ** Nothing is written before a frame is read *)

(** C10: a call of [save_frame] that obtains no frame (no frames in the
    video, or both reads failed) returns [False] without calling [mkdir]
    or [imwrite] and leaves the file system as it was; so whenever a call
    touches the file system, one of its reads gave a frame.  A run in which
    every read fails creates no directory and no file. *)
Theorem failed_read_writes_nothing
    (cap : Video) (frame_idx : Z) (out_path out_dir : Path) (w : World) :
  (v_frame_count cap <= 0 \/
   (first_read cap frame_idx w = None /\ second_read cap frame_idx w = None) ->
   result_of (save_frame cap frame_idx out_path w) = Ok false /\
   w_fs (world_of (save_frame cap frame_idx out_path w)) = w_fs w /\
   count is_fs_event (events_of (save_frame cap frame_idx out_path w)) = 0%nat) /\
  (count is_fs_event (events_of (save_frame cap frame_idx out_path w)) <> 0%nat \/
   w_fs (world_of (save_frame cap frame_idx out_path w)) <> w_fs w ->
   0 < v_frame_count cap /\
   exists frame,
     first_read cap frame_idx w = Some frame \/
     (first_read cap frame_idx w = None /\ second_read cap frame_idx w = Some frame)) /\
  (all_reads_fail cap ->
   w_fs (world_of (extract_keyframes cap out_dir w)) = w_fs w /\
   count is_fs_event (events_of (extract_keyframes cap out_dir w)) = 0%nat).
Proof.
  destruct (save_frame_by_read cap frame_idx out_path w) as [_ Hcase].
  split; [|split].
  - intros Hnone. by rewrite (frame_read_failed _ _ _ Hnone) in Hcase.
  - intros Htouched.
    destruct (frame_read cap frame_idx w) as [frame|] eqn:Hread.
    + apply frame_read_some in Hread as [Htotal Hreads]. eauto.
    + destruct Hcase as (_ & Hfs & Hcount). destruct Htouched; contradiction.
  - intros Hfail.
    destruct (v_scenes cap) as [|scene rest] eqn:Hscenes.
    { rewrite (extract_keyframes_no_scenes _ _ _ Hscenes). auto. }
    assert (Hne : v_scenes cap <> []) by congruence.
    destruct (v_opens cap) eqn:Hopen.
    2:{ rewrite (extract_keyframes_not_opened _ _ _ Hne Hopen). auto. }
    rewrite (extract_keyframes_opened _ _ _ Hne Hopen).
    destruct (scene_loop cap out_dir 1 (v_scenes cap) w) as [[r1 w1] e1] eqn:Hloop.
    apply scene_loop_spec in Hloop as (_ & _ & _ & Hall).
    destruct (Hall Hfail) as (-> & Hfs & Hcount & _).
    unfold world_of, events_of. cbn [fst snd].
    split; [exact Hfs|]. rewrite !count_app, Hcount. reflexivity.
Qed.

Example unreadable_video_leaves_no_trace :
  result_of (extract_keyframes video_unreadable ["out"%string] (world0 fs_base)) = Ok tt /\
  w_fs (world_of (extract_keyframes video_unreadable ["out"%string] (world0 fs_base)))
  = fs_base /\
  scene_flags (events_of (extract_keyframes video_unreadable ["out"%string] (world0 fs_base)))
  = [(false, false, false); (false, false, false)].
Proof. vm_compute. auto. Qed.

(** * Further properties of the program *)

(** ** Seeks, reads and writes of a run *)

(** X1: every seek of a run, whether it returns or is ended by an
    exception, goes to an index between 0 and the frame count of the
    capture minus one, whatever indices the detector gave. *)
Theorem run_seeks_in_range (video : Video) (out_dir : Path) (w : World) :
  Forall (seek_in_range (v_frame_count video))
    (events_of (extract_keyframes video out_dir w)).
Proof.
  apply (extract_keyframes_rule (fun _ => True)
           (Forall (seek_in_range (v_frame_count video))) video out_dir);
    try done.
  - intros a b Ha Hb. rewrite Forall_app. auto.
  - intros e Hs _ _. constructor; [|constructor]. by destruct e.
  - intros frame_idx j r w0 _ _. split; [exact I|]. apply save_frame_counts.
Qed.

(** X2: a run makes at most three seeks a scene, exactly three a scene
    when it returns normally on an opened video with frames; its reads are
    at least as many as its seeks and at most twice as many; it calls
    [mkdir] at most once per seek and [imwrite] at most once per
    [mkdir]. *)
Theorem run_within_budget (video : Video) (out_dir : Path) (w : World) :
  within_budget (events_of (extract_keyframes video out_dir w)) /\
  (count is_seek (events_of (extract_keyframes video out_dir w))
   <= 3 * length (v_scenes video))%nat /\
  (0 < v_frame_count video -> v_opens video = true ->
   result_of (extract_keyframes video out_dir w) = Ok tt ->
   count is_seek (events_of (extract_keyframes video out_dir w))
   = (3 * length (v_scenes video))%nat).
Proof.
  split.
  { apply (extract_keyframes_rule (fun _ => True) within_budget video out_dir);
      try done.
    - unfold within_budget. intros a b Ha Hb. rewrite !count_app. lia.
    - intros e Hs Hr Hf. unfold within_budget. cbn. rewrite Hs, Hr.
      destruct e; cbn in *; try discriminate; lia.
    - intros frame_idx j r w0 _ _. split; [exact I|]. apply save_frame_counts. }
  destruct (v_scenes video) as [|scene rest] eqn:Hscenes.
  { rewrite (extract_keyframes_no_scenes _ _ _ Hscenes). cbn. auto. }
  assert (Hne : v_scenes video <> []) by congruence.
  destruct (v_opens video) eqn:Hopen.
  2:{ rewrite (extract_keyframes_not_opened _ _ _ Hne Hopen). cbn.
      split; [lia | discriminate]. }
  rewrite (extract_keyframes_opened _ _ _ Hne Hopen), Hscenes.
  destruct (scene_loop_seeks video out_dir (scene :: rest) 1 w) as [Hle Heq].
  destruct (scene_loop video out_dir 1 (scene :: rest) w) as [[[[]|x] w1] e1];
    unfold events_of, result_of in *; cbn [fst snd] in *; rewrite !count_app;
    cbn [count is_seek].
  - split; [lia|]. intros Htotal _ _. rewrite (Heq Htotal) by eauto. lia.
  - split; [lia | discriminate].
Qed.

(** ** A video without frames *)

(** X3: on a capture that reports no frame (a count of 0 or below) a
    run that opens returns normally and leaves the world as it was: it
    never seeks, reads or touches the file system, and between the totals
    line and the release it prints, for every scene, the three indices with
    the three flags [False]. *)
Theorem run_on_video_without_frames (video : Video) (out_dir : Path) (w : World) :
  v_frame_count video <= 0 ->
  v_scenes video <> [] ->
  v_opens video = true ->
  extract_keyframes video out_dir w
  = (Ok tt, w,
     [EvOpen; EvPrint (MsgTotals (length (v_scenes video)) (v_frame_count video))]
     ++ no_frame_lines 1 (v_scenes video)
     ++ [EvRelease; EvPrint (MsgDone out_dir)]).
Proof.
  intros Hle Hne Hopen.
  rewrite (extract_keyframes_opened _ _ _ Hne Hopen).
  by rewrite (scene_loop_no_frames _ _ _ Hle).
Qed.

Lemma run_on_video_without_frames_witness :
  v_frame_count video_no_frames <= 0 /\
  v_scenes video_no_frames <> [] /\
  v_opens video_no_frames = true /\
  extract_keyframes video_no_frames ["out"%string] (world0 fs_base)
  = (Ok tt, world0 fs_base,
     [EvOpen; EvPrint (MsgTotals 2 0);
      EvPrint (MsgScene 1 0 74 149 false false false);
      EvPrint (MsgScene 2 150 224 299 false false false);
      EvRelease; EvPrint (MsgDone ["out"%string])]).
Proof.
  assert (Hle : v_frame_count video_no_frames <= 0) by (cbn; lia).
  assert (Hne : v_scenes video_no_frames <> []) by discriminate.
  split; [exact Hle|]. split; [exact Hne|]. split; [reflexivity|].
  exact (run_on_video_without_frames video_no_frames ["out"%string] (world0 fs_base)
           Hle Hne eq_refl).
Defined.

(** ** Clamping, case by case *)

(** X12: with no frames (a count of 0, or below) [save_frame] returns
    [False] at once: no seek, no read, nothing changed.  Otherwise the one
    seek of the call goes to the index clamped into [0, total - 1]; an index
    at or beyond the count is treated exactly as the last index, and the
    call raises nothing up to and including its reads (the only exception
    it can let through is the one of the directory creation). *)
Theorem save_frame_clamps (cap : Video) (frame_idx : Z) (out_path : Path) (w : World) :
  (v_frame_count cap <= 0 ->
   save_frame cap frame_idx out_path w = (Ok false, w, [])) /\
  (0 < v_frame_count cap ->
   0 <= clamp_index (v_frame_count cap) frame_idx <= v_frame_count cap - 1 /\
   (v_frame_count cap <= frame_idx ->
    clamp_index (v_frame_count cap) frame_idx = v_frame_count cap - 1) /\
   (frame_idx < 0 -> clamp_index (v_frame_count cap) frame_idx = 0) /\
   (0 <= frame_idx <= v_frame_count cap - 1 ->
    clamp_index (v_frame_count cap) frame_idx = frame_idx) /\
   (exists rest,
      events_of (save_frame cap frame_idx out_path w)
      = EvSeek (clamp_index (v_frame_count cap) frame_idx) :: rest /\
      count is_seek rest = 0%nat) /\
   w_pos (world_of (save_frame cap frame_idx out_path w))
   = clamp_index (v_frame_count cap) frame_idx /\
   (v_frame_count cap <= frame_idx ->
    save_frame cap frame_idx out_path w
    = save_frame cap (v_frame_count cap - 1) out_path w) /\
   (forall x, result_of (save_frame cap frame_idx out_path w) = Raised x ->
      exists e, x = OSErr e /\ mkdir_parents (w_fs w) (parent out_path) = inl e)).
Proof.
  split; [apply save_frame_no_frames|].
  intros Htotal.
  split; [apply clamp_index_range; exact Htotal|].
  split; [unfold clamp_index; lia|].
  split; [unfold clamp_index; lia|].
  split; [unfold clamp_index; lia|].
  assert (Hshape :
    (exists rest,
      events_of (save_frame cap frame_idx out_path w)
      = EvSeek (clamp_index (v_frame_count cap) frame_idx) :: rest /\
      count is_seek rest = 0%nat) /\
    w_pos (world_of (save_frame cap frame_idx out_path w))
    = clamp_index (v_frame_count cap) frame_idx /\
    (forall x, result_of (save_frame cap frame_idx out_path w) = Raised x ->
       exists e, x = OSErr e /\ mkdir_parents (w_fs w) (parent out_path) = inl e)).
  { rewrite (save_frame_eq _ _ _ _ Htotal). cbv zeta.
    set (pos := clamp_index (v_frame_count cap) frame_idx).
    destruct (usable (v_decode cap (w_nreads w) pos)) as [f1|];
      [|destruct (usable (v_decode cap (S (w_nreads w)) pos)) as [f2|]].
    - rewrite write_frame_eq. cbn [sought w_fs w_pos w_nreads].
      destruct (mkdir_parents (w_fs w) (parent out_path)) as [e|fs1] eqn:Hmk; cbn.
      + split; [eexists; split; reflexivity|]. split; [reflexivity|].
        intros x [= <-]. eauto.
      + split; [eexists; split; reflexivity|]. split; [reflexivity|]. discriminate.
    - rewrite write_frame_eq. cbn [sought w_fs w_pos w_nreads].
      destruct (mkdir_parents (w_fs w) (parent out_path)) as [e|fs1] eqn:Hmk; cbn.
      + split; [eexists; split; reflexivity|]. split; [reflexivity|].
        intros x [= <-]. eauto.
      + split; [eexists; split; reflexivity|]. split; [reflexivity|]. discriminate.
    - cbn. split; [eexists; split; reflexivity|]. split; [reflexivity|]. discriminate. }
  destruct Hshape as (Hev & Hpos & Hraise).
  split; [exact Hev|]. split; [exact Hpos|]. split; [|exact Hraise].
  intros Hbeyond.
  rewrite !(save_frame_eq _ _ _ _ Htotal). cbv zeta.
  replace (clamp_index (v_frame_count cap) (v_frame_count cap - 1))
    with (clamp_index (v_frame_count cap) frame_idx)
    by (unfold clamp_index; lia).
  reflexivity.
Qed.

Example index_beyond_count_is_clamped :
  events_of (save_frame video_two_scenes 1000 ["scene_001_end.jpg"%string] (world0 fs_base))
  = [EvSeek 299; EvRead; EvMkdir [];
     EvImwrite ["scene_001_end.jpg"%string] (FrameData 299)].
Proof. reflexivity. Qed.

(** ** How [mkdir], [imwrite] and [save_frame] change the file system *)

Lemma fs_change_refl (W : Path -> Prop) (D : Path) (fs : FS) : fs_change W D fs fs.
Proof. intros q. by left. Qed.

Lemma fs_change_trans (W : Path -> Prop) (D : Path) (fs1 fs2 fs3 : FS) :
  fs_change W D fs1 fs2 -> fs_change W D fs2 fs3 -> fs_change W D fs1 fs3.
Proof.
  intros H12 H23 q.
  destruct (H12 q) as [E1|[(N1 & D1 & K1)|(W1 & F1 & f1 & E1)]];
    destruct (H23 q) as [E2|[(N2 & D2 & K2)|(W2 & F2 & f2 & E2)]];
    unfold is_dir in *.
  - left. congruence.
  - right. left. rewrite <- E1. auto.
  - right. right. rewrite E1 in F2. eauto.
  - right. left. rewrite E2. auto.
  - congruence.
  - rewrite D1 in F2. discriminate.
  - right. right. rewrite E2. eauto.
  - congruence.
  - right. right. eauto.
Qed.

Lemma fs_change_weaken (W W' : Path -> Prop) (D : Path) (fs fs' : FS) :
  (forall q, W q -> W' q) -> fs_change W D fs fs' -> fs_change W' D fs fs'.
Proof.
  intros HW H q. destruct (H q) as [E|[B|(Hq & F & C)]]; auto.
Qed.

Lemma fs_change_deeper (W : Path -> Prop) (D : Path) (c : string) (fs fs' : FS) :
  fs_change W D fs fs' -> fs_change W (D ++ [c]) fs fs'.
Proof.
  intros H q. destruct (H q) as [E|[(N & Hd & k & ->)|C]]; auto.
  right. left. split; [exact N|]. split; [exact Hd|].
  exists (k ++ [c]). by rewrite app_assoc.
Qed.

Lemma os_mkdir_change (W : Path -> Prop) (fs fs' : FS) (p : Path) :
  os_mkdir fs p = inr fs' -> fs_change W p fs fs'.
Proof.
  intros Hmk. apply os_mkdir_inr in Hmk as (Hnone & _ & ->).
  intros q. destruct (decide (q = p)) as [->|Hne].
  - right. left. rewrite lookup_insert_eq. split; [exact Hnone|]. split; [reflexivity|].
    exists []. by rewrite app_nil_r.
  - left. by rewrite lookup_insert_ne.
Qed.

Lemma mkdir_exist_ok_change (W : Path -> Prop) (fs fs' : FS) (p : Path) :
  mkdir_exist_ok fs p = inr fs' -> fs_change W p fs fs'.
Proof.
  intros H. apply mkdir_exist_ok_cases in H as [H|[-> _]];
    [by apply os_mkdir_change | apply fs_change_refl].
Qed.

Lemma mkdir_parents_rev_change (W : Path -> Prop) (rp : list string) :
  forall fs fs' : FS, mkdir_parents_rev fs rp = inr fs' -> fs_change W (rev rp) fs fs'.
Proof.
  induction rp as [|c rparent IH]; intros fs fs' H;
    apply mkdir_parents_rev_cases in H
      as [H|[[-> Hd]|(c' & rparent' & fs1 & Heq & Hrec & Hself)]];
    try (by apply os_mkdir_change); try apply fs_change_refl.
  injection Heq as <- <-.
  apply (fs_change_trans W _ fs fs1 fs').
  - cbn [rev]. apply fs_change_deeper, IH, Hrec.
  - by apply mkdir_exist_ok_change.
Qed.

(** [mkdir] only adds directories, and only on the way to its target. *)
Lemma mkdir_parents_change (W : Path -> Prop) (fs fs' : FS) (p : Path) :
  mkdir_parents fs p = inr fs' -> fs_change W p fs fs'.
Proof.
  unfold mkdir_parents. intros H. apply (mkdir_parents_rev_change W) in H.
  by rewrite rev_involutive in H.
Qed.

Lemma imwrite_change (D : Path) (fs : FS) (p : Path) (frame : Frame) :
  fs_change (eq p) D fs (imwrite fs p frame).2.
Proof.
  intros q. destruct (decide (q = p)) as [->|Hne]; [|left; by apply imwrite_other].
  destruct (can_write fs p) eqn:Hcan.
  - rewrite (imwrite_written _ _ _ Hcan). apply can_write_inv in Hcan as [_ Hnotdir].
    right. right. rewrite lookup_insert_eq. eauto.
  - left. by rewrite (imwrite_refused _ _ _ Hcan).
Qed.

Lemma save_frame_change (cap : Video) (frame_idx : Z) (out_path : Path) (w : World) :
  fs_change (eq out_path) (parent out_path)
    (w_fs w) (w_fs (world_of (save_frame cap frame_idx out_path w))).
Proof.
  destruct (save_frame_by_read cap frame_idx out_path w) as [_ Hcase].
  destruct (frame_read cap frame_idx w) as [frame|].
  - destruct (mkdir_parents (w_fs w) (parent out_path)) as [e|fs1] eqn:Hmk.
    + destruct Hcase as (_ & -> & _). apply fs_change_refl.
    + destruct Hcase as (_ & -> & _).
      apply (fs_change_trans _ _ _ fs1);
        [by apply mkdir_parents_change | apply imwrite_change].
  - destruct Hcase as (_ & -> & _). apply fs_change_refl.
Qed.

Lemma mkdir_parents_base (fs fs' : FS) : mkdir_parents fs [] = inr fs' -> fs' = fs.
Proof.
  unfold mkdir_parents, mkdir_parents_rev, os_mkdir, is_dir, parent.
  cbn [rev removelast app].
  destruct (fs !! []) as [[| |]|]; try discriminate. by intros [= <-].
Qed.

Lemma not_prefix_of_parent (p k : Path) : p <> [] -> parent p <> p ++ k.
Proof.
  intros Hne Heq. apply (f_equal (@length string)) in Heq.
  destruct p as [|c p'] using rev_ind; [congruence|].
  unfold parent in Heq. rewrite removelast_last, !length_app in Heq. cbn in Heq. lia.
Qed.

Lemma mkdir_parents_keeps_target (fs fs' : FS) (p : Path) :
  mkdir_parents fs (parent p) = inr fs' -> fs' !! p = fs !! p.
Proof.
  intros Hmk. destruct (decide (p = [])) as [->|Hne].
  { by rewrite (mkdir_parents_base _ _ Hmk). }
  destruct (mkdir_parents_change (fun _ => False) _ _ _ Hmk p)
    as [E|[(_ & _ & k & Hk)|(F & _)]]; [exact E | | contradiction].
  by apply not_prefix_of_parent in Hk.
Qed.

Lemma save_frame_result_cases
    (cap : Video) (frame_idx : Z) (out_path : Path) (w : World) :
  match result_of (save_frame cap frame_idx out_path w) with
  | Ok true =>
      exists frame,
        frame_read cap frame_idx w = Some frame /\
        w_fs (world_of (save_frame cap frame_idx out_path w)) !! out_path
        = Some (File frame) /\
        is_dir (w_fs (world_of (save_frame cap frame_idx out_path w))) (parent out_path)
        = true
  | Ok false =>
      w_fs (world_of (save_frame cap frame_idx out_path w)) !! out_path
      = w_fs w !! out_path
  | Raised _ =>
      w_fs (world_of (save_frame cap frame_idx out_path w)) = w_fs w
  end.
Proof.
  destruct (save_frame_by_read cap frame_idx out_path w) as [_ Hcase].
  destruct (frame_read cap frame_idx w) as [frame|].
  - destruct (mkdir_parents (w_fs w) (parent out_path)) as [e|fs1] eqn:Hmk.
    + destruct Hcase as (-> & -> & _). reflexivity.
    + destruct Hcase as (-> & -> & _). rewrite imwrite_answer.
      destruct (can_write fs1 out_path) eqn:Hcan.
      * rewrite (imwrite_written _ _ _ Hcan).
        apply can_write_inv in Hcan as [Hparent Hnotdir].
        exists frame. split; [reflexivity|].
        split; [by rewrite lookup_insert_eq|].
        unfold is_dir. rewrite lookup_insert_ne; [exact Hparent|].
        intros Heq. rewrite <- Heq, Hnotdir in Hparent. discriminate.
      * rewrite (imwrite_refused _ _ _ Hcan). by apply mkdir_parents_keeps_target.
  - destruct Hcase as (-> & -> & _). reflexivity.
Qed.

(** X4: [save_frame] tells the truth.  For an output path without
    [..]: after [True] the capture has given the call a frame, and the file
    at [out_path] holds that frame, in a directory; after [False] the entry
    at [out_path] is what it was; after an exception the file system is
    what it was. *)
Theorem save_frame_result_is_truthful
    (cap : Video) (frame_idx : Z) (out_path : Path) (w : World) :
  plain out_path = true ->
  match result_of (save_frame cap frame_idx out_path w) with
  | Ok true =>
      exists frame,
        reads_frame cap frame_idx w frame /\
        w_fs (world_of (save_frame cap frame_idx out_path w)) !! out_path
        = Some (File frame) /\
        is_dir (w_fs (world_of (save_frame cap frame_idx out_path w))) (parent out_path)
        = true
  | Ok false =>
      w_fs (world_of (save_frame cap frame_idx out_path w)) !! out_path
      = w_fs w !! out_path
  | Raised _ =>
      w_fs (world_of (save_frame cap frame_idx out_path w)) = w_fs w
  end.
Proof.
  intros _. pose proof (save_frame_result_cases cap frame_idx out_path w) as H.
  destruct (result_of (save_frame cap frame_idx out_path w)) as [[|]|x]; try exact H.
  destruct H as (frame & Hread & Hfile & Hdir).
  exists frame. by rewrite <- frame_read_answers.
Qed.

Lemma save_frame_result_is_truthful_witness :
  plain ["out"; "scene_001_mid.jpg"]%string = true /\
  exists frame,
    reads_frame video_transient 74 (world0 fs_base) frame /\
    w_fs (world_of (save_frame video_transient 74 ["out"; "scene_001_mid.jpg"]%string
                      (world0 fs_base)))
      !! ["out"; "scene_001_mid.jpg"]%string
    = Some (File frame) /\
    is_dir (w_fs (world_of (save_frame video_transient 74 ["out"; "scene_001_mid.jpg"]%string
                              (world0 fs_base)))) (parent ["out"; "scene_001_mid.jpg"]%string)
    = true.
Proof.
  split; [reflexivity|].
  exact (save_frame_result_is_truthful video_transient 74 ["out"; "scene_001_mid.jpg"]%string
           (world0 fs_base) eq_refl).
Defined.

(** X5: for an output directory without [..], a run changes the file
    system only by creating missing directories on the way to the output
    directory and by writing files of its own scenes, never over a
    directory.  Nothing that existed is removed, and no directory is
    changed. *)
Theorem run_changes_only_its_files (video : Video) (out_dir : Path) (w : World) :
  plain out_dir = true ->
  fs_change (run_path out_dir (length (v_scenes video))) out_dir
    (w_fs w) (w_fs (world_of (extract_keyframes video out_dir w))) /\
  (forall q, is_Some (w_fs w !! q) ->
     is_Some (w_fs (world_of (extract_keyframes video out_dir w)) !! q)) /\
  (forall q, is_dir (w_fs w) q = true ->
     w_fs (world_of (extract_keyframes video out_dir w)) !! q = w_fs w !! q).
Proof.
  intros _.
  assert (Hchange :
    fs_change (run_path out_dir (length (v_scenes video))) out_dir
      (w_fs w) (w_fs (world_of (extract_keyframes video out_dir w)))).
  { apply (extract_keyframes_rule
             (fun w' => fs_change (run_path out_dir (length (v_scenes video))) out_dir
                          (w_fs w) (w_fs w'))
             (fun _ => True) video out_dir); try done.
    - intros frame_idx j r w0 Hj Hw0. split; [|exact I].
      apply (fs_change_trans _ _ _ (w_fs w0)); [exact Hw0|].
      pose proof (save_frame_change video frame_idx (role_path out_dir j r) w0) as Hs.
      replace (parent (role_path out_dir j r)) with out_dir in Hs
        by (destruct r; symmetry; apply parent_join).
      eapply fs_change_weaken; [|exact Hs].
      intros q <-. exists j, r. auto.
    - apply fs_change_refl. }
  split; [exact Hchange|]. split.
  - intros q [x Hx].
    destruct (Hchange q) as [E|[(N & _)|(_ & _ & f & E)]]; [|congruence|];
      rewrite E; eauto.
  - intros q Hd.
    destruct (Hchange q) as [E|[(N & _)|(_ & F & _)]]; [exact E| |congruence].
    unfold is_dir in Hd. by rewrite N in Hd.
Qed.

Lemma run_changes_only_its_files_witness :
  plain ["out"%string] = true /\
  forall q, is_dir (w_fs (world0 fs_out_readonly)) q = true ->
    w_fs (world_of (extract_keyframes video_two_scenes ["out"%string]
                      (world0 fs_out_readonly))) !! q
    = w_fs (world0 fs_out_readonly) !! q.
Proof.
  split; [reflexivity|].
  exact (proj2 (proj2 (run_changes_only_its_files video_two_scenes ["out"%string]
                         (world0 fs_out_readonly) eq_refl))).
Defined.

(** ** Creating the directories *)

Lemma os_mkdir_missing_parent (fs : FS) (p : Path) :
  fs !! p = None -> fs !! parent p = None -> os_mkdir fs p = inl FileNotFoundError.
Proof. unfold os_mkdir. by intros -> ->. Qed.

Lemma os_mkdir_makes (fs : FS) (p : Path) :
  fs !! p = None -> fs !! parent p = Some (Dir true) ->
  os_mkdir fs p = inr (<[p := Dir true]> fs).
Proof. unfold os_mkdir. by intros -> ->. Qed.

Lemma creatable_parent (fs : FS) (d : Path) (c : string) :
  creatable fs (d ++ [c]) -> creatable fs d.
Proof.
  intros [Hbase Hway]. split; [exact Hbase|].
  intros q k ->. apply (Hway q (k ++ [c])). by rewrite app_assoc.
Qed.

(** Where the directory can be made, [mkdir] makes it. *)
Lemma mkdir_parents_rev_creatable (rp : list string) :
  forall fs : FS, creatable fs (rev rp) -> exists fs1, mkdir_parents_rev fs rp = inr fs1.
Proof.
  induction rp as [|c rparent IH]; intros fs Hcre.
  - destruct Hcre as [Hbase _]. exists fs. cbn [mkdir_parents_rev rev].
    by rewrite (os_mkdir_existing _ _ Hbase), Hbase.
  - pose proof (creatable_parent fs (rev rparent) c Hcre) as Hcre'.
    destruct Hcre as [Hbase Hway].
    cbn [mkdir_parents_rev]. cbn [rev] in *.
    set (D := rev rparent ++ [c]) in *.
    assert (Hparent : parent D = rev rparent) by apply removelast_last.
    pose proof (Hway D [] (eq_sym (app_nil_r D))) as HD.
    destruct (fs !! D) as [[b| |]|] eqn:HfsD; try contradiction.
    { exists fs. assert (Hd : is_dir fs D = true) by (unfold is_dir; by rewrite HfsD).
      by rewrite (os_mkdir_existing _ _ Hd), Hd. }
    rewrite Hparent in HD. destruct HD as [Hnone|Hdir].
    2:{ rewrite (os_mkdir_makes _ _ HfsD) by (by rewrite Hparent). eauto. }
    rewrite (os_mkdir_missing_parent _ _ HfsD) by (by rewrite Hparent).
    destruct (IH fs Hcre') as [fs1 Hrec]. rewrite Hrec.
    destruct (mkdir_parents_rev_inr _ _ _ Hrec) as [Hd1 _].
    assert (HD1 : fs1 !! D = None).
    { destruct (mkdir_parents_rev_change (fun _ => False) _ _ _ Hrec D)
        as [E|[(_ & _ & k & Hk)|(F & _)]]; [by rewrite E | | contradiction].
      apply (f_equal (@length string)) in Hk. unfold D in Hk.
      rewrite !length_app in Hk. cbn in Hk. lia. }
    assert (Hp1 : fs1 !! parent D = Some (Dir true)).
    { rewrite Hparent.
      destruct (mkdir_parents_rev_change (fun _ => False) _ _ _ Hrec (rev rparent))
        as [E|[(_ & Hnew & _)|(F & _)]]; [| exact Hnew | contradiction].
      unfold is_dir in Hd1. rewrite E, Hnone in Hd1. discriminate. }
    unfold mkdir_exist_ok. rewrite (os_mkdir_makes _ _ HD1 Hp1). eauto.
Qed.

Lemma mkdir_parents_creatable (fs : FS) (d : Path) :
  creatable fs d -> exists fs1, mkdir_parents fs d = inr fs1.
Proof.
  intros Hcre. apply mkdir_parents_rev_creatable. by rewrite rev_involutive.
Qed.

Lemma fs_base_wf : fs_wf fs_base.
Proof.
  intros p [x Hx]. unfold fs_base in Hx.
  apply lookup_singleton_Some in Hx as [<- _]. reflexivity.
Defined.

Lemma fs_base_creatable : creatable fs_base ["a"; "b"]%string.
Proof.
  split; [reflexivity|].
  intros q k Heq.
  destruct q as [|c1 [|c2 [|c3 q]]]; cbn in Heq.
  - cbn. exact I.
  - injection Heq as <- _. right. reflexivity.
  - injection Heq as <- <- _. left. reflexivity.
  - injection Heq as _ _ Heq. discriminate.
Defined.

(** X14: take an output path without [..] in a hierarchical file system
    where the directory of the path is there or can be made: the base
    directory exists, whatever exists on the way to the directory is a
    directory, and what is missing lies in a directory that is missing as
    well or is writable.  Then a call of [save_frame] that gets a frame
    from the capture calls [mkdir], which succeeds: afterwards the
    directory and every directory on the way to it exist; nothing was
    changed but missing directories on the way, made anew; if the
    directory was there nothing was changed at all, and a second [mkdir]
    changes nothing.  The call raises nothing and returns what [imwrite]
    answers: [True] with the frame in the file when the file can be
    written, [False] with nothing more changed when it cannot. *)
Theorem read_frame_is_persisted
    (cap : Video) (frame_idx : Z) (out_path : Path) (w : World) (frame : Frame) :
  plain out_path = true ->
  fs_wf (w_fs w) ->
  creatable (w_fs w) (parent out_path) ->
  reads_frame cap frame_idx w frame ->
  exists fs1 : FS,
    mkdir_parents (w_fs w) (parent out_path) = inr fs1 /\
    (forall q k : Path, parent out_path = q ++ k -> is_dir fs1 q = true) /\
    (forall q : Path,
       fs1 !! q = w_fs w !! q \/
       (w_fs w !! q = None /\ fs1 !! q = Some (Dir true) /\
        exists k, parent out_path = q ++ k)) /\
    (is_dir (w_fs w) (parent out_path) = true -> fs1 = w_fs w) /\
    mkdir_parents fs1 (parent out_path) = inr fs1 /\
    In (EvMkdir (parent out_path)) (events_of (save_frame cap frame_idx out_path w)) /\
    result_of (save_frame cap frame_idx out_path w) = Ok (can_write fs1 out_path) /\
    w_fs (world_of (save_frame cap frame_idx out_path w))
    = (if can_write fs1 out_path then <[out_path := File frame]> fs1 else fs1).
Proof.
  intros _ Hwf Hcre Hread.
  destruct (mkdir_parents_creatable _ _ Hcre) as [fs1 Hmk]. exists fs1.
  destruct (save_frame_by_read cap frame_idx out_path w) as [_ Hcase].
  apply frame_read_answers in Hread. rewrite Hread, Hmk in Hcase.
  destruct Hcase as (Hres & Hfs & reads & Hev & _).
  destruct (mkdir_parents_inr _ _ _ Hmk) as [Hd Hsub].
  split; [exact Hmk|].
  split.
  { apply (wf_ancestors fs1 (parent out_path)); [|exact Hd].
    exact (mkdir_parents_wf _ _ _ Hwf Hmk). }
  split.
  { intros q.
    destruct (mkdir_parents_change (fun _ => False) _ _ _ Hmk q) as [E|[N|(F & _)]];
      [by left | by right | contradiction]. }
  split.
  { intros Hthere. rewrite (mkdir_parents_existing _ _ Hthere) in Hmk. congruence. }
  split; [by apply mkdir_parents_existing|].
  split; [rewrite Hev; apply in_or_app; right; left; reflexivity|].
  split; [by rewrite Hres, imwrite_answer|].
  rewrite Hfs. destruct (can_write fs1 out_path) eqn:Hcan;
    [by apply imwrite_written | by apply imwrite_refused].
Qed.

Lemma read_frame_is_persisted_witness :
  plain ["a"; "b"; "scene_001_start.jpg"]%string = true /\
  fs_wf (w_fs (world0 fs_base)) /\
  creatable (w_fs (world0 fs_base)) (parent ["a"; "b"; "scene_001_start.jpg"]%string) /\
  reads_frame video_two_scenes 0 (world0 fs_base) (FrameData 0) /\
  exists fs1 : FS,
    mkdir_parents (w_fs (world0 fs_base)) (parent ["a"; "b"; "scene_001_start.jpg"]%string)
    = inr fs1 /\
    (forall q k : Path,
       parent ["a"; "b"; "scene_001_start.jpg"]%string = q ++ k -> is_dir fs1 q = true).
Proof.
  assert (Hread : reads_frame video_two_scenes 0 (world0 fs_base) (FrameData 0))
    by (split; [reflexivity | left; reflexivity]).
  split; [reflexivity|]. split; [exact fs_base_wf|]. split; [exact fs_base_creatable|].
  split; [exact Hread|].
  destruct (read_frame_is_persisted video_two_scenes 0
              ["a"; "b"; "scene_001_start.jpg"]%string (world0 fs_base) (FrameData 0)
              eq_refl fs_base_wf fs_base_creatable Hread) as (fs1 & Hmk & Hchain & _).
  exists fs1. split; [exact Hmk | exact Hchain].
Defined.

(** ** File names tell the scene and the role *)

Lemma all_digits_app (a b : string) :
  all_digits (a +:+ b) = all_digits a && all_digits b.
Proof.
  induction a as [|c a IH]; [reflexivity|].
  rewrite append_cons. cbn [all_digits]. rewrite IH. by rewrite andb_assoc.
Qed.

Lemma all_digits_zeros (k : nat) : all_digits (zeros k) = true.
Proof. induction k as [|k IH]; [reflexivity | exact IH]. Qed.

Lemma all_digits_uint (u : Decimal.uint) : all_digits (NilEmpty.string_of_uint u) = true.
Proof. induction u; cbn; auto. Qed.

Lemma all_digits_decimal (i : nat) : all_digits (decimal i) = true.
Proof.
  unfold decimal, NilZero.string_of_uint.
  destruct (Nat.to_uint i) eqn:Hu; [reflexivity | ..]; rewrite <- Hu; apply all_digits_uint.
Qed.

Lemma all_digits_format (i : nat) : all_digits (format_03d i) = true.
Proof.
  unfold format_03d. by rewrite all_digits_app, all_digits_zeros, all_digits_decimal.
Qed.

(** A numeral followed by an underscore splits in one way only. *)
Lemma digits_then_underscore (a b s t : string) :
  all_digits a = true -> all_digits b = true ->
  a +:+ String "_" s = b +:+ String "_" t -> a = b /\ s = t.
Proof.
  revert b. induction a as [|c a IH]; intros [|c' b] Ha Hb Heq.
  - by injection Heq as ->.
  - rewrite append_cons in Heq. injection Heq as <- _.
    cbn in Hb. discriminate.
  - rewrite append_cons in Heq. injection Heq as -> _.
    cbn in Ha. discriminate.
  - rewrite !append_cons in Heq. injection Heq as -> Heq.
    cbn [all_digits] in Ha, Hb.
    apply andb_true_iff in Ha as [_ Ha]. apply andb_true_iff in Hb as [_ Hb].
    destruct (IH b Ha Hb Heq) as [-> ->]. auto.
Qed.

Lemma role_path_eq (d : Path) (i : nat) (r : Role) :
  role_path d i r = path_join d ("scene_" +:+ format_03d i +:+ role_suffix r).
Proof. by destruct r. Qed.

Lemma role_suffix_underscore (r : Role) :
  exists s, role_suffix r = String "_" s.
Proof. destruct r; eauto. Qed.

Lemma role_path_inj (d : Path) (i j : nat) (r r' : Role) :
  role_path d i r = role_path d j r' -> i = j /\ r = r'.
Proof.
  rewrite !role_path_eq. unfold path_join. intros Heq.
  apply app_inj_tail in Heq as [_ Heq].
  apply (inj (String.app "scene_")) in Heq.
  destruct (role_suffix_underscore r) as [s Hs].
  destruct (role_suffix_underscore r') as [t Ht].
  rewrite Hs, Ht in Heq.
  apply digits_then_underscore in Heq as [Hnum Hsuf]; try apply all_digits_format.
  split.
  - pose proof (ordinal_of_format i) as Hi.
    rewrite Hnum, ordinal_of_format in Hi. congruence.
  - destruct r, r'; try reflexivity; cbn in Hs, Ht; congruence.
Qed.

Lemma role_path_parent (d : Path) (i : nat) (r : Role) : parent (role_path d i r) = d.
Proof. rewrite role_path_eq. apply parent_join. Qed.

Lemma role_path_not_above (d : Path) (i : nat) (r : Role) (k : Path) :
  d <> role_path d i r ++ k.
Proof.
  intros Heq. rewrite role_path_eq in Heq. unfold path_join in Heq.
  apply (f_equal (@length string)) in Heq.
  rewrite !length_app in Heq. cbn in Heq. lia.
Qed.

(** X6: the path of a role of a scene tells the scene and the role, so no
    two of the files of a run share a path; each lies directly in the
    output directory and never on the way to it. *)
Theorem role_path_injective (d : Path) (i j : nat) (r r' : Role) :
  (role_path d i r = role_path d j r' <-> i = j /\ r = r') /\
  parent (role_path d i r) = d /\
  (forall k : Path, d <> role_path d i r ++ k).
Proof.
  split; [split; [apply role_path_inj | by intros [-> ->]]|].
  split; [apply role_path_parent | apply role_path_not_above].
Qed.

(** ** A flag that says saved means a file *)

Lemma save_events_no_print (out_path : Path) (evs : list Event) (m : Message) :
  Forall (save_event out_path) evs -> ~ In (EvPrint m) evs.
Proof.
  intros Hall Hin. rewrite Forall_forall in Hall.
  apply list_elem_of_In, Hall in Hin. exact Hin.
Qed.

Lemma file_kept (W : Path -> Prop) (D : Path) (fs fs' : FS) (q : Path) :
  fs_change W D fs fs' ->
  (exists frame, fs !! q = Some (File frame)) ->
  exists frame, fs' !! q = Some (File frame).
Proof.
  intros Hch [frame Hq].
  destruct (Hch q) as [E|[(N & _)|(_ & _ & C)]]; [|congruence|exact C].
  rewrite E. eauto.
Qed.

Section Flags.

Variables (cap : Video) (d : Path).

(** What one call in the loop gives to the argument: its log has no
    printed line, a file that was there is still there, and [True] means
    the file of the call is there. *)
Lemma save_frame_for_flags (frame_idx : Z) (out_path : Path) (w : World)
    (r : Result bool) (w' : World) (evs : list Event) :
  save_frame cap frame_idx out_path w = (r, w', evs) ->
  (forall m, ~ In (EvPrint m) evs) /\
  (forall q, (exists frame, w_fs w !! q = Some (File frame)) ->
             exists frame, w_fs w' !! q = Some (File frame)) /\
  (r = Ok true -> exists frame, w_fs w' !! out_path = Some (File frame)).
Proof.
  intros Heq.
  pose proof (save_frame_by_read cap frame_idx out_path w) as [Hev _].
  pose proof (save_frame_change cap frame_idx out_path w) as Hch.
  pose proof (save_frame_result_cases cap frame_idx out_path w) as Hres.
  rewrite Heq in Hev, Hch, Hres. unfold events_of, world_of, result_of in *.
  cbn [fst snd] in *.
  split; [intros m; by apply save_events_no_print with (out_path := out_path)|].
  split; [intros q; by apply file_kept with (W := eq out_path) (D := parent out_path)|].
  intros ->. destruct Hres as (frame & _ & Hfile & _). eauto.
Qed.

Lemma scene_line_inj (i j : nat) (range range' : Z * Z * Z) (flags flags' : bool * bool * bool) :
  scene_line j range flags = scene_line i range' flags' -> j = i /\ flags = flags'.
Proof.
  destruct flags as [[a b] c], flags' as [[a' b'] c'].
  unfold scene_line. cbn. intros [= -> _ _ _ -> -> ->]. auto.
Qed.

Lemma scene_body_flags (i : nat) (scene : Scene) (w : World) :
  flags_have_files d (events_of (scene_body cap d i scene w))
    (w_fs (world_of (scene_body cap d i scene w))).
Proof.
  rewrite scene_body_eq.
  set (i1 := role_index (frame_range scene) RStart).
  set (i2 := role_index (frame_range scene) RMid).
  set (i3 := role_index (frame_range scene) REnd).
  intros j range flags r.
  destruct (save_frame cap i1 (role_path d i RStart) w) as [[r1 w1] e1] eqn:H1.
  apply save_frame_for_flags in H1 as (Hno1 & Hkeep1 & Htrue1).
  destruct r1 as [ok1|x1]; unfold events_of, world_of; cbn [fst snd];
    [|intros Hin; by apply Hno1 in Hin].
  destruct (save_frame cap i2 (role_path d i RMid) w1) as [[r2 w2] e2] eqn:H2.
  apply save_frame_for_flags in H2 as (Hno2 & Hkeep2 & Htrue2).
  destruct r2 as [ok2|x2]; cbn [fst snd].
  2:{ intros Hin. apply in_app_or in Hin as [Hin|Hin];
        [by apply Hno1 in Hin | by apply Hno2 in Hin]. }
  destruct (save_frame cap i3 (role_path d i REnd) w2) as [[r3 w3] e3] eqn:H3.
  apply save_frame_for_flags in H3 as (Hno3 & Hkeep3 & Htrue3).
  destruct r3 as [ok3|x3]; cbn [fst snd].
  2:{ intros Hin. apply in_app_or in Hin as [Hin|Hin]; [by apply Hno1 in Hin|].
      apply in_app_or in Hin as [Hin|Hin];
        [by apply Hno2 in Hin | by apply Hno3 in Hin]. }
  intros Hin Hflag.
  apply in_app_or in Hin as [Hin|Hin]; [by apply Hno1 in Hin|].
  apply in_app_or in Hin as [Hin|Hin]; [by apply Hno2 in Hin|].
  apply in_app_or in Hin as [Hin|Hin]; [by apply Hno3 in Hin|].
  destruct Hin as [Hin|[]]. symmetry in Hin.
  apply scene_line_inj in Hin as [-> ->].
  destruct r; cbn in Hflag; subst.
  - apply Hkeep3, Hkeep2, Htrue1. reflexivity.
  - apply Hkeep3, Htrue2. reflexivity.
  - apply Htrue3. reflexivity.
Qed.

Lemma scene_body_keeps_files (i : nat) (scene : Scene) (w : World) (q : Path) :
  (exists frame, w_fs w !! q = Some (File frame)) ->
  exists frame, w_fs (world_of (scene_body cap d i scene w)) !! q = Some (File frame).
Proof.
  intros Hq.
  apply (scene_body_rule cap d
           (fun w' => exists frame, w_fs w' !! q = Some (File frame))
           (fun _ => True) i (S i)); try done; [|lia].
  intros frame_idx j r w0 _ Hw0. split; [|exact I].
  destruct (save_frame cap frame_idx (role_path d j r) w0) as [[r0 w'] evs] eqn:Heq.
  apply save_frame_for_flags in Heq as (_ & Hkeep & _). by apply Hkeep.
Qed.

Lemma scene_loop_keeps_files (scenes : list Scene) (i : nat) (w : World) (q : Path) :
  (exists frame, w_fs w !! q = Some (File frame)) ->
  exists frame, w_fs (world_of (scene_loop cap d i scenes w)) !! q = Some (File frame).
Proof.
  intros Hq.
  apply (scene_loop_rule cap d
           (fun w' => exists frame, w_fs w' !! q = Some (File frame))
           (fun _ => True) i (i + length scenes)); try done.
  intros frame_idx j r w0 _ Hw0. split; [|exact I].
  destruct (save_frame cap frame_idx (role_path d j r) w0) as [[r0 w'] evs] eqn:Heq.
  apply save_frame_for_flags in Heq as (_ & Hkeep & _). by apply Hkeep.
Qed.

Lemma scene_loop_flags (scenes : list Scene) :
  forall (i : nat) (w : World),
    flags_have_files d (events_of (scene_loop cap d i scenes w))
      (w_fs (world_of (scene_loop cap d i scenes w))).
Proof.
  induction scenes as [|scene rest IH]; intros i w.
  - intros j range flags r [].
  - rewrite scene_loop_cons.
    pose proof (scene_body_flags i scene w) as Hbody.
    destruct (scene_body cap d i scene w) as [[[[]|x] w1] e1]; [|exact Hbody].
    pose proof (IH (S i) w1) as Hrest.
    pose proof (scene_loop_keeps_files rest (S i) w1) as Hkeep.
    destruct (scene_loop cap d (S i) rest w1) as [[r2 w2] e2].
    unfold after_events, events_of, world_of in *. cbn [fst snd] in *.
    intros j range flags r Hin Hflag.
    apply in_app_or in Hin as [Hin|Hin].
    + apply Hkeep. by apply (Hbody j range flags r).
    + by apply (Hrest j range flags r).
Qed.

End Flags.

(** X7: when a line of the log says that a role of a scene was saved, the
    file of that role is in the file system at the end of the run, also
    when an exception ends the run at a later scene. *)
Theorem saved_flags_have_files
    (video : Video) (out_dir : Path) (w : World)
    (j : nat) (range : Z * Z * Z) (flags : bool * bool * bool) (r : Role) :
  In (scene_line j range flags) (events_of (extract_keyframes video out_dir w)) ->
  role_flag flags r = true ->
  exists frame,
    w_fs (world_of (extract_keyframes video out_dir w)) !! role_path out_dir j r
    = Some (File frame).
Proof.
  destruct (v_scenes video) as [|scene rest] eqn:Hscenes.
  { rewrite (extract_keyframes_no_scenes _ _ _ Hscenes). cbn.
    intros [Hin|[]]. discriminate. }
  assert (Hne : v_scenes video <> []) by congruence.
  destruct (v_opens video) eqn:Hopen.
  2:{ rewrite (extract_keyframes_not_opened _ _ _ Hne Hopen). cbn.
      intros [Hin|[]]. discriminate. }
  rewrite (extract_keyframes_opened _ _ _ Hne Hopen).
  pose proof (scene_loop_flags video out_dir (v_scenes video) 1 w) as Hloop.
  destruct (scene_loop video out_dir 1 (v_scenes video) w) as [[[[]|x] w1] e1];
    unfold events_of, world_of in *; cbn [fst snd] in *; intros Hin Hflag.
  - apply in_app_or in Hin as [Hin|Hin].
    { cbn in Hin. destruct Hin as [Hin|[Hin|[]]]; discriminate. }
    apply in_app_or in Hin as [Hin|Hin]; [by apply (Hloop j range flags r)|].
    cbn in Hin. destruct Hin as [Hin|[Hin|[]]]; discriminate.
  - apply in_app_or in Hin as [Hin|Hin]; [|by apply (Hloop j range flags r)].
    cbn in Hin. destruct Hin as [Hin|[Hin|[]]]; discriminate.
Qed.

Lemma saved_flags_have_files_witness :
  In (scene_line 1 (0, 74, 149) (true, true, true))
    (events_of (extract_keyframes video_two_scenes ["out"%string] (world0 fs_base))) /\
  role_flag (true, true, true) RMid = true /\
  exists frame,
    w_fs (world_of (extract_keyframes video_two_scenes ["out"%string] (world0 fs_base)))
      !! role_path ["out"%string] 1 RMid
    = Some (File frame).
Proof.
  assert (Hin : In (scene_line 1 (0, 74, 149) (true, true, true))
                  (events_of (extract_keyframes video_two_scenes ["out"%string]
                                (world0 fs_base))))
    by (vm_compute; do 14 right; left; reflexivity).
  split; [exact Hin|]. split; [reflexivity|].
  exact (saved_flags_have_files video_two_scenes ["out"%string] (world0 fs_base)
           1 (0, 74, 149) (true, true, true) RMid Hin eq_refl).
Defined.

(** ** Every outcome is recorded *)

Section Outcomes.

Variables (cap : Video) (d : Path) (fs1 : FS).

Lemma follows_more (written written' : Path -> Prop) (fs : FS) :
  (forall q, written q -> written' q) ->
  follows d fs1 written fs -> follows d fs1 written' fs.
Proof.
  intros Hsub (fs2 & Hmk & Hsame). exists fs2. split; [exact Hmk|].
  intros q Hq. apply Hsame. intros Hw. apply Hq, Hsub, Hw.
Qed.

Lemma frame_read_none_explained (frame_idx : Z) (w : World) :
  frame_read cap frame_idx w = None ->
  v_frame_count cap <= 0 \/ fails_twice cap (clamp_index (v_frame_count cap) frame_idx).
Proof.
  unfold frame_read, first_read, second_read.
  destruct (Z.leb_spec (v_frame_count cap) 0) as [Hle|Hlt]; [auto|].
  destruct (usable (v_decode cap (w_nreads w) _)) eqn:H1; [discriminate|].
  intros H2. right. exists (w_nreads w). by rewrite <- !usable_none.
Qed.

Lemma reads_frame_gives (frame_idx : Z) (w : World) (frame : Frame) :
  reads_frame cap frame_idx w frame ->
  0 < v_frame_count cap /\ gives_frame cap (clamp_index (v_frame_count cap) frame_idx).
Proof.
  intros (Htotal & [H|[_ H]]); (split; [exact Htotal|]);
    [exists (w_nreads w) | exists (S (w_nreads w))]; eauto.
Qed.

(** One call of the loop: its flag, and the file system it leaves. *)
Lemma save_frame_outcome
    (written : Path -> Prop) (frame_idx : Z) (j : nat) (r : Role) (w : World) :
  follows d fs1 written (w_fs w) ->
  ~ written (role_path d j r) ->
  ~ written d ->
  exists flag : bool,
    result_of (save_frame cap frame_idx (role_path d j r) w) = Ok flag /\
    flag_explained cap fs1 (clamp_index (v_frame_count cap) frame_idx)
      (role_path d j r) flag /\
    follows d fs1 (fun q => written q \/ q = role_path d j r)
      (w_fs (world_of (save_frame cap frame_idx (role_path d j r) w))) /\
    scene_flags (events_of (save_frame cap frame_idx (role_path d j r) w)) = [].
Proof.
  intros (fs2 & Hmk & Hsame) Hp Hd.
  destruct (save_frame_by_read cap frame_idx (role_path d j r) w) as [Hev Hcase].
  apply save_events_no_lines in Hev as [_ Hflags].
  rewrite role_path_parent, Hmk in Hcase.
  destruct (frame_read cap frame_idx w) as [frame|] eqn:Hread.
  - destruct Hcase as (Hres & Hfs & _).
    apply frame_read_answers, reads_frame_gives in Hread as [Htotal Hgives].
    assert (Hcan : can_write fs2 (role_path d j r) = can_write fs1 (role_path d j r)).
    { apply can_write_agree; rewrite ?role_path_parent; by apply Hsame. }
    exists (can_write fs1 (role_path d j r)).
    split; [by rewrite Hres, imwrite_answer, Hcan|].
    split; [unfold flag_explained; destruct (can_write fs1 (role_path d j r)); auto|].
    split; [|exact Hflags].
    exists (imwrite fs2 (role_path d j r) frame).2. rewrite Hfs. split.
    + apply mkdir_parents_existing. rewrite role_path_eq. apply imwrite_keeps_dir.
      by apply mkdir_parents_inr in Hmk as [Hdir _].
    + intros q Hq. rewrite imwrite_other by tauto. apply Hsame. tauto.
  - destruct Hcase as (Hres & Hfs & _).
    exists false. split; [exact Hres|].
    split; [unfold flag_explained; apply frame_read_none_explained in Hread; tauto|].
    split; [|exact Hflags].
    rewrite Hfs. exists fs2. split; [exact Hmk|]. intros q Hq. apply Hsame. tauto.
Qed.

Lemma run_path_not_dir (n : nat) : ~ run_path d n d.
Proof.
  intros (j & r & _ & Heq). apply (role_path_not_above d j r []). by rewrite app_nil_r.
Qed.

(** One turn of the loop, for the scene of ordinal [S n]. *)
Lemma scene_body_outcomes (n : nat) (scene : Scene) (w : World) :
  follows d fs1 (run_path d n) (w_fs w) ->
  exists flags : bool * bool * bool,
    result_of (scene_body cap d (S n) scene w) = Ok tt /\
    scene_flags (events_of (scene_body cap d (S n) scene w)) = [flags] /\
    (forall r : Role,
       flag_explained cap fs1
         (clamp_index (v_frame_count cap) (role_index (frame_range scene) r))
         (role_path d (S n) r) (role_flag flags r)) /\
    follows d fs1 (run_path d (S n)) (w_fs (world_of (scene_body cap d (S n) scene w))).
Proof.
  intros Hw. rewrite scene_body_eq. unfold scene_line.
  set (i1 := role_index (frame_range scene) RStart).
  set (i2 := role_index (frame_range scene) RMid).
  set (i3 := role_index (frame_range scene) REnd).
  assert (Hnew : forall r, ~ run_path d n (role_path d (S n) r)).
  { intros r (j & r' & Hj & Heq). apply role_path_inj in Heq as [Heq _]. lia. }
  assert (Hne : forall r r', r <> r' -> role_path d (S n) r <> role_path d (S n) r').
  { intros r0 r' Hr Heq. by apply role_path_inj in Heq as [_ Heq]. }
  assert (Hdir : forall r, d <> role_path d (S n) r).
  { intros r Heq. apply (role_path_not_above d (S n) r []). by rewrite app_nil_r. }
  pose proof (run_path_not_dir n) as Hd.
  destruct (save_frame_outcome _ i1 (S n) RStart w Hw (Hnew RStart) Hd)
    as (ok1 & Hr1 & Hx1 & Hw1 & Hl1).
  destruct (save_frame cap i1 (role_path d (S n) RStart) w) as [[r1 w1] e1].
  unfold result_of, world_of, events_of in Hr1, Hw1, Hl1. cbn [fst snd] in Hr1, Hw1, Hl1.
  subst r1.
  destruct (save_frame_outcome _ i2 (S n) RMid w1 Hw1) as (ok2 & Hr2 & Hx2 & Hw2 & Hl2).
  { intros [H|H]; [by apply (Hnew RMid) | by apply (Hne RMid RStart)]. }
  { intros [H|H]; [by apply Hd | by apply (Hdir RStart)]. }
  destruct (save_frame cap i2 (role_path d (S n) RMid) w1) as [[r2 w2] e2].
  unfold result_of, world_of, events_of in Hr2, Hw2, Hl2. cbn [fst snd] in Hr2, Hw2, Hl2.
  subst r2.
  destruct (save_frame_outcome _ i3 (S n) REnd w2 Hw2) as (ok3 & Hr3 & Hx3 & Hw3 & Hl3).
  { intros [[H|H]|H];
      [by apply (Hnew REnd) | by apply (Hne REnd RStart) | by apply (Hne REnd RMid)]. }
  { intros [[H|H]|H]; [by apply Hd | by apply (Hdir RStart) | by apply (Hdir RMid)]. }
  destruct (save_frame cap i3 (role_path d (S n) REnd) w2) as [[r3 w3] e3].
  unfold result_of, world_of, events_of in *. cbn [fst snd] in *.
  subst r3. cbn [fst snd].
  exists (ok1, ok2, ok3).
  split; [reflexivity|].
  split; [by rewrite !scene_flags_app, Hl1, Hl2, Hl3|].
  split; [by intros []|].
  eapply follows_more; [|exact Hw3].
  intros q [[[(j & r & Hj & ->)| ->]| ->]| ->].
  - exists j, r. split; [lia | reflexivity].
  - exists (S n), RStart. split; [lia | reflexivity].
  - exists (S n), RMid. split; [lia | reflexivity].
  - exists (S n), REnd. split; [lia | reflexivity].
Qed.

(** The whole loop. *)
Lemma scene_loop_outcomes (scenes : list Scene) :
  forall (n : nat) (w : World),
    follows d fs1 (run_path d n) (w_fs w) ->
    result_of (scene_loop cap d (S n) scenes w) = Ok tt /\
    length (scene_flags (events_of (scene_loop cap d (S n) scenes w))) = length scenes /\
    forall (k : nat) (scene : Scene) (flags : bool * bool * bool) (r : Role),
      scenes !! k = Some scene ->
      scene_flags (events_of (scene_loop cap d (S n) scenes w)) !! k = Some flags ->
      flag_explained cap fs1
        (clamp_index (v_frame_count cap) (role_index (frame_range scene) r))
        (role_path d (S n + k) r) (role_flag flags r).
Proof.
  induction scenes as [|scene rest IH]; intros n w Hw.
  - cbn. repeat split. intros k scene flags r Hk. discriminate.
  - rewrite scene_loop_cons.
    destruct (scene_body_outcomes n scene w Hw) as (flags1 & Hres1 & Hflags1 & Hx1 & Hw1).
    destruct (scene_body cap d (S n) scene w) as [[r1 w1] e1].
    unfold result_of, world_of, events_of in Hres1, Hflags1, Hw1. cbn [fst snd] in *.
    subst r1.
    destruct (IH (S n) w1 Hw1) as (Hres2 & Hlen2 & Hx2).
    destruct (scene_loop cap d (S (S n)) rest w1) as [[r2 w2] e2].
    unfold after_events, result_of, world_of, events_of in *. cbn [fst snd] in *.
    rewrite scene_flags_app, Hflags1. cbn [app length].
    split; [exact Hres2|]. split; [by rewrite Hlen2|].
    intros [|k] scene' flags r Hk Hf; cbn in Hk, Hf.
    + injection Hk as <-. injection Hf as <-. rewrite Nat.add_0_r. apply Hx1.
    + replace (S n + S k)%nat with (S (S n) + k)%nat by lia. by apply (Hx2 k).
Qed.

End Outcomes.

Lemma follows_start (d : Path) (fs fs1 : FS) :
  mkdir_parents fs d = inr fs1 -> follows d fs1 (run_path d 0) fs.
Proof. intros Hmk. exists fs1. auto. Qed.

(** X13: take a run whose output directory, without [..], is there or
    can be created, [fs1] being the file system with the directory in it.
    When there is no scene or the capture opens, the run returns normally
    and prints exactly one line a scene, in order and numbered from 1, with
    the three indices and the three flags of the scene, whatever reads or
    writes fail.  Each flag is explained by its own call: it is [True] only
    if the video has frames, some read at the clamped index of the role
    gives a frame and the file of the role can be written in [fs1]; it is
    [False] only if the video has no frames, two reads in a row at that
    index fail, or that file cannot be written.  The only exception of such
    a run is the open error, raised exactly when there are scenes and the
    capture does not open. *)
Theorem run_records_every_outcome
    (video : Video) (out_dir : Path) (w : World) (fs1 : FS) :
  plain out_dir = true ->
  mkdir_parents (w_fs w) out_dir = inr fs1 ->
  (v_scenes video = [] \/ v_opens video = true ->
   result_of (extract_keyframes video out_dir w) = Ok tt /\
   scene_keys (events_of (extract_keyframes video out_dir w))
   = expected_keys 1 (v_scenes video) /\
   length (scene_flags (events_of (extract_keyframes video out_dir w)))
   = length (v_scenes video) /\
   (forall (k : nat) (scene : Scene) (flags : bool * bool * bool) (r : Role),
      v_scenes video !! k = Some scene ->
      scene_flags (events_of (extract_keyframes video out_dir w)) !! k = Some flags ->
      flag_explained video fs1
        (clamp_index (v_frame_count video) (role_index (frame_range scene) r))
        (role_path out_dir (S k) r) (role_flag flags r))) /\
  (v_scenes video <> [] -> v_opens video = false ->
   extract_keyframes video out_dir w = (Raised RuntimeError, w, [EvOpen])) /\
  (forall x, result_of (extract_keyframes video out_dir w) = Raised x ->
     x = RuntimeError /\ v_scenes video <> [] /\ v_opens video = false).
Proof.
  intros _ Hmk.
  destruct (v_scenes video) as [|scene rest] eqn:Hscenes.
  { rewrite (extract_keyframes_no_scenes _ _ _ Hscenes). cbn.
    split; [|split; [congruence | discriminate]].
    intros _. repeat split. intros k scene flags r Hk. discriminate. }
  assert (Hne : v_scenes video <> []) by congruence.
  destruct (v_opens video) eqn:Hopen.
  2:{ rewrite (extract_keyframes_not_opened _ _ _ Hne Hopen). cbn.
      split; [intros [|]; discriminate|]. split; [auto|].
      intros x [= <-]. auto. }
  rewrite (extract_keyframes_opened _ _ _ Hne Hopen), Hscenes.
  destruct (scene_loop_outcomes video out_dir fs1 (scene :: rest) 0 w
              (follows_start _ _ _ Hmk)) as (Hres & Hlen & Hx).
  destruct (scene_loop video out_dir 1 (scene :: rest) w) as [[r1 w1] e1] eqn:Hloop.
  apply scene_loop_spec in Hloop as (_ & Hkeys & _ & _).
  unfold result_of, events_of in *. cbn [fst snd] in *. subst r1.
  split; [|split; [congruence | discriminate]].
  intros _. split; [reflexivity|].
  assert (Hflags : scene_flags ([EvOpen; EvPrint (MsgTotals (length (scene :: rest))
                                                   (v_frame_count video))]
                                ++ e1 ++ [EvRelease; EvPrint (MsgDone out_dir)])
                   = scene_flags e1).
  { rewrite !scene_flags_app. cbn. by rewrite app_nil_r. }
  assert (Hk : scene_keys ([EvOpen; EvPrint (MsgTotals (length (scene :: rest))
                                               (v_frame_count video))]
                           ++ e1 ++ [EvRelease; EvPrint (MsgDone out_dir)])
               = expected_keys 1 (scene :: rest)).
  { rewrite !scene_keys_app, Hkeys. cbn. by rewrite app_nil_r. }
  split; [exact Hk|].
  change (length (scene_flags ([EvOpen; EvPrint (MsgTotals (length (scene :: rest))
                                                   (v_frame_count video))]
                               ++ e1 ++ [EvRelease; EvPrint (MsgDone out_dir)]))
          = length (scene :: rest) /\
          forall (k : nat) (scene0 : Scene) (flags : bool * bool * bool) (r : Role),
            (scene :: rest) !! k = Some scene0 ->
            scene_flags ([EvOpen; EvPrint (MsgTotals (length (scene :: rest))
                                              (v_frame_count video))]
                         ++ e1 ++ [EvRelease; EvPrint (MsgDone out_dir)]) !! k = Some flags ->
            flag_explained video fs1
              (clamp_index (v_frame_count video) (role_index (frame_range scene0) r))
              (role_path out_dir (S k) r) (role_flag flags r)).
  rewrite Hflags. split; [exact Hlen|].
  intros k scene' flags r Hk' Hf. exact (Hx k scene' flags r Hk' Hf).
Qed.

Lemma mkdir_out_locked :
  mkdir_parents (w_fs (world0 fs_locked_file)) ["out"%string] = inr fs_locked_file.
Proof. vm_compute. reflexivity. Defined.

Lemma run_records_every_outcome_witness :
  plain ["out"%string] = true /\
  mkdir_parents (w_fs (world0 fs_locked_file)) ["out"%string] = inr fs_locked_file /\
  result_of (extract_keyframes video_bad_middle ["out"%string] (world0 fs_locked_file))
  = Ok tt /\
  scene_keys (events_of (extract_keyframes video_bad_middle ["out"%string]
                           (world0 fs_locked_file)))
  = [(1%nat, (0, 74, 149)); (2%nat, (150, 224, 299))] /\
  flag_explained video_bad_middle fs_locked_file 74
    ["out"; "scene_001_mid.jpg"]%string false.
Proof.
  assert (Hplain : plain ["out"%string] = true) by reflexivity.
  split; [exact Hplain|]. split; [exact mkdir_out_locked|].
  pose proof (proj1 (run_records_every_outcome video_bad_middle ["out"%string]
                       (world0 fs_locked_file) fs_locked_file Hplain mkdir_out_locked)
                (or_intror eq_refl)) as H.
  split; [exact (proj1 H)|]. split; [exact (proj1 (proj2 H))|].
  exact (proj2 (proj2 (proj2 H)) 0%nat (tc 0, tc 150) (true, false, true) RMid
           eq_refl eq_refl).
Defined.

Example mixed_outcomes_are_recorded :
  scene_flags (events_of (extract_keyframes video_bad_middle ["out"%string]
                            (world0 fs_locked_file)))
  = [(true, false, true); (true, true, false)] /\
  result_of (extract_keyframes video_bad_middle ["out"%string] (world0 fs_locked_file))
  = Ok tt.
Proof. vm_compute. auto. Qed.

(** ** A run in which nothing goes wrong *)

Lemma overwritten_twice (old : option Node) (frame : Frame) :
  overwritten (overwritten old frame) frame = overwritten old frame.
Proof. by destruct old as [[| |]|]. Qed.

Lemma overwritten_not_dir (old : option Node) (frame : Frame) (b : bool) :
  old <> Some (Dir b) -> overwritten old frame <> Some (Dir b).
Proof. by destruct old as [[| |]|]. Qed.

(** In a writable directory, what [imwrite] leaves at its path. *)
Lemma imwrite_at (fs : FS) (p : Path) (frame : Frame) :
  fs !! parent p = Some (Dir true) ->
  is_dir fs p = false ->
  (imwrite fs p frame).2 !! p = overwritten (fs !! p) frame.
Proof.
  unfold imwrite, is_dir. intros ->.
  destruct (fs !! p) as [[| |]|] eqn:Hp; try discriminate; intros _; cbn;
    rewrite ?lookup_insert_eq; auto.
Qed.

Section Happy.

Variables (cap : Video) (d : Path) (g : Z -> Frame).

Hypothesis has_frames : 0 < v_frame_count cap.
Hypothesis reads_ok : reads_frame_at cap g.

Lemma save_frame_happy (frame_idx : Z) (j : nat) (r : Role) (w : World) (fs1 : FS) :
  out_dir_ready d (w_fs w) fs1 ->
  result_of (save_frame cap frame_idx (role_path d j r) w)
  = Ok (can_write fs1 (role_path d j r)) /\
  w_fs (world_of (save_frame cap frame_idx (role_path d j r) w))
  = (imwrite fs1 (role_path d j r) (g (clamp_index (v_frame_count cap) frame_idx))).2 /\
  scene_flags (events_of (save_frame cap frame_idx (role_path d j r) w)) = [].
Proof.
  intros (Hmk & Hdir & Hfree).
  split; [|split].
  3:{ destruct (save_frame_by_read cap frame_idx (role_path d j r) w) as [Hev _].
      by apply save_events_no_lines in Hev as [_ Hflags]. }
  all: rewrite (save_frame_eq _ _ _ _ has_frames); cbv zeta;
    destruct (reads_ok (w_nreads w) (clamp_index (v_frame_count cap) frame_idx))
      as [H1|[H1 H2]]; rewrite H1, ?H2;
    rewrite write_frame_eq, role_path_parent; cbn [sought w_fs w_pos w_nreads];
    rewrite Hmk; unfold after_events, result_of, world_of; cbn [fst snd w_fs];
    rewrite ?imwrite_answer; reflexivity.
Qed.

Lemma role_path_not_dir_path (j : nat) (r : Role) : role_path d j r <> d.
Proof. intros Heq. apply (role_path_not_above d j r []). by rewrite app_nil_r. Qed.

Lemma ready_after_write (fs1 : FS) (j : nat) (r : Role) (frame : Frame) :
  fs1 !! d = Some (Dir true) ->
  (forall (j' : nat) (r' : Role), is_dir fs1 (role_path d j' r') = false) ->
  out_dir_ready d (imwrite fs1 (role_path d j r) frame).2
    (imwrite fs1 (role_path d j r) frame).2.
Proof.
  intros Hdir Hfree.
  assert (Hd : (imwrite fs1 (role_path d j r) frame).2 !! d = Some (Dir true)).
  { rewrite imwrite_other; [exact Hdir|]. apply not_eq_sym, role_path_not_dir_path. }
  split; [apply mkdir_parents_existing; unfold is_dir; by rewrite Hd|].
  split; [exact Hd|].
  intros j' r'. unfold is_dir.
  destruct (decide (role_path d j' r' = role_path d j r)) as [->|Hne'].
  - rewrite imwrite_at; [| by rewrite role_path_parent | apply Hfree].
    specialize (Hfree j r). unfold is_dir in Hfree.
    by destruct (fs1 !! role_path d j r) as [[| |]|].
  - rewrite imwrite_other by exact Hne'. apply Hfree.
Qed.

Lemma after_scene_other (fs1 : FS) (i : nat) (scene : Scene) (q : Path) :
  (forall r, q <> role_path d i r) -> after_scene cap d g fs1 i scene !! q = fs1 !! q.
Proof.
  intros Hq. unfold after_scene. rewrite !imwrite_other; [reflexivity | ..]; apply Hq.
Qed.

Lemma after_scene_file (fs1 : FS) (i : nat) (scene : Scene) (r : Role) :
  fs1 !! d = Some (Dir true) ->
  (forall (j' : nat) (r' : Role), is_dir fs1 (role_path d j' r') = false) ->
  after_scene cap d g fs1 i scene !! role_path d i r
  = overwritten (fs1 !! role_path d i r) (role_frame cap g scene r).
Proof.
  intros Hdir Hfree. unfold after_scene.
  set (f1 := role_frame cap g scene RStart).
  set (f2 := role_frame cap g scene RMid).
  set (f3 := role_frame cap g scene REnd).
  destruct (ready_after_write fs1 i RStart f1 Hdir Hfree) as (_ & Hdir1 & Hfree1).
  destruct (ready_after_write _ i RMid f2 Hdir1 Hfree1) as (_ & Hdir2 & Hfree2).
  assert (Hne : forall r r', r <> r' -> role_path d i r <> role_path d i r').
  { intros r0 r' Hr Heq. by apply role_path_inj in Heq as [_ Heq]. }
  destruct r.
  - rewrite !imwrite_other by (apply Hne; discriminate).
    apply imwrite_at; [by rewrite role_path_parent | apply Hfree].
  - rewrite imwrite_other by (apply Hne; discriminate).
    rewrite imwrite_at; [| by rewrite role_path_parent | apply Hfree1].
    by rewrite imwrite_other by (apply Hne; discriminate).
  - rewrite imwrite_at; [| by rewrite role_path_parent | apply Hfree2].
    by rewrite !imwrite_other by (apply Hne; discriminate).
Qed.

Lemma can_write_later (fs fs' : FS) (j : nat) (r : Role) :
  fs' !! d = fs !! d ->
  fs' !! role_path d j r = fs !! role_path d j r ->
  can_write fs' (role_path d j r) = can_write fs (role_path d j r).
Proof. intros Hd Hp. apply can_write_agree; by rewrite ?role_path_parent. Qed.

Lemma scene_body_happy (i : nat) (scene : Scene) (w : World) (fs1 : FS) :
  out_dir_ready d (w_fs w) fs1 ->
  result_of (scene_body cap d i scene w) = Ok tt /\
  w_fs (world_of (scene_body cap d i scene w)) = after_scene cap d g fs1 i scene /\
  scene_flags (events_of (scene_body cap d i scene w)) = [write_flags fs1 d i] /\
  out_dir_ready d (after_scene cap d g fs1 i scene) (after_scene cap d g fs1 i scene).
Proof.
  intros Hready. rewrite scene_body_eq. unfold scene_line, after_scene, write_flags.
  unfold role_frame.
  set (i1 := role_index (frame_range scene) RStart).
  set (i2 := role_index (frame_range scene) RMid).
  set (i3 := role_index (frame_range scene) REnd).
  assert (Hne : forall r r', r <> r' -> role_path d i r <> role_path d i r').
  { intros r0 r' Hr Heq. by apply role_path_inj in Heq as [_ Heq]. }
  destruct (save_frame_happy i1 i RStart w fs1 Hready) as (Hr1 & Hf1 & Hl1).
  destruct Hready as (_ & Hdir & Hfree).
  pose proof (ready_after_write fs1 i RStart (g (clamp_index (v_frame_count cap) i1)) Hdir Hfree)
    as Hready1.
  destruct (save_frame cap i1 (role_path d i RStart) w) as [[r1 w1] e1].
  unfold result_of, world_of, events_of in Hr1, Hf1, Hl1. cbn [fst snd] in Hr1, Hf1, Hl1.
  subst r1. rewrite <- Hf1 in Hready1 at 1.
  destruct (save_frame_happy i2 i RMid w1 _ Hready1) as (Hr2 & Hf2 & Hl2).
  destruct Hready1 as (_ & Hdir1 & Hfree1).
  pose proof (ready_after_write _ i RMid (g (clamp_index (v_frame_count cap) i2)) Hdir1 Hfree1)
    as Hready2.
  destruct (save_frame cap i2 (role_path d i RMid) w1) as [[r2 w2] e2].
  unfold result_of, world_of, events_of in Hr2, Hf2, Hl2. cbn [fst snd] in Hr2, Hf2, Hl2.
  subst r2. rewrite <- Hf2 in Hready2 at 1.
  destruct (save_frame_happy i3 i REnd w2 _ Hready2) as (Hr3 & Hf3 & Hl3).
  destruct Hready2 as (_ & Hdir2 & Hfree2).
  pose proof (ready_after_write _ i REnd (g (clamp_index (v_frame_count cap) i3)) Hdir2 Hfree2)
    as Hready3.
  destruct (save_frame cap i3 (role_path d i REnd) w2) as [[r3 w3] e3].
  unfold result_of, world_of, events_of in *. cbn [fst snd] in *.
  subst r3. cbn [fst snd].
  split; [reflexivity|]. split; [exact Hf3|].
  split; [|exact Hready3].
  rewrite !scene_flags_app, Hl1, Hl2, Hl3. cbn [app scene_flags].
  rewrite (can_write_later fs1 _ i RMid);
    [| by rewrite Hdir1, Hdir | apply imwrite_other, Hne; discriminate].
  rewrite (can_write_later fs1 _ i REnd);
    [reflexivity | by rewrite Hdir2, Hdir |].
  rewrite !imwrite_other by (apply Hne; discriminate). reflexivity.
Qed.

Lemma scene_loop_happy (scenes : list Scene) :
  forall (i : nat) (w : World) (fs1 : FS),
    out_dir_ready d (w_fs w) fs1 ->
    result_of (scene_loop cap d i scenes w) = Ok tt /\
    scene_flags (events_of (scene_loop cap d i scenes w))
    = map (write_flags fs1 d) (seq i (length scenes)) /\
    (forall (k : nat) (scene : Scene) (r : Role),
       scenes !! k = Some scene ->
       w_fs (world_of (scene_loop cap d i scenes w)) !! role_path d (i + k) r
       = overwritten (fs1 !! role_path d (i + k) r) (role_frame cap g scene r)) /\
    (forall q : Path,
       (forall (k : nat) (r : Role), (k < length scenes)%nat -> q <> role_path d (i + k) r) ->
       w_fs (world_of (scene_loop cap d i scenes w)) !! q
       = match scenes with [] => w_fs w | _ => fs1 end !! q).
Proof.
  induction scenes as [|scene rest IH]; intros i w fs1 Hready.
  - cbn. repeat split; auto. intros k scene r Hk. discriminate.
  - rewrite scene_loop_cons.
    destruct (scene_body_happy i scene w fs1 Hready) as (Hres1 & Hfs1 & Hflags1 & Hready1).
    destruct Hready as (_ & Hdir & Hfree).
    destruct (scene_body cap d i scene w) as [[r1 w1] e1].
    unfold result_of, world_of, events_of in Hres1, Hfs1, Hflags1. cbn [fst snd] in *.
    subst r1. rewrite <- Hfs1 in Hready1 at 1.
    destruct (IH (S i) w1 _ Hready1) as (Hres2 & Hflags2 & Hfiles2 & Hother2).
    destruct (scene_loop cap d (S i) rest w1) as [[r2 w2] e2].
    unfold after_events, result_of, world_of, events_of in *. cbn [fst snd] in *.
    assert (Hlater : forall (j : nat) (r : Role), (i < j)%nat ->
              after_scene cap d g fs1 i scene !! role_path d j r = fs1 !! role_path d j r).
    { intros j r Hj. apply after_scene_other. intros r' Heq.
      apply role_path_inj in Heq as [Heq _]. lia. }
    assert (Hd3 : after_scene cap d g fs1 i scene !! d = fs1 !! d).
    { apply after_scene_other. intros r. apply not_eq_sym, role_path_not_dir_path. }
    assert (Hother2' : forall q,
              (forall k r, (k < length rest)%nat -> q <> role_path d (S i + k) r) ->
              w_fs w2 !! q = w_fs w1 !! q).
    { intros q Hq. rewrite (Hother2 q Hq). rewrite Hfs1. by destruct rest. }
    split; [exact Hres2|].
    split.
    { rewrite scene_flags_app, Hflags1, Hflags2. cbn [length seq map app]. f_equal.
      apply map_ext_in. intros j Hj. apply in_seq in Hj.
      unfold write_flags. rewrite !(can_write_later fs1 (after_scene cap d g fs1 i scene));
        try reflexivity; try exact Hd3; apply Hlater; lia. }
    split.
    + intros [|k] scene' r Hk.
      * cbn in Hk. injection Hk as <-. rewrite Nat.add_0_r.
        rewrite Hother2', Hfs1; [by apply after_scene_file|].
        intros k r' _ Heq. apply role_path_inj in Heq as [Heq _]. lia.
      * cbn in Hk. replace (i + S k)%nat with (S i + k)%nat by lia.
        rewrite (Hfiles2 k scene' r Hk), Hlater by lia. reflexivity.
    + intros q Hq. rewrite Hother2', Hfs1.
      * apply after_scene_other. intros r.
        pose proof (Hq 0%nat r) as Hq0. rewrite Nat.add_0_r in Hq0. apply Hq0.
        cbn [length]. lia.
      * intros k r Hk. replace (S i + k)%nat with (i + S k)%nat by lia.
        apply Hq. cbn [length]. lia.
Qed.

End Happy.

Lemma scene_paths_stay_free (d : Path) (fs fs1 : FS) :
  mkdir_parents fs d = inr fs1 ->
  (forall (j : nat) (r : Role), is_dir fs (role_path d j r) = false) ->
  forall (j : nat) (r : Role), is_dir fs1 (role_path d j r) = false.
Proof.
  intros Hmk Hfree j r. unfold is_dir.
  rewrite (mkdir_parents_keeps_target fs fs1 (role_path d j r));
    [apply Hfree | by rewrite role_path_parent].
Qed.

Lemma extract_keyframes_happy
    (video : Video) (out_dir : Path) (w : World) (g : Z -> Frame) (fs1 : FS) :
  0 < v_frame_count video ->
  v_opens video = true ->
  v_scenes video <> [] ->
  reads_frame_at video g ->
  mkdir_parents (w_fs w) out_dir = inr fs1 ->
  fs1 !! out_dir = Some (Dir true) ->
  (forall (j : nat) (r : Role), is_dir (w_fs w) (role_path out_dir j r) = false) ->
  result_of (extract_keyframes video out_dir w) = Ok tt /\
  scene_flags (events_of (extract_keyframes video out_dir w))
  = map (write_flags fs1 out_dir) (seq 1 (length (v_scenes video))) /\
  (forall (k : nat) (scene : Scene) (r : Role),
     v_scenes video !! k = Some scene ->
     w_fs (world_of (extract_keyframes video out_dir w)) !! role_path out_dir (S k) r
     = overwritten (fs1 !! role_path out_dir (S k) r) (role_frame video g scene r)) /\
  (forall q : Path,
     ~ run_path out_dir (length (v_scenes video)) q ->
     w_fs (world_of (extract_keyframes video out_dir w)) !! q = fs1 !! q).
Proof.
  intros Htotal Hopen Hne Hreads Hmk Hdir Hfree.
  assert (Hready : out_dir_ready out_dir (w_fs w) fs1).
  { split; [exact Hmk|]. split; [exact Hdir|]. by apply (scene_paths_stay_free _ (w_fs w)). }
  rewrite (extract_keyframes_opened _ _ _ Hne Hopen).
  destruct (scene_loop_happy video out_dir g Htotal Hreads (v_scenes video) 1 w fs1 Hready)
    as (Hres & Hflags & Hfiles & Hother).
  destruct (scene_loop video out_dir 1 (v_scenes video) w) as [[r1 w1] e1].
  unfold result_of, world_of, events_of in *. cbn [fst snd] in *. subst r1.
  cbn [fst snd].
  split; [reflexivity|].
  split; [rewrite !scene_flags_app, Hflags; cbn; by rewrite app_nil_r|].
  split; [intros k scene r Hk; by apply (Hfiles k scene r)|].
  intros q Hq. rewrite Hother.
  - destruct (v_scenes video); [congruence | reflexivity].
  - intros k r Hk Heq. apply Hq. exists (1 + k)%nat, r. split; [lia | exact Heq].
Qed.

(** The conditions, on the concrete videos. *)
Lemma two_scenes_reads : reads_frame_at video_two_scenes FrameData.
Proof. intros n pos. left. reflexivity. Defined.

Lemma transient_reads : reads_frame_at video_transient FrameData.
Proof.
  intros n pos. unfold video_transient. cbn [v_decode]. unfold decode_transient.
  rewrite Nat.even_succ, <- Nat.negb_even.
  destruct (Nat.even n); cbn; auto.
Defined.

Lemma fs_base_free (j : nat) (r : Role) :
  is_dir (w_fs (world0 fs_base)) (role_path ["out"%string] j r) = false.
Proof.
  unfold is_dir, world0, fs_base. cbn [w_fs].
  rewrite lookup_singleton_ne; [reflexivity|].
  rewrite role_path_eq. unfold path_join. discriminate.
Defined.

Lemma fs_base_writable (j : nat) (r : Role) :
  free_or_writable (w_fs (world0 fs_base)) (role_path ["out"%string] j r) = true.
Proof.
  unfold free_or_writable, world0, fs_base. cbn [w_fs].
  rewrite lookup_singleton_ne; [reflexivity|].
  rewrite role_path_eq. unfold path_join. discriminate.
Defined.

Lemma mkdir_out_in_base :
  mkdir_parents (w_fs (world0 fs_base)) ["out"%string] = inr fs_with_out.
Proof. vm_compute. reflexivity. Defined.

Lemma free_or_writable_not_dir (fs : FS) (p : Path) :
  free_or_writable fs p = true -> is_dir fs p = false.
Proof. unfold free_or_writable, is_dir. by destruct (fs !! p) as [[| |]|]. Qed.

Lemma free_or_writable_overwritten (fs : FS) (p : Path) (frame : Frame) :
  free_or_writable fs p = true -> overwritten (fs !! p) frame = Some (File frame).
Proof. unfold free_or_writable. by destruct (fs !! p) as [[| |]|]. Qed.

Lemma free_or_writable_can_write (fs : FS) (p : Path) :
  fs !! parent p = Some (Dir true) -> free_or_writable fs p = true -> can_write fs p = true.
Proof.
  unfold free_or_writable, can_write. intros ->. by destruct (fs !! p) as [[| |]|].
Qed.

Lemma map_seq_constant {A} (f : nat -> A) (c : A) (n : nat) :
  forall i : nat, (forall j, f j = c) -> map f (seq i n) = replicate n c.
Proof.
  induction n as [|n IH]; intros i Hf; [reflexivity|].
  cbn. by rewrite Hf, IH.
Qed.

(** X8: take a video with frames whose capture opens and gives each
    frame at the latest on the second read, an output directory without
    [..] that exists or can be created and is writable, and scene file
    names each of which is free or taken by a file that may be written to.
    Then the run returns normally, every flag is [True], the file of each
    role of each scene holds the frame at the clamped index of that role,
    and nothing else differs from the file system in which the directory
    has been created. *)
Theorem run_saves_every_frame
    (video : Video) (out_dir : Path) (w : World) (g : Z -> Frame) (fs1 : FS) :
  plain out_dir = true ->
  0 < v_frame_count video ->
  v_opens video = true ->
  v_scenes video <> [] ->
  reads_frame_at video g ->
  mkdir_parents (w_fs w) out_dir = inr fs1 ->
  fs1 !! out_dir = Some (Dir true) ->
  (forall (j : nat) (r : Role),
     free_or_writable (w_fs w) (role_path out_dir j r) = true) ->
  result_of (extract_keyframes video out_dir w) = Ok tt /\
  scene_flags (events_of (extract_keyframes video out_dir w))
  = replicate (length (v_scenes video)) (true, true, true) /\
  (forall (k : nat) (scene : Scene) (r : Role),
     v_scenes video !! k = Some scene ->
     w_fs (world_of (extract_keyframes video out_dir w)) !! role_path out_dir (S k) r
     = Some (File (role_frame video g scene r))) /\
  (forall q : Path,
     ~ run_path out_dir (length (v_scenes video)) q ->
     w_fs (world_of (extract_keyframes video out_dir w)) !! q = fs1 !! q).
Proof.
  intros _ Htotal Hopen Hne Hreads Hmk Hdir Hfree.
  assert (Hnotdir : forall j r, is_dir (w_fs w) (role_path out_dir j r) = false)
    by (intros j r; apply free_or_writable_not_dir, Hfree).
  assert (Hfree1 : forall j r, free_or_writable fs1 (role_path out_dir j r) = true).
  { intros j r. unfold free_or_writable.
    rewrite (mkdir_parents_keeps_target (w_fs w) fs1 (role_path out_dir j r))
      by (by rewrite role_path_parent).
    apply Hfree. }
  destruct (extract_keyframes_happy video out_dir w g fs1
              Htotal Hopen Hne Hreads Hmk Hdir Hnotdir) as (Hres & Hflags & Hfiles & Hother).
  split; [exact Hres|]. split; [|split; [|exact Hother]].
  - rewrite Hflags. apply map_seq_constant. intros j. unfold write_flags.
    rewrite !free_or_writable_can_write; try reflexivity;
      try apply Hfree1; by rewrite role_path_parent.
  - intros k scene r Hk. rewrite (Hfiles k scene r Hk).
    apply free_or_writable_overwritten, Hfree1.
Qed.

Lemma run_saves_every_frame_witness :
  plain ["out"%string] = true /\
  0 < v_frame_count video_transient /\
  v_opens video_transient = true /\
  v_scenes video_transient <> [] /\
  reads_frame_at video_transient FrameData /\
  mkdir_parents (w_fs (world0 fs_base)) ["out"%string] = inr fs_with_out /\
  fs_with_out !! ["out"%string] = Some (Dir true) /\
  (forall (j : nat) (r : Role),
     free_or_writable (w_fs (world0 fs_base)) (role_path ["out"%string] j r) = true) /\
  w_fs (world_of (extract_keyframes video_transient ["out"%string] (world0 fs_base)))
    !! ["out"; "scene_002_mid.jpg"]%string
  = Some (File (FrameData 224)).
Proof.
  assert (Hplain : plain ["out"%string] = true) by reflexivity.
  assert (Htotal : 0 < v_frame_count video_transient) by reflexivity.
  assert (Hne : v_scenes video_transient <> []) by discriminate.
  assert (Hdir : fs_with_out !! ["out"%string] = Some (Dir true)) by reflexivity.
  split; [exact Hplain|].
  split; [exact Htotal|]. split; [reflexivity|]. split; [exact Hne|].
  split; [exact transient_reads|]. split; [exact mkdir_out_in_base|].
  split; [exact Hdir|]. split; [exact fs_base_writable|].
  exact (proj1 (proj2 (proj2
           (run_saves_every_frame video_transient ["out"%string] (world0 fs_base)
              FrameData fs_with_out Hplain Htotal eq_refl Hne transient_reads
              mkdir_out_in_base Hdir fs_base_writable)))
           1%nat (tc 150, tc 300) RMid eq_refl).
Defined.

(** ** Consecutive scenes *)

Lemma role_index_bounds (s : Scene) (r : Role) :
  get_frames s.1 <= role_index (frame_range s) r /\
  role_index (frame_range s) r <= Z.max (get_frames s.1) (get_frames s.2 - 1).
Proof.
  destruct s as [a b]. cbn [fst snd frame_range].
  set (x := get_frames a). set (y := get_frames b - 1).
  assert (Hmid : x <= (x + (if y <? x then x else y)) / 2 <= (if y <? x then x else y)).
  { destruct (Z.ltb_spec y x); split;
      (apply Z.div_le_lower_bound || apply Z.div_le_upper_bound); lia. }
  destruct r; cbn [role_index fst snd]; destruct (Z.ltb_spec y x); lia.
Qed.

Lemma chained_later_start (scenes : list Scene) :
  chained scenes ->
  forall (n k : nat) (s s' : Scene),
    scenes !! k = Some s -> scenes !! (k + S n)%nat = Some s' ->
    get_frames s.2 <= get_frames s'.1.
Proof.
  intros [Hfull Hnext]. induction n as [|n IH]; intros k s s' Hk Hk'.
  - replace (k + 1)%nat with (S k) in Hk' by lia.
    rewrite (Hnext k s s' Hk Hk'). lia.
  - assert (Hlt : (k + S n < length scenes)%nat).
    { apply lookup_lt_Some in Hk'. lia. }
    apply lookup_lt_is_Some in Hlt as [s'' Hk''].
    pose proof (IH k s s'' Hk Hk'') as Hle.
    pose proof (Hfull _ _ Hk'') as Hfull''.
    replace (k + S (S n))%nat with (S (k + S n)) in Hk' by lia.
    rewrite <- (Hnext _ s'' s' Hk'' Hk'). lia.
Qed.

(** X9: in a scene list where every scene has a frame and each scene ends
    where the next one starts, the indices selected for a scene are all
    below the indices selected for any later scene, and its end_frame is the
    index just before the end boundary. *)
Theorem chained_scenes_share_no_frame
    (scenes : list Scene) (k k' : nat) (s s' : Scene) (r r' : Role) :
  chained scenes ->
  (k < k')%nat ->
  scenes !! k = Some s ->
  scenes !! k' = Some s' ->
  role_index (frame_range s) r < role_index (frame_range s') r' /\
  role_index (frame_range s) REnd = get_frames s.2 - 1.
Proof.
  intros Hch Hlt Hk Hk'.
  pose proof (proj1 Hch k s Hk) as Hfull.
  replace k' with (k + S (k' - k - 1))%nat in Hk' by lia.
  pose proof (chained_later_start scenes Hch _ _ _ _ Hk Hk') as Hle.
  pose proof (role_index_bounds s r) as [_ Hup].
  pose proof (role_index_bounds s' r') as [Hlow _].
  split; [lia|].
  destruct s as [a b]. cbn [fst snd frame_range role_index] in *.
  destruct (Z.ltb_spec (get_frames b - 1) (get_frames a)); lia.
Qed.

Lemma two_scenes_chained : chained (v_scenes video_two_scenes).
Proof.
  split.
  - intros [|[|k]] s Hk; cbn in Hk; try discriminate; injection Hk as <-; reflexivity.
  - intros [|[|k]] s1 s2 Hk Hk'; cbn in Hk, Hk'; try discriminate.
    injection Hk as <-. injection Hk' as <-. reflexivity.
Defined.

Lemma chained_scenes_share_no_frame_witness :
  chained (v_scenes video_two_scenes) /\
  (0 < 1)%nat /\
  v_scenes video_two_scenes !! 0%nat = Some (tc 0, tc 150) /\
  v_scenes video_two_scenes !! 1%nat = Some (tc 150, tc 300) /\
  role_index (frame_range (tc 0, tc 150)) REnd
  < role_index (frame_range (tc 150, tc 300)) RStart.
Proof.
  assert (Hlt : (0 < 1)%nat) by lia.
  split; [exact two_scenes_chained|]. split; [exact Hlt|].
  split; [reflexivity|]. split; [reflexivity|].
  exact (proj1 (chained_scenes_share_no_frame (v_scenes video_two_scenes) 0 1
                  (tc 0, tc 150) (tc 150, tc 300) REnd RStart
                  two_scenes_chained Hlt eq_refl eq_refl)).
Defined.

(** ** The frames a run asks for *)

Lemma seeks_of_app (e1 e2 : list Event) : seeks_of (e1 ++ e2) = seeks_of e1 ++ seeks_of e2.
Proof.
  induction e1 as [|e e1 IH]; [reflexivity|].
  destruct e; cbn; rewrite ?IH; reflexivity.
Qed.

Lemma save_frame_seeks (cap : Video) (frame_idx : Z) (out_path : Path) (w : World) :
  0 < v_frame_count cap ->
  seeks_of (events_of (save_frame cap frame_idx out_path w))
  = [clamp_index (v_frame_count cap) frame_idx].
Proof.
  intros Htotal.
  destruct (save_frame_log_cases cap frame_idx out_path w)
    as [[Hle _]|(_ & reads & tail & -> & Hreads & Htail)]; [lia|].
  destruct Hreads as [-> | ->]; destruct Htail as [-> | [-> | [frame ->]]]; reflexivity.
Qed.

Section Seeks.

Variables (cap : Video) (d : Path).

Hypothesis has_frames : 0 < v_frame_count cap.

Lemma scene_body_seeks_of (i : nat) (scene : Scene) (w : World) :
  (exists u, result_of (scene_body cap d i scene w) = Ok u) ->
  seeks_of (events_of (scene_body cap d i scene w))
  = scene_seeks (v_frame_count cap) scene.
Proof.
  rewrite scene_body_eq. unfold scene_seeks, scene_line.
  set (i1 := role_index (frame_range scene) RStart).
  set (i2 := role_index (frame_range scene) RMid).
  set (i3 := role_index (frame_range scene) REnd).
  pose proof (save_frame_seeks cap i1 (role_path d i RStart) w has_frames) as H1.
  destruct (save_frame cap i1 (role_path d i RStart) w) as [[[ok1|x1] w1] e1];
    [|intros [u Hu]; discriminate].
  pose proof (save_frame_seeks cap i2 (role_path d i RMid) w1 has_frames) as H2.
  destruct (save_frame cap i2 (role_path d i RMid) w1) as [[[ok2|x2] w2] e2];
    [|intros [u Hu]; discriminate].
  pose proof (save_frame_seeks cap i3 (role_path d i REnd) w2 has_frames) as H3.
  destruct (save_frame cap i3 (role_path d i REnd) w2) as [[[ok3|x3] w3] e3];
    [|intros [u Hu]; discriminate].
  intros _. unfold events_of in *. cbn [fst snd] in *.
  rewrite !seeks_of_app, H1, H2, H3. reflexivity.
Qed.

Lemma scene_loop_seeks_of (scenes : list Scene) :
  forall (i : nat) (w : World),
    (exists u, result_of (scene_loop cap d i scenes w) = Ok u) ->
    seeks_of (events_of (scene_loop cap d i scenes w))
    = concat (map (scene_seeks (v_frame_count cap)) scenes).
Proof.
  induction scenes as [|scene rest IH]; intros i w; [reflexivity|].
  rewrite scene_loop_cons.
  pose proof (scene_body_seeks_of i scene w) as Hbody.
  destruct (scene_body cap d i scene w) as [[[[]|x] w1] e1];
    [|intros [u Hu]; discriminate].
  pose proof (IH (S i) w1) as Hrest.
  destruct (scene_loop cap d (S i) rest w1) as [[r2 w2] e2].
  unfold after_events, events_of, result_of in *. cbn [fst snd] in *.
  intros Hok. rewrite seeks_of_app, Hbody, (Hrest Hok) by eauto. reflexivity.
Qed.

End Seeks.

(** X10: a run that returns normally on a video with frames seeks to
    the clamped start, mid and end index of each scene, in this order, and
    nowhere else. *)
Theorem run_seeks_selected_frames (video : Video) (out_dir : Path) (w : World) :
  0 < v_frame_count video ->
  result_of (extract_keyframes video out_dir w) = Ok tt ->
  seeks_of (events_of (extract_keyframes video out_dir w))
  = concat (map (scene_seeks (v_frame_count video)) (v_scenes video)).
Proof.
  intros Htotal.
  destruct (v_scenes video) as [|scene rest] eqn:Hscenes.
  { by rewrite (extract_keyframes_no_scenes _ _ _ Hscenes). }
  assert (Hne : v_scenes video <> []) by congruence.
  destruct (v_opens video) eqn:Hopen.
  2:{ rewrite (extract_keyframes_not_opened _ _ _ Hne Hopen). discriminate. }
  rewrite (extract_keyframes_opened _ _ _ Hne Hopen), Hscenes.
  pose proof (scene_loop_seeks_of video out_dir Htotal (scene :: rest) 1 w) as Hloop.
  destruct (scene_loop video out_dir 1 (scene :: rest) w) as [[[[]|x] w1] e1];
    unfold events_of, result_of in *; cbn [fst snd] in *; [|discriminate].
  intros _. rewrite !seeks_of_app, Hloop by eauto. cbn [seeks_of app].
  by rewrite app_nil_r.
Qed.

Lemma run_seeks_selected_frames_witness :
  0 < v_frame_count video_transient /\
  result_of (extract_keyframes video_transient ["out"%string] (world0 fs_base)) = Ok tt /\
  seeks_of (events_of (extract_keyframes video_transient ["out"%string] (world0 fs_base)))
  = [0; 74; 149; 150; 224; 299].
Proof.
  assert (Htotal : 0 < v_frame_count video_transient) by reflexivity.
  assert (Hok : result_of (extract_keyframes video_transient ["out"%string]
                             (world0 fs_base)) = Ok tt)
    by (vm_compute; reflexivity).
  split; [exact Htotal|]. split; [exact Hok|].
  exact (run_seeks_selected_frames video_transient ["out"%string] (world0 fs_base)
           Htotal Hok).
Defined.


(** ** Running twice *)

Lemma run_path_cases (d : Path) (n : nat) (q : Path) :
  run_path d n q \/ ~ run_path d n q.
Proof.
  induction n as [|n IH].
  - right. intros (j & r & Hj & _). lia.
  - destruct IH as [(j & r & Hj & Hq)|Hno].
    { left. exists j, r. split; [lia | exact Hq]. }
    destruct (decide (q = role_path d (S n) RStart)) as [H1|H1];
      [left; exists (S n), RStart; split; [lia | exact H1]|].
    destruct (decide (q = role_path d (S n) RMid)) as [H2|H2];
      [left; exists (S n), RMid; split; [lia | exact H2]|].
    destruct (decide (q = role_path d (S n) REnd)) as [H3|H3];
      [left; exists (S n), REnd; split; [lia | exact H3]|].
    right. intros (j & r & Hj & Hq).
    destruct (decide (j = S n)) as [->|Hne].
    + destruct r; contradiction.
    + apply Hno. exists j, r. split; [lia | exact Hq].
Qed.

(** X11: take a video with frames whose capture opens and gives each
    frame at the latest on the second read, an output directory that
    exists or can be created and is writable, and scene file names none of
    which is taken by a directory.  Running again in the world the first
    run left returns normally and leaves the file system exactly as the
    first run left it. *)
Theorem rerun_changes_nothing
    (video : Video) (out_dir : Path) (w : World) (g : Z -> Frame) (fs1 : FS) :
  0 < v_frame_count video ->
  v_opens video = true ->
  v_scenes video <> [] ->
  reads_frame_at video g ->
  mkdir_parents (w_fs w) out_dir = inr fs1 ->
  fs1 !! out_dir = Some (Dir true) ->
  (forall (j : nat) (r : Role), is_dir (w_fs w) (role_path out_dir j r) = false) ->
  result_of (extract_keyframes video out_dir
               (world_of (extract_keyframes video out_dir w))) = Ok tt /\
  w_fs (world_of (extract_keyframes video out_dir
                    (world_of (extract_keyframes video out_dir w))))
  = w_fs (world_of (extract_keyframes video out_dir w)).
Proof.
  intros Htotal Hopen Hne Hreads Hmk Hdir Hfree.
  pose proof (scene_paths_stay_free _ _ _ Hmk Hfree) as Hfree1.
  destruct (extract_keyframes_happy video out_dir w g fs1
              Htotal Hopen Hne Hreads Hmk Hdir Hfree) as (_ & _ & Hfiles1 & Hother1).
  set (w1 := world_of (extract_keyframes video out_dir w)) in *.
  assert (Hnotpath : ~ run_path out_dir (length (v_scenes video)) out_dir).
  { intros (j & r & _ & Heq). apply (role_path_not_above out_dir j r []).
    by rewrite app_nil_r. }
  assert (Hd1 : w_fs w1 !! out_dir = Some (Dir true))
    by (by rewrite (Hother1 _ Hnotpath)).
  assert (Hfree2 : forall j r, is_dir (w_fs w1) (role_path out_dir j r) = false).
  { intros j r. unfold is_dir.
    destruct (decide (1 <= j <= length (v_scenes video))%nat) as [Hj|Hj].
    - assert (Hlt : (j - 1 < length (v_scenes video))%nat) by lia.
      apply lookup_lt_is_Some in Hlt as [scene Hscene].
      pose proof (Hfiles1 (j - 1)%nat scene r Hscene) as Hfile.
      replace (S (j - 1)) with j in Hfile by lia. rewrite Hfile.
      specialize (Hfree1 j r). unfold is_dir in Hfree1.
      by destruct (fs1 !! role_path out_dir j r) as [[| |]|].
    - rewrite Hother1; [apply Hfree1|].
      intros (j' & r' & Hj' & Heq). apply role_path_inj in Heq as [-> _]. lia. }
  assert (Hmk2 : mkdir_parents (w_fs w1) out_dir = inr (w_fs w1))
    by (apply mkdir_parents_existing; unfold is_dir; by rewrite Hd1).
  destruct (extract_keyframes_happy video out_dir w1 g (w_fs w1)
              Htotal Hopen Hne Hreads Hmk2 Hd1 Hfree2) as (Hres2 & _ & Hfiles2 & Hother2).
  split; [exact Hres2|].
  apply map_eq. intros q.
  destruct (run_path_cases out_dir (length (v_scenes video)) q)
    as [(j & r & Hj & ->)|Hno]; [|by apply Hother2].
  assert (Hlt : (j - 1 < length (v_scenes video))%nat) by lia.
  apply lookup_lt_is_Some in Hlt as [scene Hscene].
  pose proof (Hfiles1 (j - 1)%nat scene r Hscene) as Hf1.
  pose proof (Hfiles2 (j - 1)%nat scene r Hscene) as Hf2.
  replace (S (j - 1)) with j in Hf1, Hf2 by lia.
  rewrite Hf2, Hf1. apply overwritten_twice.
Qed.

Lemma rerun_changes_nothing_witness :
  0 < v_frame_count video_two_scenes /\
  v_opens video_two_scenes = true /\
  v_scenes video_two_scenes <> [] /\
  reads_frame_at video_two_scenes FrameData /\
  mkdir_parents (w_fs (world0 fs_base)) ["out"%string] = inr fs_with_out /\
  fs_with_out !! ["out"%string] = Some (Dir true) /\
  (forall (j : nat) (r : Role),
     is_dir (w_fs (world0 fs_base)) (role_path ["out"%string] j r) = false) /\
  w_fs (world_of (extract_keyframes video_two_scenes ["out"%string]
                    (world_of (extract_keyframes video_two_scenes ["out"%string]
                                 (world0 fs_base)))))
  = w_fs (world_of (extract_keyframes video_two_scenes ["out"%string] (world0 fs_base))).
Proof.
  assert (Htotal : 0 < v_frame_count video_two_scenes) by reflexivity.
  assert (Hne : v_scenes video_two_scenes <> []) by discriminate.
  assert (Hdir : fs_with_out !! ["out"%string] = Some (Dir true)) by reflexivity.
  split; [exact Htotal|]. split; [reflexivity|]. split; [exact Hne|].
  split; [exact two_scenes_reads|]. split; [exact mkdir_out_in_base|].
  split; [exact Hdir|]. split; [exact fs_base_free|].
  exact (proj2 (rerun_changes_nothing video_two_scenes ["out"%string] (world0 fs_base)
                  FrameData fs_with_out Htotal eq_refl Hne two_scenes_reads
                  mkdir_out_in_base Hdir fs_base_free)).
Defined.
